(** * The response content parser of the chat front end (frontend/zia/src/App.js)

    A shallow embedding of [parseMessage], [escapeHtml],
    [convertMarkdownTable], [formatMessage] and of the mount logic of
    [VisualizationRenderer], with the properties of the specification proved
    (or refuted) on it.

    A JavaScript string is a sequence of UTF-16 code units; it is modelled as
    a list of code units, each one a number of [N].  Every string constant of
    the source is ASCII except the two bullet markers, which are single code
    units (U+2022 and U+25E6). *)

From Stdlib Require Import String Ascii NArith ZArith Lia DecimalString DecimalN.
From stdpp Require Import base option list.

Local Open Scope N_scope.
Local Open Scope nat_scope.
Local Open Scope list_scope.

(** ** JavaScript strings *)

Abbreviation jsstring := (list N).

(** The code units of an ASCII literal. *)
Definition js (s : string) : jsstring :=
  map N_of_ascii (list_ascii_of_string s).

Module Ch.
Definition nl : N := 10.
Definition space : N := 32.
Definition dquote : N := 34.
Definition hash : N := 35.
Definition amp : N := 38.
Definition squote : N := 39.
Definition star : N := 42.
Definition dash : N := 45.
Definition colon : N := 58.
Definition lt : N := 60.
Definition gt : N := 62.
Definition pipe : N := 124.
Definition bullet : N := 8226.      (* U+2022 *)
Definition ring : N := 9702.        (* U+25E6 *)
End Ch.

(** [\s] of a regular expression and the characters [String.prototype.trim]
    removes: WhiteSpace and LineTerminator of ECMA-262. *)
Definition isWhiteSpace (c : N) : bool :=
  ((9 <=? c) && (c <=? 13) || (c =? 32) || (c =? 160) || (c =? 5760)
   || (8192 <=? c) && (c <=? 8202) || (c =? 8232) || (c =? 8233)
   || (c =? 8239) || (c =? 8287) || (c =? 12288) || (c =? 65279))%N.

(** [.] of a regular expression (no [s] flag): anything but a line
    terminator. *)
Definition isLineTerminator (c : N) : bool :=
  ((c =? 10) || (c =? 13) || (c =? 8232) || (c =? 8233))%N.

Fixpoint trimStart (s : jsstring) : jsstring :=
  match s with
  | c :: s' => if isWhiteSpace c then trimStart s' else s
  | [] => []
  end.

Definition trimEnd (s : jsstring) : jsstring := rev (trimStart (rev s)).

Definition trim (s : jsstring) : jsstring := trimEnd (trimStart s).

(** [s.includes(c)] for a one-character needle. *)
Definition includes (c : N) (s : jsstring) : bool := existsb (N.eqb c) s.

(** [s.startsWith(p)]. *)
Fixpoint startsWith (p s : jsstring) : bool :=
  match p, s with
  | [], _ => true
  | a :: p', b :: s' => (a =? b)%N && startsWith p' s'
  | _ :: _, [] => false
  end.

Definition endsWith (p s : jsstring) : bool := startsWith (rev p) (rev s).

(** [s.split(c)]: the pieces between the occurrences of [c]; never empty. *)
Fixpoint split (sep : N) (s : jsstring) : list jsstring :=
  match s with
  | [] => [[]]
  | c :: s' =>
      if (c =? sep)%N then [] :: split sep s'
      else match split sep s' with
           | p :: ps => (c :: p) :: ps
           | [] => [[c]]
           end
  end.

(** [parts.join(sep)]. *)
Fixpoint join (sep : jsstring) (parts : list jsstring) : jsstring :=
  match parts with
  | [] => []
  | [p] => p
  | p :: ps => p ++ sep ++ join sep ps
  end.

(** A string is truthy when it is not empty. *)
Definition truthy (s : jsstring) : bool :=
  match s with [] => false | _ => true end.

(** [s.indexOf(m)]: the first position at which [m] occurs, [-1] if none. *)
Fixpoint indexOfFrom (m s : jsstring) (i : Z) : Z :=
  if startsWith m s then i
  else match s with
       | [] => (-1)%Z
       | _ :: s' => indexOfFrom m s' (i + 1)%Z
       end.

Definition indexOf (m s : jsstring) : Z := indexOfFrom m s 0%Z.

(** [s.substring(a, b)] and [s.substring(a)], with the clamping and the swap
    of ECMA-262. *)
Definition clampIdx (s : jsstring) (a : Z) : nat :=
  Z.to_nat (Z.min (Z.max a 0) (Z.of_nat (length s))).

Definition substring (s : jsstring) (a b : Z) : jsstring :=
  let a' := clampIdx s a in
  let b' := clampIdx s b in
  let from := Nat.min a' b' in
  let to := Nat.max a' b' in
  take (to - from) (drop from s).

Definition substringFrom (s : jsstring) (a : Z) : jsstring :=
  substring s a (Z.of_nat (length s)).

(** ** escapeHtml (App.js, lines 46-56) *)

(** The object literal [map]. *)
Definition map_entities : list (N * jsstring) :=
  [ (Ch.amp, js "&amp;");
    (Ch.lt, js "&lt;");
    (Ch.gt, js "&gt;");
    (Ch.dquote, js "&quot;");
    (Ch.squote, js "&#039;") ].

Fixpoint assoc (k : N) (m : list (N * jsstring)) : option jsstring :=
  match m with
  | [] => None
  | (k', v) :: m' => if (k =? k')%N then Some v else assoc k m'
  end.

(** [map[m]] inside a replacement callback: a missing key would give
    [undefined], which [replace] turns into the text undefined. *)
Definition mapGet (m : list (N * jsstring)) (k : N) : jsstring :=
  match assoc k m with
  | Some v => v
  | None => js "undefined"
  end.

(** The character class of the five HTML metacharacters. *)
Definition isHtmlSpecial (c : N) : bool :=
  ((c =? Ch.amp) || (c =? Ch.lt) || (c =? Ch.gt) || (c =? Ch.dquote)
   || (c =? Ch.squote))%N.

(** [s.replace(/[class]/g, f)] for a class of single characters: every
    character of the class is replaced by what the callback returns. *)
Fixpoint replaceClass (cls : N -> bool) (f : N -> jsstring) (s : jsstring)
  : jsstring :=
  match s with
  | [] => []
  | c :: s' =>
      (if cls c then f c else [c]) ++ replaceClass cls f s'
  end.

Definition escapeHtml (text : jsstring) : jsstring :=
  if negb (truthy text) then []
  else replaceClass isHtmlSpecial (mapGet map_entities) text.

(** The contract of the Escaper in the words of the specification: the five
    characters are replaced by their entities, every other character is
    kept. *)
Definition entityOf (c : N) : jsstring :=
  if (c =? Ch.amp)%N then js "&amp;"
  else if (c =? Ch.lt)%N then js "&lt;"
  else if (c =? Ch.gt)%N then js "&gt;"
  else if (c =? Ch.dquote)%N then js "&quot;"
  else if (c =? Ch.squote)%N then js "&#039;"
  else [c].

Definition escape_spec (s : jsstring) : jsstring := concat (map entityOf s).

(** ** Regular expressions of the source

    The patterns of [parseMessage] are sequences of single characters and of
    starred character classes, greedy ([*]) or lazy ([*?]).  [matchHere] is
    the backtracking matcher of ECMA-262 on such sequences: it returns the
    length of the match the engine finds at the start of [s], trying the
    alternatives of every star in its priority order. *)

Inductive item :=
  | Chr (p : N -> bool)
  | Star (greedy : bool) (p : N -> bool).

Abbreviation regex := (list item).

Fixpoint matchHere (r : regex) (s : jsstring) {struct r} : option nat :=
  match r with
  | [] => Some 0
  | Chr p :: r' =>
      match s with
      | c :: s' => if p c then S <$> matchHere r' s' else None
      | [] => None
      end
  | Star false p :: r' =>
      (fix lazy (s : jsstring) : option nat :=
         match matchHere r' s with
         | Some n => Some n
         | None =>
             match s with
             | c :: s' => if p c then S <$> lazy s' else None
             | [] => None
             end
         end) s
  | Star true p :: r' =>
      (fix greedy (s : jsstring) : option nat :=
         match s with
         | c :: s' =>
             if p c then
               match greedy s' with
               | Some n => Some (S n)
               | None => matchHere r' s
               end
             else matchHere r' s
         | [] => matchHere r' s
         end) s
  end.

(** [s.match(r)] without the [g] flag: the leftmost position at which the
    pattern matches, with the matched text (entry 0 of the result). *)
Fixpoint execFrom (r : regex) (s : jsstring) (i : nat)
  : option (nat * jsstring) :=
  match matchHere r s with
  | Some n => Some (i, take n s)
  | None =>
      match s with
      | [] => None
      | _ :: s' => execFrom r s' (S i)
      end
  end.

Definition regexMatch (r : regex) (s : jsstring) : option (nat * jsstring) :=
  execFrom r s 0.

(** Case-insensitive comparison with an ASCII character of a pattern (flag
    [i], no [u] flag): both sides are canonicalized with [toUpperCase], and
    a character outside ASCII never canonicalizes to an ASCII one. *)
Definition asciiUpper (c : N) : N :=
  if ((97 <=? c) && (c <=? 122))%N then (c - 32)%N else c.

Definition ciChar (a c : N) : bool := (asciiUpper c =? asciiUpper a)%N.

Definition lit_ci (s : string) : regex := map (fun a => Chr (ciChar a)) (js s).

Definition anyChar (c : N) : bool := true.
Definition notChar (a c : N) : bool := negb (c =? a)%N.

(** [/<!DOCTYPE html>[\s\S]*?<\/html>/i] *)
Definition reDoctype : regex :=
  lit_ci "<!DOCTYPE html>" ++ [Star false anyChar] ++ lit_ci "</html>".

(** [/<html[\s\S]*?<\/html>/i] *)
Definition reHtml : regex :=
  lit_ci "<html" ++ [Star false anyChar] ++ lit_ci "</html>".

(** The third pattern: a div with an id attribute, then a script block that
    names Plotly. *)
Definition rePlotlyDiv : regex :=
  lit_ci "<div" ++ [Star true (notChar Ch.gt)] ++ lit_ci "id="
  ++ [Chr (ciChar Ch.dquote); Star true (notChar Ch.dquote);
      Chr (ciChar Ch.dquote); Star true (notChar Ch.gt); Chr (ciChar Ch.gt);
      Star false anyChar]
  ++ lit_ci "<script" ++ [Star false anyChar] ++ lit_ci "Plotly"
  ++ [Star false anyChar] ++ lit_ci "</script>".

(** ** parseMessage (App.js, lines 17-43) *)

Record ParsedAnswer := {
  text : jsstring;
  html : option jsstring;
  hasVisualization : bool
}.

(** [a || b || c] on the results of [match]. *)
Definition htmlMatch (text : jsstring) : option (nat * jsstring) :=
  match regexMatch reDoctype text with
  | Some m => Some m
  | None =>
      match regexMatch reHtml text with
      | Some m => Some m
      | None => regexMatch rePlotlyDiv text
      end
  end.

Definition parseMessage (text : jsstring) : ParsedAnswer :=
  if negb (truthy text) then
    {| text := []; html := None; hasVisualization := false |}
  else
    match htmlMatch text with
    | Some (_, m0) =>
        let htmlContent := m0 in
        let textBefore := trim (substring text 0 (indexOf m0 text)) in
        let textAfter :=
          trim (substringFrom text (indexOf m0 text + Z.of_nat (length m0))) in
        let combinedText :=
          join [Ch.nl] (List.filter truthy [textBefore; textAfter]) in
        {| text := combinedText; html := Some htmlContent;
           hasVisualization := true |}
    | None =>
        {| text := text; html := None; hasVisualization := false |}
    end.

(** ** Bold conversion: [s.replace(/\*\*(.*?)\*\*/g, '<strong>$1</strong>')]

    [findClose] is the lazy [(.*?)\*\*] after an opening pair of stars: the
    shortest run of characters other than line terminators that is followed
    by two stars.  [boldLoop] is the global replacement: at each position the
    pattern is tried; after a match the scan resumes behind it. *)

Fixpoint findClose (s : jsstring) : option (jsstring * jsstring) :=
  if startsWith [Ch.star; Ch.star] s then Some ([], drop 2 s)
  else
    match s with
    | c :: s' =>
        if isLineTerminator c then None
        else
          match findClose s' with
          | Some (inner, rest) => Some (c :: inner, rest)
          | None => None
          end
    | [] => None
    end.

Fixpoint boldLoop (fuel : nat) (s : jsstring) : jsstring :=
  match fuel with
  | 0 => []
  | S fuel' =>
      match s with
      | [] => []
      | c :: s' =>
          if startsWith [Ch.star; Ch.star] s then
            match findClose (drop 2 s) with
            | Some (inner, rest) =>
                js "<strong>" ++ inner ++ js "</strong>" ++ boldLoop fuel' rest
            | None => c :: boldLoop fuel' s'
            end
          else c :: boldLoop fuel' s'
      end
  end.

(** Every step consumes at least one character, so the length of the input
    is enough fuel ([boldLoop_fuel] below). *)
Definition bold (s : jsstring) : jsstring := boldLoop (length s) s.

(** ** convertMarkdownTable (App.js, lines 59-128) *)

(** [/^[\s|:-]+$/.test(row)] *)
Definition isSepChar (c : N) : bool :=
  (isWhiteSpace c || (c =? Ch.pipe) || (c =? Ch.colon) || (c =? Ch.dash))%N.

Definition sepRe (row : jsstring) : bool := truthy row && forallb isSepChar row.

(** [for (j = lo; j < hi; j++) if (p j) { found = j; break }] *)
Fixpoint forFind (n lo : nat) (p : nat -> bool) : option nat :=
  match n with
  | 0 => None
  | S n' => if p lo then Some lo else forFind n' (S lo) p
  end.

(** [separatorIndex]: [-1] when the loop over rows 1 to 4 finds nothing. *)
Definition separatorIndex (rows : list jsstring) : Z :=
  let hi := Nat.min (length rows) 5 in
  match forFind (hi - 1) 1
          (fun j => let row := trim (nth j rows []) in
                    includes Ch.pipe row && sepRe row) with
  | Some j => Z.of_nat j
  | None => (-1)%Z
  end.

(** [rows.slice(n)] *)
Definition slice (n : nat) (rows : list jsstring) : list jsstring := drop n rows.

Definition shiftIf (b : bool) (parts : list jsstring) : list jsstring :=
  if b then tail parts else parts.

Definition popIf (b : bool) (parts : list jsstring) : list jsstring :=
  if b then removelast parts else parts.

Definition parseRow (row : jsstring) : list jsstring :=
  let parts := map trim (split Ch.pipe row) in
  let parts :=
    shiftIf ((0 <? length parts) && negb (truthy (nth 0 parts []))
             && startsWith [Ch.pipe] (trim row)) parts in
  let parts :=
    popIf ((0 <? length parts)
           && negb (truthy (nth (length parts - 1) parts []))
           && endsWith [Ch.pipe] (trim row)) parts in
  parts.

Definition cellHtml (tag : string) (cell : jsstring) : jsstring :=
  let escaped := escapeHtml cell in
  let withBold := bold escaped in
  js "<" ++ js tag ++ js ">" ++ withBold ++ js "</" ++ js tag ++ js ">".

Definition headerCellList (headerRow : jsstring) : list jsstring :=
  map (cellHtml "th") (parseRow headerRow).

Definition rowHtml (row : jsstring) : jsstring :=
  let cells := join [] (map (cellHtml "td") (parseRow row)) in
  if truthy cells then js "<tr>" ++ cells ++ js "</tr>" else [].

Definition bodyRowList (dataRows : list jsstring) : list jsstring :=
  List.filter truthy
    (map rowHtml
       (List.filter (fun row => truthy (trim row) && includes Ch.pipe row)
          dataRows)).

Definition q : jsstring := [Ch.dquote].

Definition noDataRow : jsstring :=
  js "<tr><td colspan=" ++ q ++ js "100%" ++ q ++ js ">No data</td></tr>".

Definition tableTemplate (headerCells bodyRows : jsstring) : jsstring :=
  [Ch.nl] ++ js "    <div class=" ++ q ++ js "table-wrapper" ++ q ++ js ">"
  ++ [Ch.nl] ++ js "      <table class=" ++ q ++ js "markdown-table" ++ q
  ++ js ">"
  ++ [Ch.nl] ++ js "        <thead><tr>" ++ headerCells ++ js "</tr></thead>"
  ++ [Ch.nl] ++ js "        <tbody>"
  ++ (if truthy bodyRows then bodyRows else noDataRow) ++ js "</tbody>"
  ++ [Ch.nl] ++ js "      </table>"
  ++ [Ch.nl] ++ js "    </div>"
  ++ [Ch.nl] ++ js "  ".

(** The rows of the block: its lines, blank ones dropped. *)
Definition tableRows (tableText : jsstring) : list jsstring :=
  List.filter (fun row => truthy (trim row)) (split Ch.nl (trim tableText)).

(** [dataRows]: what follows the separator, or what follows the header when
    no separator was found. *)
Definition dataRowsOf (rows : list jsstring) : list jsstring :=
  let separatorIndex := separatorIndex rows in
  if (0 <? separatorIndex)%Z then slice (Z.to_nat separatorIndex + 1) rows
  else slice 1 rows.

(** The function once the rows are known; [null] is [None]. *)
Definition convertRows (rows : list jsstring) : option jsstring :=
  if length rows <? 2 then None
  else
    let headerRow := nth 0 rows [] in
    let dataRows := dataRowsOf rows in
    let headerCells := join [] (headerCellList headerRow) in
    let bodyRows := join [] (bodyRowList dataRows) in
    if negb (truthy headerCells) then None
    else Some (tableTemplate headerCells bodyRows).

Definition convertMarkdownTable (tableText : jsstring) : option jsstring :=
  convertRows (tableRows tableText).

(** ** formatMessage (App.js, lines 131-312) *)

Inductive part :=
  | PTable (content : jsstring)
  | PLine (content : jsstring).

Definition isTable (p : part) : bool :=
  match p with PTable _ => true | PLine _ => false end.

Definition blank (line : jsstring) : bool := negb (truthy (trim line)).

(** [while (k < lines.length && lines[k].trim() === '') k++], as the number
    of steps it takes from [k]. *)
Fixpoint countBlank (ls : list jsstring) : nat :=
  match ls with
  | l :: ls' => if blank l then S (countBlank ls') else 0
  | [] => 0
  end.

Definition skipBlank (lines : list jsstring) (k : nat) : nat :=
  k + countBlank (drop k lines).

(** The look-ahead loop of lines 153-196.  It runs while [j < i + 50], so 50
    units of fuel are never used up ([scanLoop_fuel] below).  The result is
    [(tableLines, j, foundSeparator)] at the exit of the loop. *)
Fixpoint scanLoop (fuel : nat) (lines : list jsstring) (i j : nat)
    (tableLines : list jsstring) (foundSeparator : bool)
  : list jsstring * nat * bool :=
  match fuel with
  | 0 => (tableLines, j, foundSeparator)
  | S fuel' =>
      if (j <? length lines) && (j <? i + 50) then
        let nextLine := nth j lines [] in
        if negb foundSeparator && includes Ch.pipe nextLine
           && sepRe (trim nextLine) then
          scanLoop fuel' lines i (j + 1) (tableLines ++ [nextLine]) true
        else if foundSeparator then
          if includes Ch.pipe nextLine && truthy (trim nextLine) then
            scanLoop fuel' lines i (j + 1) (tableLines ++ [nextLine])
              foundSeparator
          else if blank nextLine then
            let tableLines' := tableLines ++ [nextLine] in
            let j' := j + 1 in
            let k := skipBlank lines j' in
            if (k <? length lines) && negb (includes Ch.pipe (nth k lines []))
            then (tableLines', j', foundSeparator)
            else scanLoop fuel' lines i j' tableLines' foundSeparator
          else (tableLines, j, foundSeparator)
        else
          if includes Ch.pipe nextLine && truthy (trim nextLine) then
            scanLoop fuel' lines i (j + 1) (tableLines ++ [nextLine])
              foundSeparator
          else if blank nextLine && (j <? i + 3) then
            scanLoop fuel' lines i (j + 1) tableLines foundSeparator
          else (tableLines, j, foundSeparator)
      else (tableLines, j, foundSeparator)
  end.

Definition scan (lines : list jsstring) (i : nat)
  : list jsstring * nat * bool :=
  scanLoop 50 lines i (i + 1) [nth i lines []] false.

(** [(l.match(/\|/g) || []).length] *)
Definition pipeCount (l : jsstring) : nat :=
  length (List.filter (N.eqb Ch.pipe) l).

Definition allSimilar (pipeCounts : list nat) (firstPipeCount : nat) : bool :=
  forallb (fun count =>
             (Z.abs (Z.of_nat count - Z.of_nat firstPipeCount) <=? 1)%Z)
    pipeCounts.

(** Lines 199-209: the block with a separator. *)
Definition tableWithSeparator (tableLines : list jsstring)
    (foundSeparator : bool) : option jsstring :=
  if foundSeparator && (3 <=? length tableLines) then
    convertMarkdownTable (join [Ch.nl] tableLines)
  else None.

(** Lines 213-230: the block without a separator. *)
Definition tableWithoutSeparator (tableLines : list jsstring)
    (foundSeparator : bool) : option jsstring :=
  if negb foundSeparator && (2 <=? length tableLines) then
    let pipeCounts := map pipeCount tableLines in
    let firstPipeCount := nth 0 pipeCounts 0 in
    if allSimilar pipeCounts firstPipeCount && (2 <=? firstPipeCount) then
      convertMarkdownTable (join [Ch.nl] tableLines)
    else None
  else None.

(** The table found at line [i], with the line at which the walk resumes;
    [None] when line [i] is to be treated as regular text. *)
Definition tableAt (lines : list jsstring) (i : nat)
  : option (jsstring * nat) :=
  let currentLine := nth i lines [] in
  if includes Ch.pipe currentLine then
    let '(tableLines, j, foundSeparator) := scan lines i in
    match tableWithSeparator tableLines foundSeparator with
    | Some tableHTML => Some (tableHTML, j)
    | None =>
        match tableWithoutSeparator tableLines foundSeparator with
        | Some tableHTML => Some (tableHTML, j)
        | None => None
        end
    end
  else None.

(** Step 1, the [while (i < lines.length)] loop.  Every turn moves [i]
    forward, so the number of lines is enough fuel ([processLoop_fuel]). *)
Fixpoint processLoop (fuel : nat) (lines : list jsstring) (i : nat)
    (processedParts : list part) : list part :=
  match fuel with
  | 0 => processedParts
  | S fuel' =>
      if i <? length lines then
        match tableAt lines i with
        | Some (tableHTML, j) =>
            processLoop fuel' lines j (processedParts ++ [PTable tableHTML])
        | None =>
            processLoop fuel' lines (i + 1)
              (processedParts ++ [PLine (nth i lines [])])
        end
      else processedParts
  end.

Definition processParts (lines : list jsstring) : list part :=
  processLoop (length lines) lines 0 [].

(** [trimmed.replace(/^#+\s*/g, '')] on a string that starts with [#]. *)
Fixpoint dropHashes (s : jsstring) : jsstring :=
  match s with
  | c :: s' => if (c =? Ch.hash)%N then dropHashes s' else s
  | [] => []
  end.

Definition stripHeaderMarks (s : jsstring) : jsstring :=
  if startsWith [Ch.hash] s then trimStart (dropHashes s) else s.

(** The same for a leading U+25E6 marker (line 292, no [g] flag). *)
Definition stripRing (s : jsstring) : jsstring :=
  match s with
  | c :: s' => if (c =? Ch.ring)%N then trimStart s' else s
  | [] => []
  end.

Definition headerOpen : jsstring :=
  js "<div class=" ++ q ++ js "regular-line" ++ q ++ js " style=" ++ q
  ++ js "font-weight: 600; font-size: 1.1em; margin-top: 0px; margin-bottom: 0px;"
  ++ q ++ js ">".

Definition divOpen (cls : string) : jsstring :=
  js "<div class=" ++ q ++ js cls ++ q ++ js ">".

Definition divClose : jsstring := js "</div>".

Definition br : jsstring := js "<br>".

(** The fragments pushed for a regular line (lines 257-307). *)
Definition formatLine (line : jsstring) : list jsstring :=
  let trimmed := trim line in
  if startsWith [Ch.hash] trimmed then
    let content := trim (stripHeaderMarks trimmed) in
    if truthy content then
      let escapedContent := escapeHtml content in
      let boldContent := bold escapedContent in
      [headerOpen ++ boldContent ++ divClose]
    else []
  else if startsWith [Ch.bullet] trimmed then
    let content := trim (substringFrom trimmed 1) in
    let escapedContent := escapeHtml content in
    let boldContent := bold escapedContent in
    [divOpen "bullet-point" ++ boldContent ++ divClose]
  else if startsWith [Ch.star] trimmed
          && negb (startsWith [Ch.star; Ch.star] trimmed) then
    let content := trim (substringFrom trimmed 1) in
    let escapedContent := escapeHtml content in
    let boldContent := bold escapedContent in
    [divOpen "bullet-point" ++ boldContent ++ divClose]
  else if startsWith [Ch.ring] trimmed
          || (startsWith (js "   ") line
              && negb (startsWith [Ch.star] trimmed)
              && negb (startsWith [Ch.bullet] trimmed)) then
    let content := trim (stripRing trimmed) in
    let escapedContent := escapeHtml content in
    [divOpen "indented-item" ++ escapedContent ++ divClose]
  else if truthy trimmed then
    let escapedContent := escapeHtml trimmed in
    let boldContent := bold escapedContent in
    [divOpen "regular-line" ++ boldContent ++ divClose]
  else [br].

(** The fragments pushed for the part at [idx] (lines 243-309). *)
Definition formatPart (processedParts : list part) (idx : nat)
  : list jsstring :=
  match nth_error processedParts idx with
  | None => []
  | Some (PTable content) =>
      (if (0 <? idx)
          && negb (match nth_error processedParts (idx - 1) with
                   | Some p => isTable p
                   | None => false
                   end)
       then [br] else [])
      ++ [content]
      ++ (if (idx <? length processedParts - 1)
             && negb (match nth_error processedParts (idx + 1) with
                      | Some p => isTable p
                      | None => false
                      end)
          then [br] else [])
  | Some (PLine line) => formatLine line
  end.

Definition formatParts (processedParts : list part) : list jsstring :=
  concat (map (formatPart processedParts) (seq 0 (length processedParts))).

Definition formatMessage (text : jsstring) : jsstring :=
  if negb (truthy text) then []
  else
    let lines := split Ch.nl text in
    let processedParts := processParts lines in
    join [] (formatParts processedParts).

(** ** VisualizationRenderer (App.js, lines 316-519)

    The mount point is [containerRef.current]: [None] while the ref is not
    attached, otherwise the list of its child nodes.  The browser is an
    interface: the document parser, the element queries and what becomes of
    an inline script are supplied from outside. *)

Record element := {
  el_id : jsstring;
  el_cssText : jsstring;
  el_height : jsstring;
  el_width : jsstring
}.

Record script := {
  src : jsstring;
  textContent : jsstring
}.

(** What the code asks of a parsed tree: [querySelector('[id]')] and
    [querySelectorAll('script')]. *)
Record subtree := {
  firstWithId : option element;
  scriptsIn : list script
}.

Record document := {
  docScripts : list script;
  docBody : option subtree
}.

(** The body of the [forEach] callback on one inline script, lines 430-486:
    the id is rewritten with a regular expression built from it, then either
    the chart is drawn directly, or a script element is appended (both
    fall-backs), or the outer [catch] writes an error.  The constructor of
    the regular expression runs before the [try] and may throw. *)
Inductive scriptResult :=
  | RegExpThrows
  | Plotted
  | Fallback (scriptContent : jsstring)
  | Caught (message : jsstring).

Class DomApi := {
  parseFromString : jsstring -> document;
  fragment : jsstring -> subtree;
  runScript : jsstring -> jsstring -> jsstring -> scriptResult
}.

Inductive style :=
  | CssText (cssText : jsstring)
  | Sized (height width : jsstring).

Inductive node :=
  | Markup (innerHTML : jsstring)
  | ChartDiv (id : jsstring) (st : style)
  | ScriptNode (content : jsstring).

Definition isChartDiv (n : node) : bool :=
  match n with ChartDiv _ _ => true | _ => false end.

(** [el.innerHTML = s] *)
Definition setInnerHTML (s : jsstring) : list node :=
  if truthy s then [Markup s] else [].

Inductive outcome :=
  | Returned
  | Threw.

(** [Number.prototype.toString] on a message index: an array index is an
    integer below 2^32, printed in decimal without exponent. *)
Definition numberToString (n : N) : jsstring :=
  js (NilZero.string_of_uint (N.to_uint n)).

(** Line 406: the id of the chart container of message [messageIndex]. *)
Definition uniqueId (originalId : jsstring) (messageIndex : N) : jsstring :=
  originalId ++ js "-" ++ numberToString messageIndex.

Definition errorP (msg : jsstring) : jsstring :=
  js "<p style=" ++ q ++ js "color: red;" ++ q ++ js ">" ++ msg ++ js "</p>".

Definition errPlotly : jsstring :=
  errorP (js "Error: Plotly library failed to load").
Definition errNoChart : jsstring :=
  errorP (js "Error: No chart container found in HTML").
Definition errNoScript : jsstring :=
  errorP (js "Error: No script tag found in visualization HTML").
Definition errInvalid : jsstring :=
  errorP (js "Error: Invalid HTML structure").
Definition errRender (message : jsstring) : jsstring :=
  errorP (js "Error rendering chart: " ++ message).

(** [waitForPlotly], lines 332-351, in ticks of the 100 ms poll:
    [plotlyAt k] tells whether [window.Plotly] is set at tick [k], tick 0
    being the call.  The promise resolves at once, or at the first poll that
    sees the runtime, or at the 5000 ms time-out, which is tick 50.  The
    result is the tick at which it resolves. *)
Definition waitForPlotly (plotlyAt : nat -> bool) : nat :=
  if plotlyAt 0 then 0
  else
    match forFind 49 1 plotlyAt with
    | Some k => k
    | None => 50
    end.

(** [/<body[^>]*>([\s\S]*?)<\/body>/i] and its group 1: what lies between
    the first [>] after the tag name and the closing tag. *)
Definition reBody : regex :=
  lit_ci "<body" ++ [Star true (notChar Ch.gt); Chr (ciChar Ch.gt);
                     Star false anyChar] ++ lit_ci "</body>".

Fixpoint afterFirst (a : N) (s : jsstring) : jsstring :=
  match s with
  | c :: s' => if (c =? a)%N then s' else afterFirst a s'
  | [] => []
  end.

Definition bodyGroup (m0 : jsstring) : jsstring :=
  let inner := afterFirst Ch.gt (drop 5 m0) in
  take (length inner - 7) inner.

Section Mounter.
Context {dom : DomApi}.

(** Lines 405-419: the fresh chart container. *)
Definition newChartDiv (chartDiv : element) (messageIndex : N) : node :=
  ChartDiv (uniqueId (el_id chartDiv) messageIndex)
    (if truthy (el_cssText chartDiv) then CssText (el_cssText chartDiv)
     else Sized
            (if truthy (el_height chartDiv) then el_height chartDiv
             else js "440px")
            (if truthy (el_width chartDiv) then el_width chartDiv
             else js "100%")).

(** [allScripts.forEach], lines 427-488, on the children of the mount
    point: the children afterwards, [scriptFound], and whether the walk
    ended normally. *)
Fixpoint forEachScript (originalId uid : jsstring) (scripts : list script)
    (children : list node) (scriptFound : bool)
  : list node * bool * outcome :=
  match scripts with
  | [] => (children, scriptFound, Returned)
  | sc :: scripts' =>
      if negb (truthy (src sc)) && truthy (textContent sc) then
        match runScript originalId uid (textContent sc) with
        | RegExpThrows => (children, true, Threw)
        | Plotted => forEachScript originalId uid scripts' children true
        | Fallback scriptContent =>
            forEachScript originalId uid scripts'
              (children ++ [ScriptNode scriptContent]) true
        | Caught message =>
            forEachScript originalId uid scripts'
              (setInnerHTML (errRender message)) true
        end
      else forEachScript originalId uid scripts' children scriptFound
  end.

(** Lines 370-389: the body and the scripts of the markup. *)
Definition bodyAndScripts (html : jsstring)
  : option subtree * list script :=
  let doc := parseFromString html in
  match docBody doc with
  | Some body => (Some body, docScripts doc)
  | None =>
      match regexMatch reBody html with
      | Some (_, m0) =>
          let tempDiv := fragment (bodyGroup m0) in
          (Some tempDiv, scriptsIn tempDiv)
      | None => (None, docScripts doc)
      end
  end.

(** What [renderVisualization] does once the wait is over, lines 357-499.
    [plotly] is [window.Plotly] at that moment and [container] the mount
    point. *)
Definition renderAfterWait (plotly : bool) (html : jsstring)
    (messageIndex : N) (container : option (list node))
  : option (list node) * outcome :=
  if negb plotly then
    match container with
    | Some _ => (Some (setInnerHTML errPlotly), Returned)
    | None => (None, Returned)
    end
  else
    match container with
    | None => (None, Returned)
    | Some _ =>
        match bodyAndScripts html with
        | (Some bodyContent, scripts) =>
            let cleared := setInnerHTML [] in
            match firstWithId bodyContent with
            | None => (Some (setInnerHTML errNoChart), Returned)
            | Some chartDiv =>
                let originalId := el_id chartDiv in
                let uid := uniqueId originalId messageIndex in
                let children := cleared ++ [newChartDiv chartDiv messageIndex] in
                match forEachScript originalId uid scripts children false with
                | (children', _, Threw) => (Some children', Threw)
                | (children', scriptFound, Returned) =>
                    if negb scriptFound then
                      (Some (setInnerHTML errNoScript), Returned)
                    else (Some children', Returned)
                end
            end
        | (None, _) => (Some (setInnerHTML errInvalid), Returned)
        end
    end.

(** [renderVisualization], lines 353-500: the wait, then the render.
    [attached] tells whether the ref is still set when the wait is over. *)
Definition renderVisualization (plotlyAt : nat -> bool) (attached : bool)
    (html : jsstring) (messageIndex : N) (container : option (list node))
  : option (list node) * outcome :=
  let tick := waitForPlotly plotlyAt in
  renderAfterWait (plotlyAt tick) html messageIndex
    (if attached then container else None).

(** The effect callback, lines 319-503.  [container] is the mount point
    when the 100 ms timer fires. *)
Definition mount (plotlyAt : nat -> bool) (attached : bool)
    (html : jsstring) (messageIndex : N) (container : option (list node))
  : option (list node) * outcome :=
  if negb (truthy html) then (container, Returned)
  else
    match container with
    | None => (None, Returned)
    | Some _ =>
        renderVisualization plotlyAt attached html messageIndex container
    end.

(** An inline script (line 428): no [src], some text. *)
Definition inline (sc : script) : bool :=
  negb (truthy (src sc)) && truthy (textContent sc).

(** The script is drawn or appended: neither the constructor of the
    regular expression nor the outer [catch] is involved. *)
Definition runsWell (originalId uid : jsstring) (sc : script) : bool :=
  match runScript originalId uid (textContent sc) with
  | Plotted | Fallback _ => true
  | RegExpThrows | Caught _ => false
  end.

End Mounter.

Definition chartCount (children : list node) : nat :=
  length (List.filter isChartDiv children).

(** ** Vocabulary of the properties *)

(** *** Patterns *)

(** The strings a pattern describes: what it matches from end to end. *)
Inductive Lang : regex -> jsstring -> Prop :=
  | Lang_nil : Lang [] []
  | Lang_chr p r c s :
      p c = true -> Lang r s -> Lang (Chr p :: r) (c :: s)
  | Lang_skip g p r s :
      Lang r s -> Lang (Star g p :: r) s
  | Lang_more g p r c s :
      p c = true -> Lang (Star g p :: r) s -> Lang (Star g p :: r) (c :: s).

(** Patterns made of single characters only. *)
Definition isChr (it : item) : bool :=
  match it with Chr _ => true | Star _ _ => false end.

(** The three patterns of [parseMessage], in their order. *)
Definition htmlPatterns : list regex := [reDoctype; reHtml; rePlotlyDiv].

(** What [parseMessage] returns on a match at [i] of the span [m]. *)
Definition extracted (text : jsstring) (i : nat) (m : jsstring)
  : ParsedAnswer :=
  {| text := join [Ch.nl]
               (List.filter truthy
                  [trim (take i text); trim (drop (i + length m) text)]);
     html := Some m;
     hasVisualization := true |}.

(** A match that the input holds in full stays the match when the input
    goes on. *)
Definition stable (r : regex) : Prop :=
  forall (s t : jsstring) n,
    matchHere r s = Some n -> matchHere r (s ++ t) = Some n.

(** *** Bold conversion *)

(** The bold conversion only rewrites pairs of stars: [BoldOf s out] says
    that [out] is [s] with some pairs of stars turned into an opening or a
    closing tag. *)
Inductive BoldOf : jsstring -> jsstring -> Prop :=
  | BoldOf_nil : BoldOf [] []
  | BoldOf_keep c s out : BoldOf s out -> BoldOf (c :: s) (c :: out)
  | BoldOf_open s out :
      BoldOf s out -> BoldOf (Ch.star :: Ch.star :: s) (js "<strong>" ++ out)
  | BoldOf_close s out :
      BoldOf s out -> BoldOf (Ch.star :: Ch.star :: s) (js "</strong>" ++ out).

(** *** Clean prose *)

(** The tags the formatter writes itself. *)
Definition markupTags : list jsstring :=
  [ br; headerOpen; divOpen "bullet-point"; divOpen "indented-item";
    divOpen "regular-line"; divClose; js "<strong>"; js "</strong>";
    js "<th>"; js "</th>"; js "<td>"; js "</td>"; js "<tr>"; js "</tr>";
    divOpen "table-wrapper";
    js "<table class=" ++ q ++ js "markdown-table" ++ q ++ js ">";
    js "<thead>"; js "</thead>"; js "<tbody>"; js "</tbody>"; js "</table>";
    js "<td colspan=" ++ q ++ js "100%" ++ q ++ js ">" ].

(** Prose HTML in which no metacharacter stands for itself: a sequence of
    harmless characters, of the five entities, and of tags taken from
    [tags]. *)
Inductive cleanOver (tags : list jsstring) : jsstring -> Prop :=
  | clean_nil : cleanOver tags []
  | clean_char c s :
      isHtmlSpecial c = false -> cleanOver tags s -> cleanOver tags (c :: s)
  | clean_entity c s :
      isHtmlSpecial c = true -> cleanOver tags s ->
      cleanOver tags (entityOf c ++ s)
  | clean_tag t s :
      In t tags -> cleanOver tags s -> cleanOver tags (t ++ s).

(** Clean prose of the formatter: the tags are its own. *)
Abbreviation clean := (cleanOver markupTags).

(** The tags of the bold conversion. *)
Definition boldTags : list jsstring := [js "<strong>"; js "</strong>"].

(** The tags of a header cell. *)
Definition headTags : list jsstring := boldTags ++ [js "<th>"; js "</th>"].

(** The tags of a cell of the body. *)
Definition cellTags : list jsstring := boldTags ++ [js "<td>"; js "</td>"].

(** The tags of a row of the body. *)
Definition rowTags : list jsstring :=
  cellTags
  ++ [js "<tr>"; js "</tr>";
      js "<td colspan=" ++ q ++ js "100%" ++ q ++ js ">"].

(** The five entities. *)
Definition entities : list jsstring :=
  map entityOf [Ch.amp; Ch.lt; Ch.gt; Ch.dquote; Ch.squote].

(** What is left of [s] behind the first of [tokens] that it starts with. *)
Fixpoint stripToken (tokens : list jsstring) (s : jsstring)
  : option jsstring :=
  match tokens with
  | [] => None
  | t :: tokens' =>
      if startsWith t s then Some (drop (length t) s)
      else stripToken tokens' s
  end.

(** A checker for [clean]: harmless characters are passed over, and at a
    metacharacter an entity or a tag of the formatter has to start. *)
Fixpoint cleanb (fuel : nat) (s : jsstring) : bool :=
  match fuel with
  | 0 => false
  | S fuel' =>
      match s with
      | [] => true
      | c :: s' =>
          if negb (isHtmlSpecial c) then cleanb fuel' s'
          else
            match stripToken (entities ++ markupTags) s with
            | Some rest => cleanb fuel' rest
            | None => false
            end
      end
  end.

(** A part whose table fragment, if it is one, is clean. *)
Definition partClean (p : part) : Prop :=
  match p with
  | PTable content => clean content
  | PLine _ => True
  end.

(** *** Occurrences *)

(** [s.includes(m)] for a string [m]. *)
Definition includesStr (m s : jsstring) : bool :=
  negb (indexOf m s =? -1)%Z.

(** The number of positions of [s] at which [pat] starts. *)
Fixpoint countOcc (pat s : jsstring) : nat :=
  (if startsWith pat s then 1 else 0)
  + match s with
    | [] => 0
    | _ :: s' => countOcc pat s'
    end.

(** Two strings differ at a position that both have. *)
Fixpoint clash (p t : jsstring) : bool :=
  match p, t with
  | a :: p', b :: t' => negb (a =? b)%N || clash p' t'
  | _, _ => false
  end.

(** [p] starts at no position of [t], whatever follows [t]. *)
Definition startsNowhere (p t : jsstring) : bool :=
  forallb (fun k => clash p (drop k t)) (seq 0 (length t)).

(** The first character of a pattern is a metacharacter. *)
Definition startsSpecial (pat : jsstring) : bool :=
  match pat with
  | a :: _ => isHtmlSpecial a
  | [] => false
  end.

(** *** Lines, rows and cells *)

(** A separator line as both loops test it. *)
Definition sepLike (line : jsstring) : bool :=
  includes Ch.pipe line && sepRe (trim line).

(** A line that yields a data row: it has a pipe and at least one cell. *)
Definition hasCells (line : jsstring) : bool :=
  includes Ch.pipe line && (0 <? length (parseRow line)).

(** The rows of a string as the table code reads them: split at [sep], the
    blank pieces left out when [dropBlank] is set, each piece trimmed. *)
Definition rowsOf (dropBlank : bool) (sep : N) (s : jsstring)
  : list jsstring :=
  map trim
    (List.filter (fun r => negb dropBlank || truthy (trim r)) (split sep s)).

(** [parseRow] on the trimmed pieces of the row and on the trimmed row. *)
Definition parseRowOf (parts : list jsstring) (trimmed : jsstring)
  : list jsstring :=
  let parts :=
    shiftIf ((0 <? length parts) && negb (truthy (nth 0 parts []))
             && startsWith [Ch.pipe] trimmed) parts in
  let parts :=
    popIf ((0 <? length parts)
           && negb (truthy (nth (length parts - 1) parts []))
           && endsWith [Ch.pipe] trimmed) parts in
  parts.

(** A line of the text, by its number. *)
Definition lineOf (lines : list jsstring) (l : jsstring) : Prop :=
  exists k, l = nth k lines [].

(** A line collected before any separator was seen: it has a pipe and is
    not a separator. *)
Definition plainPipeLine (l : jsstring) : Prop :=
  includes Ch.pipe l = true /\ sepLike l = false.

(** *** Renderings *)

(** [c] is a piece of [text]. *)
Definition isInfix (c text : jsstring) : Prop :=
  exists a b, text = a ++ c ++ b.

(** The three literal stretches of the table template. *)
Definition tplHead : jsstring :=
  [Ch.nl] ++ js "    <div class=" ++ q ++ js "table-wrapper" ++ q ++ js ">"
  ++ [Ch.nl] ++ js "      <table class=" ++ q ++ js "markdown-table" ++ q
  ++ js ">" ++ [Ch.nl] ++ js "        <thead><tr>".

Definition tplMid : jsstring :=
  js "</tr></thead>" ++ [Ch.nl] ++ js "        <tbody>".

Definition tplFoot : jsstring :=
  js "</tbody>" ++ [Ch.nl] ++ js "      </table>" ++ [Ch.nl]
  ++ js "    </div>" ++ [Ch.nl] ++ js "  ".

(** Everything the formatter writes that is not text of the message. *)
Definition formatterMarkup : list jsstring :=
  [ br; headerOpen; divOpen "bullet-point"; divOpen "indented-item";
    divOpen "regular-line"; divClose;
    js "<th>"; js "</th>"; js "<td>"; js "</td>"; js "<tr>"; js "</tr>";
    tplHead; tplMid; tplFoot; noDataRow ].

(** [renders text out]: [out] is made of markup of the formatter and of
    pieces of [text], each piece escaped, or escaped and then converted for
    bold. *)
Inductive renders (text : jsstring) : jsstring -> Prop :=
  | renders_nil : renders text []
  | renders_markup t s :
      In t formatterMarkup -> renders text s -> renders text (t ++ s)
  | renders_escaped c s :
      isInfix c text -> renders text s -> renders text (escapeHtml c ++ s)
  | renders_bold c s :
      isInfix c text -> renders text s ->
      renders text (bold (escapeHtml c) ++ s).

(** A part made of markup and of pieces of the text. *)
Definition partRenders (text : jsstring) (p : part) : Prop :=
  match p with
  | PTable content => renders text content
  | PLine line => isInfix line text
  end.

(** *** A browser for the examples *)

(** A browser for the examples: every markup parses to a body whose first
    element with an id is [chart], with the given scripts, and every inline
    script is drawn directly. *)
Definition chartElement : element :=
  {| el_id := js "chart"; el_cssText := []; el_height := []; el_width := [] |}.

Definition sampleDom (scripts : list script) : DomApi :=
  {| parseFromString := fun _ =>
       {| docScripts := scripts;
          docBody := Some {| firstWithId := Some chartElement;
                             scriptsIn := scripts |} |};
     fragment := fun _ => {| firstWithId := None; scriptsIn := [] |};
     runScript := fun _ _ _ => Plotted |}.

Definition plotScript : script :=
  {| src := []; textContent := js "Plotly.newPlot('chart', [], {});" |}.

(** *** Tactics *)

(** Case analysis on the comparisons of a character with constants. *)
Ltac case_char c :=
  repeat match goal with
         | |- context [(c =? ?k)%N] => destruct (N.eqb_spec c k) as [->|?]
         end.

(** Membership in the list of tags. *)
Ltac tag_in := unfold markupTags; simpl; auto 30.

(** Membership in the list of markup. *)
Ltac markup_in := unfold formatterMarkup; simpl; auto 30.

(** ** The chats of the App component (App.js, lines 526-1000)

    The component keeps its state in hooks; a handler is a function from
    the state it was rendered with to the state after its updates.  What a
    handler reads from the browser ([Date.now()], [new Date()],
    [window.innerWidth]) is passed to it. *)

(** [a === b] on strings. *)
Fixpoint strEq (a b : jsstring) : bool :=
  match a, b with
  | [], [] => true
  | x :: a', y :: b' => (x =? y)%N && strEq a' b'
  | _, _ => false
  end.

Definition DEFAULT_CHAT_SOURCE : jsstring := js "crm".

Record chatSourceOption := {
  cs_value : jsstring;
  cs_label : jsstring
}.

Definition CHAT_SOURCES : list chatSourceOption :=
  [ {| cs_value := js "crm"; cs_label := js "Zoho CRM" |};
    {| cs_value := js "mail"; cs_label := js "Zoho Mail" |} ].

Definition newChatTitle : jsstring := js "New Chat".

(** *** The title of a chat (updateChatTitle, lines 849-886) *)

(** [s.replace(/\*\*/g, '')]: the pairs of stars are taken out from left to
    right. *)
Fixpoint removePairs (c : N) (s : jsstring) : jsstring :=
  match s with
  | a :: s' =>
      match s' with
      | b :: s'' =>
          if (a =? c)%N && (b =? c)%N then removePairs c s''
          else a :: removePairs c s'
      | [] => [a]
      end
  | [] => []
  end.

(** [s.replace(/c/g, '')] for a single character. *)
Definition removeChar (c : N) (s : jsstring) : jsstring :=
  List.filter (fun a => negb (a =? c)%N) s.

(** Line 862 (and 869): the four replacements in their order. *)
Definition stripMarks (content : jsstring) : jsstring :=
  removeChar Ch.ring
    (removeChar Ch.bullet (removeChar Ch.star (removePairs Ch.star content))).

(** [s.replace(/\n/g, ' ')] *)
Definition replaceNewlines (s : jsstring) : jsstring :=
  map (fun c => if (c =? Ch.nl)%N then Ch.space else c) s.

(** [s.replace(/\s+/g, ' ')]: every run of white space becomes one space;
    [inRun] tells that the character before belongs to a run. *)
Fixpoint collapseSpaces (inRun : bool) (s : jsstring) : jsstring :=
  match s with
  | c :: s' =>
      if isWhiteSpace c then
        if inRun then collapseSpaces true s'
        else Ch.space :: collapseSpaces true s'
      else c :: collapseSpaces false s'
  | [] => []
  end.

(** Lines 860-865 (and 868-871): the title taken from the content of a
    message. *)
Definition titleFrom (messageContent : jsstring) : jsstring :=
  let content := trim messageContent in
  let content := stripMarks content in
  let title := substring content 0 40 in
  if 40 <? length content then title ++ js "..." else title.

Section Chats.

(** What the server sends as one context of an answer is not looked at. *)
Variable context : Type.

(** Nor is what the server sends as the data of a user: the code modelled
    here only asks whether there is a user. *)
Variable account : Type.

(** [String.prototype.toLowerCase], used on the name of a data source. *)
Variable toLowerCase : jsstring -> jsstring.

(** A message of a chat.  A field that the code leaves out of an object
    literal is [None] or [false] here. *)
Record message := {
  m_role : jsstring;
  m_content : jsstring;
  m_htmlContent : option jsstring;
  m_hasVisualization : bool;
  m_contexts : option (list context);
  m_isError : bool
}.

Record chat := {
  c_id : N;
  c_title : jsstring;
  c_messages : list message;
  c_createdAt : N;
  c_chatSource : jsstring
}.

Record notification := {
  n_message : jsstring;
  n_type : jsstring
}.

(** The state the handlers read and write: the hooks of lines 527-623,
    and the storage of the browser, by key. *)
Record state := {
  user : option account;
  token : option jsstring;
  isAuthenticated : bool;
  chats : list chat;
  activeChatId : option N;
  input : jsstring;
  loading : bool;
  modelMenuOpen : bool;
  profileMenuOpen : bool;
  notice : option notification;
  sidebarOpen : bool;
  localStorage : jsstring -> option jsstring
}.

(** Lines 851-879: the title computed from the messages of a chat. *)
Definition chatTitle (messages : list message) : jsstring :=
  let title := newChatTitle in
  if 0 <? length messages then
    let firstUserMessage :=
      List.find (fun m => strEq (m_role m) (js "user")) messages in
    let firstAssistantMessage :=
      List.find (fun m => strEq (m_role m) (js "assistant")) messages in
    let title :=
      match firstUserMessage with
      | Some m =>
          if truthy (m_content m) then titleFrom (m_content m)
          else
            match firstAssistantMessage with
            | Some m' =>
                if truthy (m_content m') then titleFrom (m_content m')
                else title
            | None => title
            end
      | None =>
          match firstAssistantMessage with
          | Some m' =>
              if truthy (m_content m') then titleFrom (m_content m')
              else title
          | None => title
          end
      end in
    let title := trim (collapseSpaces false (replaceNewlines title)) in
    if negb (truthy title) || (length title =? 0) then newChatTitle
    else title
  else title.

Definition withTitle (c : chat) (title : jsstring) : chat :=
  {| c_id := c_id c; c_title := title; c_messages := c_messages c;
     c_createdAt := c_createdAt c; c_chatSource := c_chatSource c |}.

Definition withMessages (c : chat) (messages : list message) : chat :=
  {| c_id := c_id c; c_title := c_title c; c_messages := messages;
     c_createdAt := c_createdAt c; c_chatSource := c_chatSource c |}.

(** Lines 881-885: the update of the list of chats. *)
Definition updateChatTitle (chatId : N) (messages : list message)
    (prev : list chat) : list chat :=
  let title := chatTitle messages in
  map (fun chat =>
         if (c_id chat =? chatId)%N
            && (strEq (c_title chat) newChatTitle
                || (length (c_title chat) <? 5))
         then withTitle chat title
         else chat)
    prev.

(** *** The handlers of the list of chats *)

(** A chat id is a number or [null]; it is truthy when it is a number
    other than 0. *)
Definition truthyId (i : option N) : bool :=
  match i with
  | Some n => negb (n =? 0)%N
  | None => false
  end.

(** [activeChatId === chatId] *)
Definition idIs (i : option N) (chatId : N) : bool :=
  match i with
  | Some n => (n =? chatId)%N
  | None => false
  end.

(** [chat.id === activeChatId] *)
Definition isId (i : option N) (c : chat) : bool := idIs i (c_id c).

(** Line 719: [chats.find(chat => chat.id === activeChatId) || chats[0]]. *)
Definition activeChat (st : state) : option chat :=
  match List.find (isId (activeChatId st)) (chats st) with
  | Some c => Some c
  | None => head (chats st)
  end.

(** [x || DEFAULT_CHAT_SOURCE] *)
Definition orDefaultSource (x : jsstring) : jsstring :=
  if truthy x then x else DEFAULT_CHAT_SOURCE.

(** [activeChat?.chatSource || DEFAULT_CHAT_SOURCE] *)
Definition currentSource (st : state) : jsstring :=
  match activeChat st with
  | Some c => orDefaultSource (c_chatSource c)
  | None => DEFAULT_CHAT_SOURCE
  end.

Definition freshChat (now date : N) (source : jsstring) : chat :=
  {| c_id := now; c_title := newChatTitle; c_messages := [];
     c_createdAt := date; c_chatSource := source |}.

(** The setters of the hooks. *)

(** [setUser(u)] *)
Definition withUser (st : state) (u : option account) : state :=
  {| user := u;
     token := token st;
     isAuthenticated := isAuthenticated st;
     chats := chats st;
     activeChatId := activeChatId st;
     input := input st;
     loading := loading st;
     modelMenuOpen := modelMenuOpen st;
     profileMenuOpen := profileMenuOpen st;
     notice := notice st;
     sidebarOpen := sidebarOpen st;
     localStorage := localStorage st |}.

(** [setToken(t)] *)
Definition withToken (st : state) (t : option jsstring) : state :=
  {| user := user st;
     token := t;
     isAuthenticated := isAuthenticated st;
     chats := chats st;
     activeChatId := activeChatId st;
     input := input st;
     loading := loading st;
     modelMenuOpen := modelMenuOpen st;
     profileMenuOpen := profileMenuOpen st;
     notice := notice st;
     sidebarOpen := sidebarOpen st;
     localStorage := localStorage st |}.

(** [setIsAuthenticated(b)] *)
Definition withAuthenticated (st : state) (b : bool) : state :=
  {| user := user st;
     token := token st;
     isAuthenticated := b;
     chats := chats st;
     activeChatId := activeChatId st;
     input := input st;
     loading := loading st;
     modelMenuOpen := modelMenuOpen st;
     profileMenuOpen := profileMenuOpen st;
     notice := notice st;
     sidebarOpen := sidebarOpen st;
     localStorage := localStorage st |}.

(** [setChats(cs)] *)
Definition withChats (st : state) (cs : list chat) : state :=
  {| user := user st;
     token := token st;
     isAuthenticated := isAuthenticated st;
     chats := cs;
     activeChatId := activeChatId st;
     input := input st;
     loading := loading st;
     modelMenuOpen := modelMenuOpen st;
     profileMenuOpen := profileMenuOpen st;
     notice := notice st;
     sidebarOpen := sidebarOpen st;
     localStorage := localStorage st |}.

(** [setActiveChatId(i)] *)
Definition withActive (st : state) (i : option N) : state :=
  {| user := user st;
     token := token st;
     isAuthenticated := isAuthenticated st;
     chats := chats st;
     activeChatId := i;
     input := input st;
     loading := loading st;
     modelMenuOpen := modelMenuOpen st;
     profileMenuOpen := profileMenuOpen st;
     notice := notice st;
     sidebarOpen := sidebarOpen st;
     localStorage := localStorage st |}.

(** [setInput(text)] *)
Definition withInput (st : state) (text : jsstring) : state :=
  {| user := user st;
     token := token st;
     isAuthenticated := isAuthenticated st;
     chats := chats st;
     activeChatId := activeChatId st;
     input := text;
     loading := loading st;
     modelMenuOpen := modelMenuOpen st;
     profileMenuOpen := profileMenuOpen st;
     notice := notice st;
     sidebarOpen := sidebarOpen st;
     localStorage := localStorage st |}.

(** [setLoading(b)] *)
Definition withLoading (st : state) (b : bool) : state :=
  {| user := user st;
     token := token st;
     isAuthenticated := isAuthenticated st;
     chats := chats st;
     activeChatId := activeChatId st;
     input := input st;
     loading := b;
     modelMenuOpen := modelMenuOpen st;
     profileMenuOpen := profileMenuOpen st;
     notice := notice st;
     sidebarOpen := sidebarOpen st;
     localStorage := localStorage st |}.

(** [setModelMenuOpen(open)] *)
Definition withMenu (st : state) (open : bool) : state :=
  {| user := user st;
     token := token st;
     isAuthenticated := isAuthenticated st;
     chats := chats st;
     activeChatId := activeChatId st;
     input := input st;
     loading := loading st;
     modelMenuOpen := open;
     profileMenuOpen := profileMenuOpen st;
     notice := notice st;
     sidebarOpen := sidebarOpen st;
     localStorage := localStorage st |}.

(** [setProfileMenuOpen(open)] *)
Definition withProfileMenu (st : state) (open : bool) : state :=
  {| user := user st;
     token := token st;
     isAuthenticated := isAuthenticated st;
     chats := chats st;
     activeChatId := activeChatId st;
     input := input st;
     loading := loading st;
     modelMenuOpen := modelMenuOpen st;
     profileMenuOpen := open;
     notice := notice st;
     sidebarOpen := sidebarOpen st;
     localStorage := localStorage st |}.

(** [setNotification(n)] *)
Definition withNotice (st : state) (n : option notification) : state :=
  {| user := user st;
     token := token st;
     isAuthenticated := isAuthenticated st;
     chats := chats st;
     activeChatId := activeChatId st;
     input := input st;
     loading := loading st;
     modelMenuOpen := modelMenuOpen st;
     profileMenuOpen := profileMenuOpen st;
     notice := n;
     sidebarOpen := sidebarOpen st;
     localStorage := localStorage st |}.

(** [setSidebarOpen(open)] *)
Definition withSidebar (st : state) (open : bool) : state :=
  {| user := user st;
     token := token st;
     isAuthenticated := isAuthenticated st;
     chats := chats st;
     activeChatId := activeChatId st;
     input := input st;
     loading := loading st;
     modelMenuOpen := modelMenuOpen st;
     profileMenuOpen := profileMenuOpen st;
     notice := notice st;
     sidebarOpen := open;
     localStorage := localStorage st |}.

(** [localStorage, after a write] *)
Definition withStorage (st : state) (store : jsstring -> option jsstring) : state :=
  {| user := user st;
     token := token st;
     isAuthenticated := isAuthenticated st;
     chats := chats st;
     activeChatId := activeChatId st;
     input := input st;
     loading := loading st;
     modelMenuOpen := modelMenuOpen st;
     profileMenuOpen := profileMenuOpen st;
     notice := notice st;
     sidebarOpen := sidebarOpen st;
     localStorage := store |}.

(** [if (window.innerWidth <= 768) setSidebarOpen(false)] *)
Definition closeOnMobile (innerWidth : N) (st : state) : state :=
  if (innerWidth <=? 768)%N then withSidebar st false else st.

(** Lines 752-767.  [rendered] is the state the handler was created in,
    from which it reads [activeChat]; [st] is the state its updates apply
    to, which differs when [deleteChat] calls it after its own update. *)
Definition createNewChat (rendered : state) (now date innerWidth : N)
    (st : state) : state :=
  let newChat := freshChat now date (currentSource rendered) in
  let st := withChats st (newChat :: chats st) in
  let st := withActive st (Some (c_id newChat)) in
  let st := withInput st [] in
  closeOnMobile innerWidth st.

(** Lines 769-772. *)
Definition switchChat (chatId : N) (st : state) : state :=
  withInput (withActive st (Some chatId)) [].

(** Lines 1054-1060: a click on an entry of the list of chats. *)
Definition selectChat (chatId innerWidth : N) (st : state) : state :=
  closeOnMobile innerWidth (switchChat chatId st).

(** Lines 774-786; the event [e] is only stopped. *)
Definition deleteChat (chatId : N) (now date innerWidth : N) (st : state)
  : state :=
  let updatedChats :=
    List.filter (fun chat => negb (c_id chat =? chatId)%N) (chats st) in
  let st1 := withChats st updatedChats in
  if idIs (activeChatId st) chatId then
    match updatedChats with
    | first :: _ => withActive st1 (Some (c_id first))
    | [] => createNewChat st now date innerWidth st1
    end
  else st1.

(** Line 803: the label of a data source, or its name when it is not
    listed. *)
Definition sourceLabel (normalizedSource : jsstring) : jsstring :=
  match List.find (fun s => strEq (cs_value s) normalizedSource)
          CHAT_SOURCES with
  | Some s => if truthy (cs_label s) then cs_label s else normalizedSource
  | None => normalizedSource
  end.

(** Lines 788-834.  The timer that hides the notification after three
    seconds is a later event. *)
Definition handleChatSourceChange (newSource : jsstring)
    (now date innerWidth : N) (st : state) : state :=
  if negb (truthyId (activeChatId st)) then withMenu st false
  else
    let normalizedSource :=
      toLowerCase (if truthy newSource then newSource
                   else DEFAULT_CHAT_SOURCE) in
    let currentSource := currentSource st in
    if strEq normalizedSource currentSource then withMenu st false
    else
      let sourceLabel := sourceLabel normalizedSource in
      let st1 :=
        withNotice st
          (Some {| n_message :=
                     js "Switched to " ++ sourceLabel ++ js " data source";
                   n_type := js "success" |}) in
      let newChat := freshChat now date normalizedSource in
      let st1 := withChats st1 (newChat :: chats st1) in
      let st1 := withActive st1 (Some (c_id newChat)) in
      let st1 := withInput st1 [] in
      let st1 := withMenu st1 false in
      closeOnMobile innerWidth st1.

(** Lines 992-1000. *)
Definition clearChat (st : state) : state :=
  if truthyId (activeChatId st) then
    withChats st
      (map (fun chat =>
              if isId (activeChatId st) chat then withMessages chat []
              else chat)
         (chats st))
  else st.

(** Lines 697-701, the effect that selects the first chat when none is
    active and a user is logged in. *)
Definition selectFirstChat (st : state) : state :=
  match chats st with
  | first :: _ =>
      if negb (truthyId (activeChatId st)) && bool_decide (is_Some (user st))
      then withActive st (Some (c_id first))
      else st
  | [] => st
  end.

(** Lines 889-897, the effect that updates the title of the active chat
    when the number of its messages changes. *)
Definition titleEffect (st : state) : state :=
  match activeChatId st with
  | Some activeId =>
      if truthyId (activeChatId st) && bool_decide (is_Some (activeChat st))
      then
        match List.find (isId (activeChatId st)) (chats st) with
        | Some currentChat =>
            if 0 <? length (c_messages currentChat)
            then withChats st
                   (updateChatTitle activeId (c_messages currentChat)
                      (chats st))
            else st
        | None => st
        end
      else st
  | None => st
  end.

(** [localStorage.removeItem(key)] *)
Definition removeItem (key : jsstring) (store : jsstring -> option jsstring)
  : jsstring -> option jsstring :=
  fun k => if strEq k key then None else store k.

Definition USER_KEY : jsstring := js "user".
Definition TOKEN_KEY : jsstring := js "auth_token".

(** Lines 655-671. *)
Definition handleLogout (now date : N) (st : state) : state :=
  let st := withProfileMenu st false in
  let st := withMenu st false in
  let st := withStorage st (removeItem TOKEN_KEY (localStorage st)) in
  let st := withStorage st (removeItem USER_KEY (localStorage st)) in
  let st := withUser st None in
  let st := withToken st None in
  let st := withAuthenticated st false in
  let st := withChats st [freshChat now date DEFAULT_CHAT_SOURCE] in
  withActive st None.

(** *** Sending a message (sendMessage, lines 899-983) *)

(** The update of lines 905-909, 951-955 and 975-979: the message is
    appended to the chat with the id the handler was created with. *)
Definition appendMessage (activeChatId : option N) (m : message)
    (prev : list chat) : list chat :=
  map (fun chat =>
         if isId activeChatId chat
         then withMessages chat (c_messages chat ++ [m])
         else chat)
    prev.

Definition userMessage (input : jsstring) : message :=
  {| m_role := js "user"; m_content := trim input;
     m_htmlContent := None; m_hasVisualization := false;
     m_contexts := None; m_isError := false |}.

(** [data.answer || 'No response received.']; [answer] is [data.answer],
    a string when it is there. *)
Definition answerOrDefault (answer : option jsstring) : jsstring :=
  match answer with
  | Some a => if truthy a then a else js "No response received."
  | None => js "No response received."
  end.

(** Lines 939-947; [contexts] is [data.contexts || null]. *)
Definition assistantMessage (answer : option jsstring)
    (contexts : option (list context)) : message :=
  let parsedContent := parseMessage (answerOrDefault answer) in
  {| m_role := js "assistant";
     m_content := text parsedContent;
     m_htmlContent := html parsedContent;
     m_hasVisualization := hasVisualization parsedContent;
     m_contexts := contexts;
     m_isError := false |}.

(** Lines 969-973; [reason] is [error.message]. *)
Definition errorMessage (reason : jsstring) : message :=
  {| m_role := js "assistant";
     m_content :=
       js "Error: " ++ reason
       ++ js ". Please make sure the backend server is running.";
     m_htmlContent := None; m_hasVisualization := false;
     m_contexts := None; m_isError := true |}.

(** Lines 900-913: what happens before the request is sent. *)
Definition sendMessage (st : state) : state :=
  if negb (truthy (trim (input st))) || loading st
     || negb (truthyId (activeChatId st))
  then st
  else
    let st1 :=
      withChats st
        (appendMessage (activeChatId st) (userMessage (input st))
           (chats st)) in
    let st1 := withInput st1 [] in
    withLoading st1 true.

(** How the request ends, lines 915-967: with an answer (the response is
    ok and its body is read), with a response that is not ok, or with an
    exception of [fetch] or of the reading of the body, of which
    [error.message] is kept. *)
Inductive reply :=
  | Answered (answer : option jsstring) (contexts : option (list context))
  | Rejected (status : N)
  | Failed (reason : jsstring).

(** Line 929: the response that logs the user out. *)
Definition logsOut (r : reply) : bool :=
  match r with
  | Rejected status => (status =? 401)%N
  | Answered _ _ | Failed _ => false
  end.

(** The message the request ends with: the answer (lines 939-947), or
    the error of lines 969-973 about what was thrown in lines 932 and 934
    or before. *)
Definition replyMessage (r : reply) : message :=
  match r with
  | Answered answer contexts => assistantMessage answer contexts
  | Rejected status =>
      if (status =? 401)%N
      then errorMessage (js "Session expired. Please login again.")
      else errorMessage (js "HTTP error! status: " ++ numberToString status)
  | Failed reason => errorMessage reason
  end.

(** Lines 928-982: what happens once the request has ended.  [sentFrom]
    is the chat id at the time of the call, which the handler still holds.
    On the status 401 the user is logged out first.  (The timer of lines
    959-963, which updates the title, is a later event.) *)
Definition receiveReply (sentFrom : option N) (now date : N) (r : reply)
    (st : state) : state :=
  let st1 := if logsOut r then handleLogout now date st else st in
  let st1 :=
    withChats st1 (appendMessage sentFrom (replyMessage r) (chats st1)) in
  withLoading st1 false.

(** *** What is shown of a message (lines 1188-1196) *)

(** [message.content && ...]: the prose that is shown, as the markup
    given to [dangerouslySetInnerHTML]. *)
Definition shownProse (m : message) : option jsstring :=
  if truthy (m_content m) then Some (formatMessage (m_content m)) else None.

(** [message.hasVisualization && message.htmlContent && ...]: the
    visualization is mounted, with the markup it is given. *)
Definition shownVisualization (m : message) : option jsstring :=
  if m_hasVisualization m then
    match m_htmlContent m with
    | Some h => if truthy h then Some h else None
    | None => None
    end
  else None.

(** *** The handlers as the interface calls them

    [step st st']: one handler, the end of one request or one effect takes
    the state from [st] to [st'].  A chat is selected or deleted through
    its entry in the list, so with the id of a chat of the state.  (Logging
    in is not among the steps: it reads the chats from the storage.) *)
Inductive step : state -> state -> Prop :=
  | step_new now date innerWidth st :
      step st (createNewChat st now date innerWidth st)
  | step_select c innerWidth st :
      In c (chats st) -> step st (selectChat (c_id c) innerWidth st)
  | step_delete c now date innerWidth st :
      In c (chats st) -> step st (deleteChat (c_id c) now date innerWidth st)
  | step_source newSource now date innerWidth st :
      step st (handleChatSourceChange newSource now date innerWidth st)
  | step_clear st : step st (clearChat st)
  | step_send st : step st (sendMessage st)
  | step_reply sentFrom now date r st :
      step st (receiveReply sentFrom now date r st)
  | step_logout now date st : step st (handleLogout now date st)
  | step_title chatId messages st :
      step st (withChats st (updateChatTitle chatId messages (chats st)))
  | step_titleEffect st : step st (titleEffect st)
  | step_first st : step st (selectFirstChat st).

(** The active chat is one of the chats. *)
Definition activeListed (st : state) : Prop :=
  exists c, In c (chats st) /\ activeChatId st = Some (c_id c).

(** Nobody is logged in and no chat is active: the state behind
    [handleLogout], in which the login page is shown (line 1003). *)
Definition loggedOut (st : state) : Prop :=
  isAuthenticated st = false /\ user st = None /\ token st = None
  /\ activeChatId st = None.

(** The id and the messages of a chat: what a chat holds apart from its
    title, its date and its source. *)
Definition chatLog (c : chat) : N * list message := (c_id c, c_messages c).

End Chats.

Arguments Build_message {context}.
Arguments m_role {context}.
Arguments m_content {context}.
Arguments m_htmlContent {context}.
Arguments m_hasVisualization {context}.
Arguments m_contexts {context}.
Arguments m_isError {context}.
Arguments Build_chat {context}.
Arguments c_id {context}.
Arguments c_title {context}.
Arguments c_messages {context}.
Arguments c_createdAt {context}.
Arguments c_chatSource {context}.
Arguments chatTitle {context}.
Arguments withTitle {context}.
Arguments withMessages {context}.
Arguments updateChatTitle {context}.
Arguments isId {context}.
Arguments freshChat {context}.
Arguments appendMessage {context}.
Arguments userMessage {context}.
Arguments assistantMessage {context}.
Arguments errorMessage {context}.
Arguments shownProse {context}.
Arguments shownVisualization {context}.
Arguments Answered {context}.
Arguments Rejected {context}.
Arguments Failed {context}.
Arguments logsOut {context}.
Arguments replyMessage {context}.
Arguments chatLog {context}.
Arguments Build_state {context account}.
Arguments user {context account}.
Arguments token {context account}.
Arguments isAuthenticated {context account}.
Arguments chats {context account}.
Arguments activeChatId {context account}.
Arguments input {context account}.
Arguments loading {context account}.
Arguments modelMenuOpen {context account}.
Arguments profileMenuOpen {context account}.
Arguments notice {context account}.
Arguments sidebarOpen {context account}.
Arguments localStorage {context account}.
Arguments activeChat {context account}.
Arguments currentSource {context account}.
Arguments withUser {context account}.
Arguments withToken {context account}.
Arguments withAuthenticated {context account}.
Arguments withChats {context account}.
Arguments withActive {context account}.
Arguments withInput {context account}.
Arguments withLoading {context account}.
Arguments withMenu {context account}.
Arguments withProfileMenu {context account}.
Arguments withNotice {context account}.
Arguments withSidebar {context account}.
Arguments withStorage {context account}.
Arguments closeOnMobile {context account}.
Arguments createNewChat {context account}.
Arguments switchChat {context account}.
Arguments selectChat {context account}.
Arguments deleteChat {context account}.
Arguments handleChatSourceChange {context account}.
Arguments clearChat {context account}.
Arguments selectFirstChat {context account}.
Arguments titleEffect {context account}.
Arguments handleLogout {context account}.
Arguments sendMessage {context account}.
Arguments receiveReply {context account}.
Arguments step {context account}.
Arguments activeListed {context account}.
Arguments loggedOut {context account}.

(** *** A browser in which no regular expression can be built *)

Definition failingDom : DomApi :=
  {| parseFromString := fun _ =>
       {| docScripts := [plotScript];
          docBody := Some {| firstWithId := Some chartElement;
                             scriptsIn := [plotScript] |} |};
     fragment := fun _ => {| firstWithId := None; scriptsIn := [] |};
     runScript := fun _ _ _ => RegExpThrows |}.

(** *** A state for the examples: two chats, the first one active *)

Definition sampleChat : chat unit :=
  {| c_id := 1; c_title := newChatTitle; c_messages := [];
     c_createdAt := 1; c_chatSource := js "crm" |}.

Definition otherChat : chat unit :=
  {| c_id := 2; c_title := js "Leads of last week"; c_messages := [];
     c_createdAt := 2; c_chatSource := js "mail" |}.

Definition sampleState : state unit unit :=
  {| user := Some tt;
     token := Some (js "t0ken");
     isAuthenticated := true;
     chats := [sampleChat; otherChat];
     activeChatId := Some 1%N;
     input := js " how many leads? ";
     loading := false;
     modelMenuOpen := false;
     profileMenuOpen := false;
     notice := None;
     sidebarOpen := true;
     localStorage := fun _ => None |}.

(** *** The lines among the parts of a message *)

(** The contents of the parts that are single lines, in their order. *)
Definition lineParts (parts : list part) : list jsstring :=
  concat (map (fun p => match p with
                        | PLine content => [content]
                        | PTable _ => []
                        end) parts).

(** ** Further vocabulary of the properties *)

(** The pattern describes a substring of the text. *)
Definition occurs (r : regex) (text : jsstring) : Prop :=
  exists a m b, text = a ++ m ++ b /\ Lang r m.

(** [m] stands at position [i] of the text, the pattern describes it, and
    it describes nothing that starts further left. *)
Definition firstSpan (r : regex) (text : jsstring) (i : nat) (m : jsstring)
  : Prop :=
  text = take i text ++ m ++ drop (i + length m) text
  /\ Lang r m
  /\ forall k m' t, k < i -> drop k text = m' ++ t -> ~ Lang r m'.

(** The pattern describes no proper prefix of [m]. *)
Definition shortestSpan (r : regex) (m : jsstring) : Prop :=
  forall n, n < length m -> ~ Lang r (take n m).

(** * Properties *)

(** ** Strings *)

Lemma js_inj (a b : string) : js a = js b -> a = b.
Proof.
  unfold js. revert b.
  induction a as [|x a IH]; intros [|y b]; simpl; try discriminate; auto.
  intros E. inversion E as [[E1 E2]].
  f_equal; [| now apply IH].
  rewrite <- (ascii_N_embedding x), <- (ascii_N_embedding y). now rewrite E1.
Qed.

Lemma mapGet_entity c :
  isHtmlSpecial c = true -> mapGet map_entities c = entityOf c.
Proof.
  unfold isHtmlSpecial, mapGet, entityOf, map_entities, assoc.
  case_char c; intros Hc; try reflexivity. simpl in Hc. discriminate.
Qed.

Lemma entityOf_plain c : isHtmlSpecial c = false -> entityOf c = [c].
Proof.
  unfold isHtmlSpecial, entityOf.
  case_char c; intros Hc; try (simpl in Hc; discriminate). reflexivity.
Qed.

Lemma escapeHtml_spec (s : jsstring) : escapeHtml s = escape_spec s.
Proof.
  unfold escapeHtml, escape_spec.
  destruct s as [|c0 s0]; [reflexivity|]. simpl negb. cbv iota.
  generalize (c0 :: s0). clear. intros s.
  induction s as [|c s IH]; [reflexivity|].
  simpl. rewrite IH. f_equal.
  destruct (isHtmlSpecial c) eqn:Hc.
  - now apply mapGet_entity.
  - now rewrite entityOf_plain.
Qed.

Lemma escapeHtml_cons c (s : jsstring) :
  escapeHtml (c :: s) = entityOf c ++ escapeHtml s.
Proof. now rewrite !escapeHtml_spec. Qed.

Lemma escapeHtml_app (a b : jsstring) :
  escapeHtml (a ++ b) = escapeHtml a ++ escapeHtml b.
Proof.
  rewrite !escapeHtml_spec. unfold escape_spec.
  now rewrite map_app, concat_app.
Qed.

Lemma entityOf_length c : 1 <= length (entityOf c).
Proof.
  unfold entityOf. case_char c; simpl; lia.
Qed.

Lemma entityOf_special_length c :
  isHtmlSpecial c = true -> 4 <= length (entityOf c).
Proof.
  unfold isHtmlSpecial, entityOf.
  case_char c; intros Hc; simpl; first [lia | simpl in Hc; discriminate].
Qed.

Lemma escapeHtml_length (s : jsstring) : length s <= length (escapeHtml s).
Proof.
  induction s as [|c s IH]; [simpl; lia|].
  rewrite escapeHtml_cons, length_app. pose proof (entityOf_length c).
  simpl. lia.
Qed.

Lemma escapeHtml_grows (s : jsstring) :
  existsb isHtmlSpecial s = true -> length s < length (escapeHtml s).
Proof.
  induction s as [|c s IH]; [discriminate|].
  simpl existsb. rewrite escapeHtml_cons, length_app.
  pose proof (escapeHtml_length s).
  destruct (isHtmlSpecial c) eqn:Hc; simpl.
  - intros _. pose proof (entityOf_special_length c Hc). lia.
  - intros Hs. specialize (IH Hs). pose proof (entityOf_length c). lia.
Qed.

Lemma escapeHtml_keeps_amp (s : jsstring) :
  existsb isHtmlSpecial s = true ->
  existsb isHtmlSpecial (escapeHtml s) = true.
Proof.
  induction s as [|c s IH]; [discriminate|].
  simpl existsb. rewrite escapeHtml_cons, existsb_app.
  destruct (isHtmlSpecial c) eqn:Hc; simpl.
  - intros _. revert Hc. unfold isHtmlSpecial, entityOf.
    case_char c; intros Hc; try reflexivity. simpl in Hc. discriminate.
  - intros Hs. rewrite (IH Hs). apply orb_true_r.
Qed.

(** C6 -- the Escaper replaces each of the five metacharacters by its entity
    and keeps every other character (it is [escape_spec], character by
    character), and it is not idempotent: on every string that holds one of
    the five characters, escaping the result once more gives a different,
    longer string. *)
Theorem escapeHtml_contract :
  (forall s : jsstring, escapeHtml s = escape_spec s)
  /\ (forall c (s : jsstring),
        escapeHtml (c :: s)
        = (if isHtmlSpecial c then entityOf c else [c]) ++ escapeHtml s)
  /\ (forall s : jsstring,
        existsb isHtmlSpecial s = true ->
        escapeHtml (escapeHtml s) <> escapeHtml s
        /\ length (escapeHtml s) < length (escapeHtml (escapeHtml s))).
Proof.
  split; [exact escapeHtml_spec|]. split.
  - intros c s. rewrite escapeHtml_cons.
    destruct (isHtmlSpecial c) eqn:Hc; [done|]. now rewrite entityOf_plain.
  - intros s Hs.
    assert (Hlt : length (escapeHtml s) < length (escapeHtml (escapeHtml s)))
      by (apply escapeHtml_grows, escapeHtml_keeps_amp, Hs).
    split; [|exact Hlt].
    intros E. rewrite E in Hlt. lia.
Qed.

Lemma escapeHtml_contract_witness :
  escapeHtml (js "<b>") = js "&lt;b&gt;"
  /\ escapeHtml (escapeHtml (js "<b>")) = js "&amp;lt;b&amp;gt;"
  /\ escapeHtml (escapeHtml (js "<b>")) <> escapeHtml (js "<b>").
Proof.
  split; [reflexivity|]. split; [reflexivity|].
  apply (proj2 (proj2 escapeHtml_contract) (js "<b>")). reflexivity.
Defined.

(** ** Identifiers of the chart containers *)

Lemma to_uint_nonnil (n : N) : N.to_uint n <> Decimal.Nil.
Proof.
  destruct n as [|p]; [discriminate|].
  apply DecimalPos.Unsigned.to_uint_nonnil.
Qed.

Lemma numberToString_inj (i j : N) :
  numberToString i = numberToString j -> i = j.
Proof.
  unfold numberToString. intros E. apply js_inj in E.
  apply DecimalN.Unsigned.to_uint_inj.
  pose proof (NilZero.usu _ (to_uint_nonnil i)) as Hi.
  pose proof (NilZero.usu _ (to_uint_nonnil j)) as Hj.
  rewrite E in Hi. congruence.
Qed.

(** ** The mount of a visualization *)

Lemma forFind_None n lo p :
  forFind n lo p = None <-> forall k, lo <= k < lo + n -> p k = false.
Proof.
  revert lo. induction n as [|n IH]; intros lo; simpl.
  - split; [intros _ k Hk; lia | done].
  - destruct (p lo) eqn:Hp.
    + split; [discriminate|]. intros Hk. rewrite Hk in Hp by lia. discriminate.
    + rewrite IH. split; intros Hk k Hr.
      * destruct (decide (k = lo)) as [->|]; [done|]. apply Hk. lia.
      * apply Hk. lia.
Qed.

Lemma forFind_Some n lo p k :
  forFind n lo p = Some k ->
  lo <= k < lo + n /\ p k = true /\ forall k', lo <= k' < k -> p k' = false.
Proof.
  revert lo. induction n as [|n IH]; intros lo; simpl; [discriminate|].
  destruct (p lo) eqn:Hp.
  - intros [= <-]. repeat split; [lia..|done|]. intros k' Hk'. lia.
  - intros Hf. destruct (IH _ Hf) as (Hr & Hk & Hbefore).
    repeat split; [lia..|done|]. intros k' Hk'.
    destruct (decide (k' = lo)) as [->|]; [done|]. apply Hbefore. lia.
Qed.

Lemma waitForPlotly_bounded plotlyAt : waitForPlotly plotlyAt <= 50.
Proof.
  unfold waitForPlotly. destruct (plotlyAt 0); [lia|].
  destruct (forFind 49 1 plotlyAt) as [k|] eqn:Hf; [|lia].
  apply forFind_Some in Hf. lia.
Qed.

Lemma waitForPlotly_unavailable plotlyAt :
  plotlyAt (waitForPlotly plotlyAt) = false ->
  waitForPlotly plotlyAt = 50 /\ forall k, k <= 50 -> plotlyAt k = false.
Proof.
  unfold waitForPlotly. destruct (plotlyAt 0) eqn:H0; [congruence|].
  destruct (forFind 49 1 plotlyAt) as [k|] eqn:Hf.
  - apply forFind_Some in Hf as (_ & Hk & _). congruence.
  - intros H50. split; [done|]. intros k Hk.
    rewrite forFind_None in Hf.
    destruct (decide (k = 0)) as [->|]; [done|].
    destruct (decide (k = 50)) as [->|]; [done|].
    apply Hf. lia.
Qed.

(** C7 -- when the charting runtime is still missing once the wait is over,
    the wait has lasted until the 5 second time-out (tick 50, the runtime
    missing at the call and at every poll), the mount returns without
    throwing, and the mount point, whatever it held, now holds the one
    inline error paragraph. *)
Theorem mount_runtime_unavailable {dom : DomApi} (plotlyAt : nat -> bool)
    (html : jsstring) (messageIndex : N) (children : list node) :
  truthy html = true ->
  plotlyAt (waitForPlotly plotlyAt) = false ->
  (waitForPlotly plotlyAt = 50 /\ forall k, k <= 50 -> plotlyAt k = false)
  /\ mount plotlyAt true html messageIndex (Some children)
     = (Some [Markup errPlotly], Returned)
  /\ (forall attached,
        snd (mount plotlyAt attached html messageIndex (Some children))
        = Returned)
  /\ errPlotly
     = js "<p style=" ++ q ++ js "color: red;" ++ q
       ++ js ">Error: Plotly library failed to load</p>".
Proof.
  intros Hhtml Hno.
  split; [now apply waitForPlotly_unavailable|].
  assert (Hm : forall attached,
             mount plotlyAt attached html messageIndex (Some children)
             = (if attached then Some [Markup errPlotly] else None, Returned)).
  { intros attached. unfold mount, renderVisualization.
    rewrite Hhtml. simpl negb. cbv iota.
    unfold renderAfterWait. rewrite Hno.
    now destruct attached. }
  split; [apply (Hm true)|]. split; [|reflexivity].
  intros attached. now rewrite Hm.
Qed.

Lemma mount_runtime_unavailable_witness :
  mount (dom := sampleDom [plotScript]) (fun _ => false) true
    (js "<html><div id='chart'></div></html>") 0
    (Some [ChartDiv (js "chart-0") (Sized (js "440px") (js "100%"))])
  = (Some [Markup errPlotly], Returned).
Proof.
  apply (mount_runtime_unavailable (dom := sampleDom [plotScript])
           (fun _ => false)); reflexivity.
Defined.

Lemma chartCount_app (a b : list node) :
  chartCount (a ++ b) = chartCount a + chartCount b.
Proof. unfold chartCount. now rewrite List.filter_app, length_app. Qed.

Lemma chartCount_setInnerHTML s : chartCount (setInnerHTML s) = 0.
Proof. unfold setInnerHTML. now destruct (truthy s). Qed.

Section MountProperties.
Context {dom : DomApi}.

Lemma forEachScript_chartCount originalId uid scripts children found :
  chartCount children <= 1 ->
  chartCount (fst (fst (forEachScript originalId uid scripts children found)))
  <= 1.
Proof.
  revert children found.
  induction scripts as [|sc scripts IH]; intros children found Hc; simpl.
  - exact Hc.
  - destruct (negb (truthy (src sc)) && truthy (textContent sc)); [|auto].
    destruct (runScript originalId uid (textContent sc)) as [| |content|msg];
      simpl; auto; apply IH;
      rewrite ?chartCount_app, ?chartCount_setInnerHTML;
      try change (chartCount [ScriptNode content]) with 0; lia.
Qed.

Lemma forEachScript_runsWell originalId uid scripts children found :
  forallb (fun sc => negb (inline sc) || runsWell originalId uid sc) scripts
  = true ->
  exists added,
    forEachScript originalId uid scripts children found
    = (children ++ added, found || existsb inline scripts, Returned)
    /\ chartCount added = 0.
Proof.
  revert children found.
  induction scripts as [|sc scripts IH]; intros children found; simpl.
  - intros _. exists []. now rewrite app_nil_r, orb_false_r.
  - change (negb (truthy (src sc)) && truthy (textContent sc))
      with (inline sc).
    destruct (inline sc) eqn:Hi; simpl.
    + unfold runsWell at 1.
      destruct (runScript originalId uid (textContent sc)) eqn:Hr;
        simpl; try discriminate; intros Hall.
      * destruct (IH children true Hall) as (added & -> & Hc).
        exists added. now rewrite orb_true_r.
      * destruct (IH (children ++ [ScriptNode scriptContent]) true Hall)
          as (added & -> & Hc).
        exists (ScriptNode scriptContent :: added).
        rewrite <- app_assoc, orb_true_r. split; [done|].
        exact Hc.
    + intros Hall. destruct (IH children found Hall) as (added & -> & Hc).
      now exists added.
Qed.

Lemma renderAfterWait_chartCount plotly html messageIndex container children o :
  renderAfterWait plotly html messageIndex container = (Some children, o) ->
  chartCount children <= 1.
Proof.
  unfold renderAfterWait.
  destruct plotly; simpl negb; cbv iota.
  2:{ destruct container; intros [= <- <-]. rewrite chartCount_setInnerHTML; lia. }
  destruct container as [prev|]; [|discriminate].
  destruct (bodyAndScripts html) as [[bodyContent|] scripts].
  2:{ intros [= <- <-]. rewrite chartCount_setInnerHTML; lia. }
  destruct (firstWithId bodyContent) as [chartDiv|].
  2:{ intros [= <- <-]. rewrite chartCount_setInnerHTML; lia. }
  set (start := setInnerHTML [] ++ [newChartDiv chartDiv messageIndex]).
  pose proof (forEachScript_chartCount (el_id chartDiv)
                (uniqueId (el_id chartDiv) messageIndex) scripts start false)
    as Hc.
  destruct (forEachScript _ _ scripts start false) as [[children' found] o'].
  simpl in Hc. specialize (Hc ltac:(reflexivity)).
  destruct o'.
  - destruct found; simpl; intros [= <- <-]; [done|].
    rewrite chartCount_setInnerHTML; lia.
  - intros [= <- <-]. done.
Qed.

(** C8, as the code has it -- a render never accumulates charts: the
    content of the mount point after a render does not depend on what the
    mount point held before; it holds at most one chart container; and it
    holds exactly one, the fresh container with the render-unique id
    followed by appended scripts only, when the runtime is there, the
    markup has a body with an element carrying an id and at least one
    inline script, and every inline script is drawn or appended; when the
    runtime is missing, or the markup has no body, or no element with an
    id, or no inline script, it holds an error paragraph and nothing
    else. *)
Theorem mount_no_accumulation (plotlyAt : nat -> bool) (attached : bool)
    (html : jsstring) (messageIndex : N) :
  truthy html = true ->
  (forall prev1 prev2,
      mount plotlyAt attached html messageIndex (Some prev1)
      = mount plotlyAt attached html messageIndex (Some prev2))
  /\ (forall prev children o,
        mount plotlyAt attached html messageIndex (Some prev)
        = (Some children, o) ->
        chartCount children <= 1)
  /\ (forall prev bodyContent scripts chartDiv,
        attached = true ->
        plotlyAt (waitForPlotly plotlyAt) = true ->
        bodyAndScripts html = (Some bodyContent, scripts) ->
        firstWithId bodyContent = Some chartDiv ->
        existsb inline scripts = true ->
        forallb (fun sc =>
                   negb (inline sc)
                   || runsWell (el_id chartDiv)
                        (uniqueId (el_id chartDiv) messageIndex) sc)
          scripts = true ->
        exists added,
          mount plotlyAt attached html messageIndex (Some prev)
          = (Some (newChartDiv chartDiv messageIndex :: added), Returned)
          /\ chartCount (newChartDiv chartDiv messageIndex :: added) = 1)
  /\ (forall prev,
        attached = true ->
        plotlyAt (waitForPlotly plotlyAt) = false
        \/ fst (bodyAndScripts html) = None
        \/ (exists bodyContent scripts,
              bodyAndScripts html = (Some bodyContent, scripts)
              /\ (firstWithId bodyContent = None
                  \/ existsb inline scripts = false)) ->
        exists msg,
          mount plotlyAt attached html messageIndex (Some prev)
          = (Some [Markup (errorP msg)], Returned)).
Proof.
  intros Hhtml. unfold mount, renderVisualization.
  rewrite Hhtml. simpl negb. cbv iota zeta.
  split; [|split; [|split]].
  - intros prev1 prev2. now destruct attached.
  - intros prev children o. apply renderAfterWait_chartCount.
  - intros prev bodyContent scripts chartDiv -> Hp Hb Hc Hin Hall.
    unfold renderAfterWait. rewrite Hp, Hb, Hc. simpl negb. cbv iota.
    destruct (forEachScript_runsWell _ _ scripts
                (setInnerHTML [] ++ [newChartDiv chartDiv messageIndex])
                false Hall) as (added & -> & Hadded).
    rewrite Hin. simpl. exists added. split; [done|].
    change (newChartDiv chartDiv messageIndex :: added)
      with ([newChartDiv chartDiv messageIndex] ++ added).
    rewrite chartCount_app, Hadded. reflexivity.
  - intros prev -> Hcase. unfold renderAfterWait.
    destruct (plotlyAt (waitForPlotly plotlyAt)) eqn:Hp; simpl negb; cbv iota.
    2:{ by eexists. }
    destruct Hcase as [Hno|[Hno|(bodyContent & scripts & Hb & Hno)]];
      [discriminate| |].
    + destruct (bodyAndScripts html) as [[b|] scripts]; [discriminate|].
      by eexists.
    + rewrite Hb. destruct Hno as [Hno|Hno].
      * rewrite Hno. by eexists.
      * destruct (firstWithId bodyContent) as [chartDiv|]; [|by eexists].
        assert (Hall : forallb
                         (fun sc =>
                            negb (inline sc)
                            || runsWell (el_id chartDiv)
                                 (uniqueId (el_id chartDiv) messageIndex) sc)
                         scripts = true).
        { apply forallb_forall. intros sc Hsc.
          assert (inline sc = false) as ->; [|done].
          destruct (inline sc) eqn:Hi; [|done].
          assert (existsb inline scripts = true); [|congruence].
          apply existsb_exists. eauto. }
        destruct (forEachScript_runsWell _ _ scripts
                    (setInnerHTML [] ++ [newChartDiv chartDiv messageIndex])
                    false Hall) as (added & -> & _).
        rewrite Hno. simpl. by eexists.
Qed.

End MountProperties.

Lemma mount_no_accumulation_witness :
  mount (dom := sampleDom [plotScript]) (fun _ => true) true
    (js "<html><div id='chart'></div></html>") 0
    (Some [ChartDiv (js "chart-0") (Sized (js "440px") (js "100%"))])
  = mount (dom := sampleDom [plotScript]) (fun _ => true) true
      (js "<html><div id='chart'></div></html>") 0 (Some []).
Proof.
  apply (proj1 (mount_no_accumulation (dom := sampleDom [plotScript])
                  (fun _ => true) true
                  (js "<html><div id='chart'></div></html>") 0%N
                  ltac:(reflexivity))).
Defined.

(** C8, as stated, fails: on markup without an inline script the render ends
    with the error paragraph alone in the mount point, which then holds no
    chart container at all. *)
Lemma mount_exactly_one_fails :
  mount (dom := sampleDom []) (fun _ => true) true
    (js "<html><body><div id='chart'></div></body></html>") 0 (Some [])
  = (Some [Markup errNoScript], Returned)
  /\ chartCount [Markup errNoScript] <> 1.
Proof. split; [reflexivity | discriminate]. Qed.

(** ** The matcher *)

Lemma matchHere_lazy p r (s : jsstring) :
  matchHere (Star false p :: r) s
  = match matchHere r s with
    | Some n => Some n
    | None =>
        match s with
        | c :: s' =>
            if p c then S <$> matchHere (Star false p :: r) s' else None
        | [] => None
        end
    end.
Proof. destruct s; reflexivity. Qed.

Lemma matchHere_greedy p r (s : jsstring) :
  matchHere (Star true p :: r) s
  = match s with
    | c :: s' =>
        if p c then
          match matchHere (Star true p :: r) s' with
          | Some n => Some (S n)
          | None => matchHere r s
          end
        else matchHere r s
    | [] => matchHere r s
    end.
Proof. destruct s; reflexivity. Qed.

Lemma matchHere_chr p r (s : jsstring) :
  matchHere (Chr p :: r) s
  = match s with
    | c :: s' => if p c then S <$> matchHere r s' else None
    | [] => None
    end.
Proof. reflexivity. Qed.

(** What the matcher returns is a prefix of the input that the pattern
    describes. *)
Lemma matchHere_sound r : forall (s : jsstring) n,
  matchHere r s = Some n -> n <= length s /\ Lang r (take n s).
Proof.
  induction r as [|[p|[|] p] r IH]; intros s n.
  - intros [= <-]. split; [lia|]. rewrite take_0. constructor.
  - rewrite matchHere_chr. destruct s as [|c s]; [discriminate|].
    destruct (p c) eqn:Hp; [|discriminate].
    destruct (matchHere r s) as [k|] eqn:Hm; [|discriminate].
    intros [= <-]. destruct (IH _ _ Hm) as [Hle HL].
    split; [simpl; lia|]. simpl. now constructor.
  - revert n. induction s as [|c s IHs]; intros n; rewrite matchHere_greedy.
    + intros Hm. destruct (IH _ _ Hm) as [Hle HL]. split; [done|].
      now apply Lang_skip.
    + destruct (p c) eqn:Hp.
      * destruct (matchHere (Star true p :: r) s) as [k|] eqn:Hg.
        -- intros [= <-]. destruct (IHs _ eq_refl) as [Hle HL].
           split; [simpl; lia|]. simpl. now apply Lang_more.
        -- intros Hm. destruct (IH _ _ Hm) as [Hle HL]. split; [done|].
           now apply Lang_skip.
      * intros Hm. destruct (IH _ _ Hm) as [Hle HL]. split; [done|].
        now apply Lang_skip.
  - revert n. induction s as [|c s IHs]; intros n; rewrite matchHere_lazy.
    + destruct (matchHere r []) as [k|] eqn:Hm; [|discriminate].
      intros [= <-]. destruct (IH _ _ Hm) as [Hle HL]. split; [done|].
      now apply Lang_skip.
    + destruct (matchHere r (c :: s)) as [k|] eqn:Hm.
      * intros [= <-]. destruct (IH _ _ Hm) as [Hle HL]. split; [done|].
        now apply Lang_skip.
      * destruct (p c) eqn:Hp; [|discriminate].
        destruct (matchHere (Star false p :: r) s) as [k|] eqn:Hl;
          [|discriminate].
        intros [= <-]. destruct (IHs _ eq_refl) as [Hle HL].
        split; [simpl; lia|]. simpl. now apply Lang_more.
Qed.

(** Wherever a string of the pattern starts, the matcher finds a match. *)
Lemma matchHere_complete r (m : jsstring) :
  Lang r m -> forall t, is_Some (matchHere r (m ++ t)).
Proof.
  induction 1 as [|p r c s Hp HL IH|g p r s HL IH|g p r c s Hp HL IH];
    intros t.
  - by eexists.
  - simpl app. rewrite matchHere_chr, Hp.
    destruct (IH t) as [k ->]. by eexists.
  - destruct (IH t) as [k Hk]. destruct g.
    + rewrite matchHere_greedy. destruct (s ++ t) as [|c u]; [by eexists|].
      destruct (p c); [|by eexists].
      destruct (matchHere (Star true p :: r) u); by eexists.
    + rewrite matchHere_lazy, Hk. by eexists.
  - simpl app. destruct (IH t) as [k Hk]. destruct g.
    + rewrite matchHere_greedy, Hp, Hk. by eexists.
    + rewrite matchHere_lazy.
      destruct (matchHere r (c :: s ++ t)); [by eexists|].
      rewrite Hp, Hk. by eexists.
Qed.

Lemma startsWith_app (m t : jsstring) : startsWith m (m ++ t) = true.
Proof.
  induction m as [|c m IH]; [done|]. simpl. now rewrite N.eqb_refl.
Qed.

Lemma startsWith_inv (m s : jsstring) :
  startsWith m s = true -> s = m ++ drop (length m) s.
Proof.
  revert s. induction m as [|c m IH]; intros [|d s]; simpl; try done.
  intros [Hc Hs]%andb_prop. apply N.eqb_eq in Hc as ->.
  f_equal. now apply IH.
Qed.

Lemma execFrom_Some r : forall (s : jsstring) i0 i m,
  execFrom r s i0 = Some (i, m) ->
  exists k n,
    i = i0 + k /\ k <= length s
    /\ matchHere r (drop k s) = Some n /\ m = take n (drop k s)
    /\ forall k', k' < k -> matchHere r (drop k' s) = None.
Proof.
  induction s as [|c s IH]; intros i0 i m; simpl.
  - destruct (matchHere r []) as [n|] eqn:Hm; [|discriminate].
    intros [= <- <-]. exists 0, n.
    split_and!; [lia|done|done|done|intros; lia].
  - destruct (matchHere r (c :: s)) as [n|] eqn:Hm.
    + intros [= <- <-]. exists 0, n.
      split_and!; [lia|simpl; lia|done|done|intros; lia].
    + intros He. destruct (IH _ _ _ He) as (k & n & -> & Hk & Hn & -> & Hb).
      exists (S k), n. split_and!; [lia|simpl; lia|done|done|].
      intros [|k'] Hk'; [done|]. apply Hb. lia.
Qed.

Lemma execFrom_None r : forall (s : jsstring) i0 k,
  execFrom r s i0 = None -> matchHere r (drop k s) = None.
Proof.
  induction s as [|c s IH]; intros i0 k; simpl.
  - destruct (matchHere r []) eqn:Hm; [discriminate|]. now rewrite drop_nil.
  - destruct (matchHere r (c :: s)) eqn:Hm; [discriminate|].
    intros He. destruct k as [|k]; [done|]. simpl. eauto.
Qed.

(** A match of [regexMatch]: the matched text is a substring at the
    position returned, the pattern describes it, and the pattern describes
    nothing that starts further left. *)
Lemma regexMatch_Some r (s : jsstring) i m :
  regexMatch r s = Some (i, m) ->
  s = take i s ++ m ++ drop (i + length m) s
  /\ Lang r m
  /\ forall k m' t, k < i -> drop k s = m' ++ t -> ~ Lang r m'.
Proof.
  intros He. apply execFrom_Some in He.
  destruct He as (k & n & -> & Hk & Hn & -> & Hb). simpl.
  destruct (matchHere_sound _ _ _ Hn) as [Hle HL].
  rewrite length_drop in Hle.
  split; [|split; [done|]].
  - rewrite length_take, length_drop, Nat.min_l by lia.
    rewrite <- drop_drop, take_drop. now rewrite take_drop.
  - intros k' m' t Hk' Hd HL'.
    destruct (matchHere_complete _ _ HL' t) as [x Hx].
    rewrite <- Hd, Hb in Hx by done. discriminate.
Qed.

Lemma regexMatch_None r (s : jsstring) :
  regexMatch r s = None ->
  forall a m b, s = a ++ m ++ b -> ~ Lang r m.
Proof.
  intros He a m b -> HL.
  pose proof (execFrom_None _ _ _ (length a) He) as Hn.
  rewrite drop_app_length in Hn.
  destruct (matchHere_complete _ _ HL b) as [x Hx]. congruence.
Qed.

Lemma regexMatch_None_iff r (s : jsstring) :
  regexMatch r s = None <->
  forall a m b, s = a ++ m ++ b -> ~ Lang r m.
Proof.
  split; [apply regexMatch_None|].
  intros Hno. destruct (regexMatch r s) as [[i m]|] eqn:He; [|done].
  destruct (regexMatch_Some _ _ _ _ He) as (Hs & HL & _).
  now destruct (Hno _ _ _ Hs).
Qed.

(** ** indexOf and substring *)

Lemma indexOfFrom_first (m : jsstring) : forall (s : jsstring) i0 k,
  k <= length s ->
  startsWith m (drop k s) = true ->
  (forall k', k' < k -> startsWith m (drop k' s) = false) ->
  indexOfFrom m s i0 = (i0 + Z.of_nat k)%Z.
Proof.
  induction s as [|c s IH]; intros i0 k Hk Hat Hbefore.
  - simpl in Hk. assert (k = 0) as -> by lia. simpl in *.
    rewrite Hat. lia.
  - destruct k as [|k].
    + simpl drop in Hat. simpl. rewrite Hat. lia.
    + pose proof (Hbefore 0 ltac:(lia)) as H0. simpl drop in H0.
      simpl. rewrite H0.
      rewrite (IH (i0 + 1)%Z k); [lia|simpl in Hk; lia|done|].
      intros k' Hk'. apply (Hbefore (S k')). lia.
Qed.

Lemma substring_take (s : jsstring) i :
  i <= length s -> substring s 0 (Z.of_nat i) = take i s.
Proof.
  intros Hi. unfold substring, clampIdx.
  rewrite Z.max_l, Z.min_l by lia.
  rewrite Z.max_l, Z.min_l by lia.
  simpl Z.to_nat. rewrite Nat2Z.id. simpl. now rewrite Nat.sub_0_r.
Qed.

Lemma substringFrom_drop (s : jsstring) k :
  k <= length s -> substringFrom s (Z.of_nat k) = drop k s.
Proof.
  intros Hk. unfold substringFrom, substring, clampIdx.
  rewrite Z.max_l, Z.min_l by lia.
  rewrite Z.max_l, Z.min_r by lia.
  rewrite !Nat2Z.id, Nat.min_l, Nat.max_r by lia.
  apply take_ge. rewrite length_drop. lia.
Qed.

(** The first occurrence of the matched text is the match itself. *)
Lemma indexOf_match r (s : jsstring) i m :
  regexMatch r s = Some (i, m) ->
  indexOf m s = Z.of_nat i /\ i + length m <= length s.
Proof.
  intros He. destruct (regexMatch_Some _ _ _ _ He) as (Hs & HL & Hleft).
  assert (Hlen : i + length m <= length s).
  { apply execFrom_Some in He.
    destruct He as (k & n & -> & Hk & Hn & -> & _).
    apply matchHere_sound in Hn as [Hn _].
    rewrite length_drop in Hn. rewrite length_take, length_drop. simpl. lia. }
  split; [|done].
  unfold indexOf. rewrite (indexOfFrom_first m s 0 i); [lia|lia| |].
  - rewrite Hs at 1. rewrite drop_app_length'.
    + apply startsWith_app.
    + rewrite length_take. lia.
  - intros k Hk.
    destruct (startsWith m (drop k s)) eqn:Hsw; [|done].
    apply startsWith_inv in Hsw.
    now destruct (Hleft k m _ Hk Hsw).
Qed.

(** ** parseMessage *)

Lemma htmlMatch_Some (text : jsstring) i m :
  htmlMatch text = Some (i, m) ->
  exists r, In r htmlPatterns /\ regexMatch r text = Some (i, m).
Proof.
  unfold htmlMatch, htmlPatterns.
  destruct (regexMatch reDoctype text) as [x|] eqn:H1.
  { intros [= ->]. exists reDoctype. simpl. auto. }
  destruct (regexMatch reHtml text) as [x|] eqn:H2.
  { intros [= ->]. exists reHtml. simpl. auto. }
  intros H3. exists rePlotlyDiv. simpl. auto.
Qed.

Lemma htmlMatch_None (text : jsstring) :
  htmlMatch text = None <->
  forall r, In r htmlPatterns -> regexMatch r text = None.
Proof.
  unfold htmlMatch, htmlPatterns. split.
  - destruct (regexMatch reDoctype text) eqn:H1; [discriminate|].
    destruct (regexMatch reHtml text) eqn:H2; [discriminate|].
    intros H3 r [<-|[<-|[<-|[]]]]; done.
  - intros Hall.
    rewrite (Hall reDoctype), (Hall reHtml), (Hall rePlotlyDiv);
      simpl; auto.
Qed.

Lemma parseMessage_match (text : jsstring) i m :
  htmlMatch text = Some (i, m) ->
  text = take i text ++ m ++ drop (i + length m) text
  /\ parseMessage text = extracted text i m.
Proof.
  intros Hm. destruct (htmlMatch_Some _ _ _ Hm) as (r & _ & Hr).
  destruct (regexMatch_Some _ _ _ _ Hr) as (Hs & _ & _).
  destruct (indexOf_match _ _ _ _ Hr) as [Hidx Hlen].
  split; [done|].
  unfold parseMessage. destruct text as [|c text]; [discriminate|].
  simpl negb. cbv iota. rewrite Hm. cbv zeta.
  rewrite Hidx, substring_take by lia.
  rewrite <- Nat2Z.inj_add, substringFrom_drop by lia.
  reflexivity.
Qed.

(** C9 -- when no substring of the text is described by any of the three
    patterns, [parseMessage] returns the text as it is, with no html and
    [hasVisualization] false. *)
Theorem parseMessage_no_html (text : jsstring) :
  (forall r, In r htmlPatterns ->
             forall a m b, text = a ++ m ++ b -> ~ Lang r m) ->
  parseMessage text
  = {| text := text; html := None; hasVisualization := false |}.
Proof.
  intros Hno.
  assert (Hm : htmlMatch text = None).
  { apply htmlMatch_None. intros r Hr.
    apply regexMatch_None_iff. now apply Hno. }
  unfold parseMessage. destruct text as [|c text]; [reflexivity|].
  simpl negb. cbv iota. now rewrite Hm.
Qed.

Lemma parseMessage_no_html_witness :
  parseMessage (js "Revenue grew 4% <b>this</b> quarter.")
  = {| text := js "Revenue grew 4% <b>this</b> quarter.";
       html := None; hasVisualization := false |}.
Proof.
  apply (parseMessage_no_html (js "Revenue grew 4% <b>this</b> quarter.")).
  intros r Hr. apply regexMatch_None.
  destruct Hr as [<-|[<-|[<-|[]]]]; vm_compute; reflexivity.
Defined.

(** Patterns of single characters match a fixed number of characters, and
    what follows them in the input is of no account. *)
Lemma matchHere_chars r : forallb isChr r = true ->
  forall (s : jsstring) n, matchHere r s = Some n -> n = length r.
Proof.
  induction r as [|[p|g p] r IH]; simpl; intros Hr s n; try discriminate.
  - now intros [= <-].
  - destruct s as [|c s]; [discriminate|]. destruct (p c); [|discriminate].
    destruct (matchHere r s) as [k|] eqn:Hm; [|discriminate].
    intros [= <-]. f_equal. eauto.
Qed.

Lemma matchHere_chars_app r : forallb isChr r = true ->
  forall (s t : jsstring), length r <= length s ->
  matchHere r (s ++ t) = matchHere r s.
Proof.
  induction r as [|[p|g p] r IH]; simpl; intros Hr s t Hlen; try discriminate.
  - reflexivity.
  - destruct s as [|c s]; [simpl in Hlen; lia|]. simpl.
    destruct (p c); [|done]. rewrite IH; [done..|]. simpl in Hlen. lia.
Qed.

Lemma Lang_length r (m : jsstring) :
  Lang r m -> length (List.filter isChr r) <= length m.
Proof.
  induction 1 as [|p r c s Hp HL IH|g p r s HL IH|g p r c s Hp HL IH].
  - simpl. lia.
  - simpl. lia.
  - exact IH.
  - simpl length at 2. lia.
Qed.

Lemma filter_isChr r : forallb isChr r = true -> List.filter isChr r = r.
Proof.
  induction r as [|it r IH]; simpl; [done|].
  destruct (isChr it); simpl; [|discriminate]. intros Hr. now rewrite IH.
Qed.


Lemma stable_lazy_chars p r :
  forallb isChr r = true -> stable (Star false p :: r).
Proof.
  intros Hr s. induction s as [|c s IH]; intros t n Hs.
  - rewrite matchHere_lazy in Hs. rewrite matchHere_lazy.
    destruct (matchHere r []) as [k|] eqn:Hm; [|discriminate].
    injection Hs as <-.
    pose proof (matchHere_chars _ Hr _ _ Hm) as ->.
    pose proof (matchHere_sound _ _ _ Hm) as [Hle _].
    now rewrite matchHere_chars_app, Hm by done.
  - rewrite matchHere_lazy in Hs. simpl app. rewrite matchHere_lazy.
    destruct (matchHere r (c :: s)) as [k|] eqn:Hm.
    + injection Hs as <-.
      pose proof (matchHere_chars _ Hr _ _ Hm) as ->.
      pose proof (matchHere_sound _ _ _ Hm) as [Hle _].
      change (c :: s ++ t) with ((c :: s) ++ t).
      now rewrite matchHere_chars_app, Hm by done.
    + destruct (p c) eqn:Hp; [|discriminate].
      destruct (matchHere (Star false p :: r) s) as [k|] eqn:Hl;
        [|discriminate].
      injection Hs as <-.
      pose proof (matchHere_sound _ _ _ Hl) as [Hle HL].
      apply Lang_length in HL. cbn [List.filter isChr] in HL.
      rewrite filter_isChr, length_take in HL by done.
      change (c :: s ++ t) with ((c :: s) ++ t).
      rewrite matchHere_chars_app, Hm by (done || (simpl; lia)).
      now rewrite (IH t k).
Qed.

Lemma stable_chr p r : stable r -> stable (Chr p :: r).
Proof.
  intros Hr s t n.
  destruct s as [|c s]; [discriminate|]. simpl app. rewrite !matchHere_chr.
  destruct (p c); [|discriminate].
  destruct (matchHere r s) as [k|] eqn:Hm; [|discriminate].
  intros [= <-]. now rewrite (Hr _ t _ Hm).
Qed.

Lemma stable_app_chars l r :
  forallb isChr l = true -> stable r -> stable (l ++ r).
Proof.
  induction l as [|[p|g p] l IH]; simpl; try discriminate; [done|].
  intros Hl Hr. apply stable_chr. auto.
Qed.

Lemma reDoctype_stable : stable reDoctype.
Proof.
  unfold reDoctype. apply stable_app_chars; [reflexivity|].
  apply stable_lazy_chars. reflexivity.
Qed.

Lemma execFrom_here r (s : jsstring) i n :
  matchHere r s = Some n -> execFrom r s i = Some (i, take n s).
Proof. intros Hm. destruct s; simpl; now rewrite Hm. Qed.

(** The search passes over characters that cannot start the pattern. *)
Lemma execFrom_skip p r (pre s : jsstring) i :
  forallb (fun c => negb (p c)) pre = true ->
  s <> [] ->
  execFrom (Chr p :: r) (pre ++ s) i
  = execFrom (Chr p :: r) s (i + length pre).
Proof.
  revert i. induction pre as [|c pre IH]; intros i; simpl.
  - intros _ _. f_equal. lia.
  - intros [Hc Hpre]%andb_prop Hs. apply negb_true_iff in Hc.
    rewrite Hc, IH by done. f_equal. lia.
Qed.

Lemma whole_match r (doc : jsstring) :
  regexMatch r doc = Some (0, doc) -> matchHere r doc = Some (length doc).
Proof.
  intros He. apply execFrom_Some in He.
  destruct He as (k & n & Hk0 & Hk & Hn & Hdoc & _).
  assert (k = 0) as -> by lia. simpl in Hn, Hdoc.
  pose proof (matchHere_sound _ _ _ Hn) as [Hle _].
  assert (n = length doc) as ->; [|done].
  apply (f_equal length) in Hdoc. rewrite length_take in Hdoc. lia.
Qed.

Lemma lazy_shortest p r :
  forallb isChr r = true ->
  forall (s : jsstring) n,
    matchHere (Star false p :: r) s = Some n ->
    forall n', n' < n -> ~ Lang (Star false p :: r) (take n' s).
Proof.
  intros Hr s. induction s as [|c s IH]; intros n Hm n' Hn' HL;
    rewrite matchHere_lazy in Hm.
  - destruct (matchHere r []) as [k|] eqn:Hk; [|discriminate].
    injection Hm as <-. apply matchHere_chars in Hk; [|done]. subst k.
    apply Lang_length in HL. cbn [List.filter isChr] in HL.
    rewrite filter_isChr in HL by done. rewrite length_take in HL. lia.
  - destruct (matchHere r (c :: s)) as [k|] eqn:Hk.
    + injection Hm as <-. apply matchHere_chars in Hk; [|done]. subst k.
      apply Lang_length in HL. cbn [List.filter isChr] in HL.
      rewrite filter_isChr in HL by done. rewrite length_take in HL. lia.
    + destruct (p c) eqn:Hp; [|discriminate].
      destruct (matchHere (Star false p :: r) s) as [k|] eqn:Hl;
        [|discriminate].
      injection Hm as <-.
      destruct n' as [|m].
      * rewrite take_0 in HL. apply Lang_length in HL.
        cbn [List.filter isChr] in HL. rewrite filter_isChr in HL by done.
        destruct r; [discriminate|simpl in HL; lia].
      * simpl take in HL. inversion HL as [| |g p' r' s' HL'|g p' r' c' s' Hc HL'];
          subst.
        -- destruct (matchHere_complete _ _ HL' (drop m s)) as [x Hx].
           simpl app in Hx. rewrite take_drop in Hx. congruence.
        -- apply (IH k eq_refl m); [lia|done].
Qed.

Lemma chars_shortest l r :
  forallb isChr l = true ->
  (forall (s : jsstring) n,
      matchHere r s = Some n -> forall n', n' < n -> ~ Lang r (take n' s)) ->
  forall (s : jsstring) n,
    matchHere (l ++ r) s = Some n ->
    forall n', n' < n -> ~ Lang (l ++ r) (take n' s).
Proof.
  induction l as [|[p|g p] l IH]; intros Hl Hr s n Hm n' Hn' HL;
    [by eapply Hr| |discriminate].
  cbn [forallb isChr andb] in Hl.
  change ((Chr p :: l) ++ r) with (Chr p :: (l ++ r)) in *.
  rewrite matchHere_chr in Hm.
  destruct s as [|c s]; [discriminate|].
  destruct (p c); [|discriminate].
  destruct (matchHere (l ++ r) s) as [k|] eqn:Hk; [|discriminate].
  injection Hm as <-.
  destruct n' as [|m]; [rewrite take_0 in HL; inversion HL|].
  simpl take in HL. inversion HL; subst.
  apply (IH Hl Hr s k Hk m); [lia|done].
Qed.

(** A match of [regexMatch] is what the matcher finds at its position. *)
Lemma regexMatch_span r (s : jsstring) i m :
  regexMatch r s = Some (i, m) ->
  matchHere r (drop i s) = Some (length m) /\ m = take (length m) (drop i s).
Proof.
  intros He. apply execFrom_Some in He.
  destruct He as (k & n & -> & Hk & Hn & -> & _). simpl.
  pose proof (matchHere_sound _ _ _ Hn) as [Hle _].
  rewrite length_take, Nat.min_l by done. by split.
Qed.

(** The first two patterns end with a lazy quantifier and a closing tag:
    their match is the shortest one at its position. *)
Lemma document_shortest r (s : jsstring) i m :
  In r [reDoctype; reHtml] ->
  regexMatch r s = Some (i, m) -> shortestSpan r m.
Proof.
  intros Hr He n Hn HL.
  destruct (regexMatch_span _ _ _ _ He) as [Hm Hs].
  rewrite Hs, take_take, Nat.min_l in HL by lia.
  revert HL.
  assert (Hshort : forall (s : jsstring) n,
             matchHere r s = Some n ->
             forall n', n' < n -> ~ Lang r (take n' s)).
  { destruct Hr as [<-|[<-|[]]].
    - apply (chars_shortest (lit_ci "<!DOCTYPE html>")); [reflexivity|].
      apply lazy_shortest. reflexivity.
    - apply (chars_shortest (lit_ci "<html")); [reflexivity|].
      apply lazy_shortest. reflexivity. }
  now apply (Hshort _ _ Hm).
Qed.

Lemma regexMatch_occurs r (text : jsstring) :
  occurs r text -> exists i m, regexMatch r text = Some (i, m).
Proof.
  intros (a & m & b & Ht & HL).
  destruct (regexMatch r text) as [[i m']|] eqn:He; [by eauto|].
  now destruct (regexMatch_None _ _ He _ _ _ Ht).
Qed.

Lemma regexMatch_absent r (text : jsstring) :
  ~ occurs r text -> regexMatch r text = None.
Proof.
  intros Hno. apply regexMatch_None_iff. intros a m b Ht HL.
  apply Hno. by exists a, m, b.
Qed.

(** C1 -- whenever one of the three patterns describes a substring of the
    text, [parseMessage] finds a match; on the match [(i, m)] that the
    patterns give in their order, it returns [hasVisualization] true, [m]
    itself as html, and as text the part before position [i] and the part
    behind the span, each trimmed, the empty ones dropped, joined by one
    newline; [m] is described by one of the patterns, which describes
    nothing that starts left of [i].  On a chart sentence, a newline, a
    document that the first pattern matches from end to end, a newline and
    a closing word, the text is the sentence, a newline and the word, and
    html is the document.

    The patterns are tried in their order, and the span is the first one
    of the pattern that applies.  When the first pattern describes a
    substring, the span is the leftmost and then the shortest string that
    the first pattern describes; when it describes none and the second
    pattern describes one, the span is the leftmost and then the shortest
    string of the second pattern; when neither of them describes a
    substring and the third one does, the span is the leftmost string of
    the third pattern, with the end the backtracking matcher gives it
    there.  So a text with a chart div in front of a bare document gives
    the document as html and leaves the div in the prose. *)
Theorem parseMessage_extracts :
  (forall (text : jsstring) r a m b,
      In r htmlPatterns -> text = a ++ m ++ b -> Lang r m ->
      exists i m', htmlMatch text = Some (i, m'))
  /\ (forall (text : jsstring) i m,
        htmlMatch text = Some (i, m) ->
        text = take i text ++ m ++ drop (i + length m) text
        /\ parseMessage text = extracted text i m
        /\ exists r,
             In r htmlPatterns /\ Lang r m
             /\ forall k m' t,
                  k < i -> drop k text = m' ++ t -> ~ Lang r m')
  /\ (forall doc : jsstring,
        regexMatch reDoctype doc = Some (0, doc) ->
        parseMessage
          (js "Here is a chart:" ++ [Ch.nl] ++ doc ++ [Ch.nl] ++ js "Thanks")
        = {| text := js "Here is a chart:" ++ [Ch.nl] ++ js "Thanks";
             html := Some doc;
             hasVisualization := true |})
  /\ (forall text : jsstring,
        occurs reDoctype text ->
        exists i m,
          parseMessage text = extracted text i m
          /\ firstSpan reDoctype text i m /\ shortestSpan reDoctype m)
  /\ (forall text : jsstring,
        ~ occurs reDoctype text -> occurs reHtml text ->
        exists i m,
          parseMessage text = extracted text i m
          /\ firstSpan reHtml text i m /\ shortestSpan reHtml m)
  /\ (forall text : jsstring,
        ~ occurs reDoctype text -> ~ occurs reHtml text ->
        occurs rePlotlyDiv text ->
        exists i m,
          parseMessage text = extracted text i m
          /\ firstSpan rePlotlyDiv text i m
          /\ matchHere rePlotlyDiv (drop i text) = Some (length m))
  /\ parseMessage
       (js "<div id=" ++ q ++ js "a" ++ q
        ++ js "></div><script>Plotly</script> <html>x</html>")
     = {| text := js "<div id=" ++ q ++ js "a" ++ q
                  ++ js "></div><script>Plotly</script>";
          html := Some (js "<html>x</html>");
          hasVisualization := true |}.
Proof.
  split; [|split; [|split; [|split; [|split; [|split]]]]].
  - intros text r a m b Hr Ht HL.
    destruct (htmlMatch text) as [[i m']|] eqn:Hm; [by eauto|].
    rewrite htmlMatch_None in Hm. specialize (Hm r Hr).
    now destruct (regexMatch_None _ _ Hm _ _ _ Ht).
  - intros text i m Hm.
    destruct (parseMessage_match _ _ _ Hm) as [Hs Hp].
    split; [done|]. split; [done|].
    destruct (htmlMatch_Some _ _ _ Hm) as (r & Hr & He).
    exists r. split; [done|].
    now destruct (regexMatch_Some _ _ _ _ He) as (_ & HL & Hleft).
  - intros doc Hdoc. apply whole_match in Hdoc.
    set (pre := js "Here is a chart:" ++ [Ch.nl]).
    set (post := [Ch.nl] ++ js "Thanks").
    assert (Hm : htmlMatch (pre ++ doc ++ post) = Some (length pre, doc)).
    { unfold htmlMatch, regexMatch.
      change reDoctype
        with (Chr (ciChar 60) :: tail reDoctype) at 1.
      rewrite execFrom_skip; [|reflexivity|by destruct doc].
      change (Chr (ciChar 60) :: tail reDoctype) with reDoctype.
      rewrite (execFrom_here _ _ _ (length doc)).
      - now rewrite take_app_length.
      - now apply reDoctype_stable. }
    transitivity (parseMessage (pre ++ doc ++ post)); [reflexivity|].
    rewrite (proj2 (parseMessage_match _ _ _ Hm)).
    unfold extracted.
    rewrite take_app_length.
    rewrite (app_assoc pre doc post), <- length_app, drop_app_length.
    reflexivity.
  - intros text (i & m & He)%regexMatch_occurs.
    assert (Hm : htmlMatch text = Some (i, m))
      by (unfold htmlMatch; now rewrite He).
    exists i, m. split; [apply (parseMessage_match _ _ _ Hm)|].
    split; [now apply regexMatch_Some|].
    apply (document_shortest _ text i); [simpl; auto|done].
  - intros text H1%regexMatch_absent (i & m & He)%regexMatch_occurs.
    assert (Hm : htmlMatch text = Some (i, m))
      by (unfold htmlMatch; now rewrite H1, He).
    exists i, m. split; [apply (parseMessage_match _ _ _ Hm)|].
    split; [now apply regexMatch_Some|].
    apply (document_shortest _ text i); [simpl; auto|done].
  - intros text H1%regexMatch_absent H2%regexMatch_absent
      (i & m & He)%regexMatch_occurs.
    assert (Hm : htmlMatch text = Some (i, m))
      by (unfold htmlMatch; now rewrite H1, H2, He).
    exists i, m. split; [apply (parseMessage_match _ _ _ Hm)|].
    split; [now apply regexMatch_Some|].
    apply (regexMatch_span _ _ _ _ He).
  - vm_compute. reflexivity.
Qed.

Lemma parseMessage_extracts_witness :
  parseMessage
    (js "Here is a chart:" ++ [Ch.nl] ++ js "<!DOCTYPE html>...</html>"
     ++ [Ch.nl] ++ js "Thanks")
  = {| text := js "Here is a chart:" ++ [Ch.nl] ++ js "Thanks";
       html := Some (js "<!DOCTYPE html>...</html>");
       hasVisualization := true |}
  /\ exists i m,
       parseMessage (js "<div><html>a</html><!doctype html>b</HTML>c</html>")
       = extracted (js "<div><html>a</html><!doctype html>b</HTML>c</html>")
           i m
       /\ firstSpan reDoctype
            (js "<div><html>a</html><!doctype html>b</HTML>c</html>") i m
       /\ shortestSpan reDoctype m.
Proof.
  split.
  - apply (proj1 (proj2 (proj2 parseMessage_extracts))
             (js "<!DOCTYPE html>...</html>")).
    vm_compute. reflexivity.
  - apply (proj1 (proj2 (proj2 (proj2 parseMessage_extracts)))
             (js "<div><html>a</html><!doctype html>b</HTML>c</html>")).
    exists (js "<div><html>a</html>"), (js "<!doctype html>b</HTML>"),
      (js "c</html>").
    split; [reflexivity|].
    apply (proj2 (matchHere_sound reDoctype (js "<!doctype html>b</HTML>") 23
                    ltac:(reflexivity))).
Defined.

(** ** Bold conversion *)

Lemma findClose_spec : forall (s inner rest : jsstring),
  findClose s = Some (inner, rest) ->
  s = inner ++ [Ch.star; Ch.star] ++ rest.
Proof.
  induction s as [|c s IH]; intros inner rest; [discriminate|].
  cbn [findClose].
  destruct (startsWith [Ch.star; Ch.star] (c :: s)) eqn:Hs.
  - intros [= <- <-]. now apply startsWith_inv in Hs.
  - destruct (isLineTerminator c); [discriminate|].
    destruct (findClose s) as [[inner' rest']|] eqn:Hf; [|discriminate].
    intros [= <- <-]. simpl. f_equal. now apply IH.
Qed.

Lemma boldLoop_cons n c (s : jsstring) :
  boldLoop (S n) (c :: s)
  = if startsWith [Ch.star; Ch.star] (c :: s) then
      match findClose (drop 2 (c :: s)) with
      | Some (inner, rest) =>
          js "<strong>" ++ inner ++ js "</strong>" ++ boldLoop n rest
      | None => c :: boldLoop n s
      end
    else c :: boldLoop n s.
Proof. reflexivity. Qed.

Lemma boldLoop_fuel : forall n m (s : jsstring),
  length s <= n -> length s <= m -> boldLoop n s = boldLoop m s.
Proof.
  induction n as [|n IH]; intros m s Hn Hm.
  - destruct s; [|simpl in Hn; lia]. now destruct m.
  - destruct s as [|c s]; [now destruct m|].
    destruct m as [|m]; [simpl in Hm; lia|].
    simpl in Hn, Hm. rewrite !boldLoop_cons.
    destruct (startsWith [Ch.star; Ch.star] (c :: s)) eqn:Hs.
    + destruct (findClose (drop 2 (c :: s))) as [[inner rest]|] eqn:Hf.
      * apply findClose_spec in Hf. apply (f_equal length) in Hf.
        rewrite length_drop, !length_app in Hf. simpl in Hf.
        do 3 f_equal. apply IH; lia.
      * f_equal. apply IH; lia.
    + f_equal. apply IH; lia.
Qed.

Lemma BoldOf_keep_app (e s out : jsstring) :
  BoldOf s out -> BoldOf (e ++ s) (e ++ out).
Proof. induction e; simpl; [done|]. intros. constructor. auto. Qed.

Lemma boldLoop_BoldOf : forall n (s : jsstring),
  length s <= n -> BoldOf s (boldLoop n s).
Proof.
  induction n as [|n IH]; intros s Hn.
  - destruct s; [constructor|simpl in Hn; lia].
  - destruct s as [|c s]; [constructor|].
    simpl in Hn. rewrite boldLoop_cons.
    destruct (startsWith [Ch.star; Ch.star] (c :: s)) eqn:Hs.
    + destruct (findClose (drop 2 (c :: s))) as [[inner rest]|] eqn:Hf.
      * apply startsWith_inv in Hs. apply findClose_spec in Hf.
        rewrite Hs. change (length [Ch.star; Ch.star]) with 2.
        rewrite Hf.
        apply (BoldOf_open (inner ++ [Ch.star; Ch.star] ++ rest)), BoldOf_keep_app, BoldOf_close, IH.
        apply (f_equal length) in Hf.
        rewrite length_drop, !length_app in Hf. simpl in Hf. lia.
      * constructor. apply IH. lia.
    + constructor. apply IH. lia.
Qed.

Lemma bold_BoldOf (s : jsstring) : BoldOf s (bold s).
Proof. now apply boldLoop_BoldOf. Qed.

(** ** Clean prose *)

Lemma clean_app tags (a b : jsstring) :
  cleanOver tags a -> cleanOver tags b -> cleanOver tags (a ++ b).
Proof.
  induction 1; intros Hb; simpl; [done|..].
  - constructor; auto.
  - rewrite <- app_assoc. constructor; auto.
  - rewrite <- app_assoc. constructor; auto.
Qed.

Lemma clean_mono tags1 tags2 (s : jsstring) :
  (forall t, In t tags1 -> In t tags2) ->
  cleanOver tags1 s -> cleanOver tags2 s.
Proof.
  intros Hincl. induction 1; [constructor|constructor|constructor|]; auto.
  apply clean_tag; auto.
Qed.

Lemma clean_plain tags (s : jsstring) :
  forallb (fun c => negb (isHtmlSpecial c)) s = true -> cleanOver tags s.
Proof.
  induction s as [|c s IH]; simpl; [constructor|].
  intros [Hc Hs]%andb_prop. apply negb_true_iff in Hc. constructor; auto.
Qed.

Lemma clean_tag_alone tags (t : jsstring) : In t tags -> cleanOver tags t.
Proof.
  intros Ht. rewrite <- (app_nil_r t). apply clean_tag; [done|constructor].
Qed.

Lemma clean_concat tags (l : list jsstring) :
  Forall (cleanOver tags) l -> cleanOver tags (concat l).
Proof.
  induction 1; simpl; [constructor|]. now apply clean_app.
Qed.

Lemma join_nil (l : list jsstring) : join [] l = concat l.
Proof.
  induction l as [|a [|b l] IH]; simpl in *; [done| |].
  - now rewrite app_nil_r.
  - now rewrite IH.
Qed.

Lemma clean_escapeHtml tags (s : jsstring) : cleanOver tags (escapeHtml s).
Proof.
  induction s as [|c s IH]; [constructor|].
  rewrite escapeHtml_cons. destruct (isHtmlSpecial c) eqn:Hc.
  - now constructor.
  - rewrite entityOf_plain by done. now constructor.
Qed.

Lemma BoldOf_prefix (e : jsstring) : forall (s out : jsstring),
  forallb (fun c => negb (c =? Ch.star)%N) e = true ->
  BoldOf (e ++ s) out ->
  exists out', out = e ++ out' /\ BoldOf s out'.
Proof.
  induction e as [|x e IH]; intros s out; simpl.
  - intros _ Hb. now exists out.
  - intros [Hx He]%andb_prop Hb. apply negb_true_iff, N.eqb_neq in Hx.
    inversion Hb as [|c s0 out0 Hb0| |]; subst; try done.
    destruct (IH _ _ He Hb0) as (out' & -> & Hb').
    now exists out'.
Qed.

Lemma entityOf_no_star c :
  isHtmlSpecial c = true ->
  forallb (fun c => negb (c =? Ch.star)%N) (entityOf c) = true.
Proof.
  unfold isHtmlSpecial, entityOf.
  case_char c; intros Hc; try reflexivity. simpl in Hc. discriminate.
Qed.

Lemma escapeHtml_star_inv (t s : jsstring) :
  escapeHtml t = Ch.star :: s ->
  exists t', t = Ch.star :: t' /\ s = escapeHtml t'.
Proof.
  destruct t as [|c t]; [discriminate|]. rewrite escapeHtml_cons.
  destruct (isHtmlSpecial c) eqn:Hc.
  - revert Hc. unfold isHtmlSpecial, entityOf.
    case_char c; intros Hc; first [discriminate | simpl in Hc; discriminate].
  - rewrite entityOf_plain by done. intros [= -> <-]. now exists t.
Qed.

Lemma tag_strong_open : In (js "<strong>") boldTags.
Proof. unfold boldTags. simpl. auto. Qed.

Lemma tag_strong_close : In (js "</strong>") boldTags.
Proof. unfold boldTags. simpl. auto. Qed.

Lemma boldTags_markup t : In t boldTags -> In t markupTags.
Proof. intros [<-|[<-|[]]]; tag_in. Qed.

(** Bold conversion of escaped text gives clean prose: the tags it adds
    stand where two stars stood, and no entity holds a star. *)
Lemma BoldOf_escaped_clean : forall n (t out : jsstring),
  length t <= n -> BoldOf (escapeHtml t) out -> cleanOver boldTags out.
Proof.
  induction n as [|n IH]; intros t out Hn Hb.
  - destruct t; [|simpl in Hn; lia]. inversion Hb. constructor.
  - destruct t as [|c t]; [inversion Hb; constructor|].
    simpl in Hn. rewrite escapeHtml_cons in Hb.
    destruct (isHtmlSpecial c) eqn:Hc.
    + destruct (BoldOf_prefix _ _ _ (entityOf_no_star c Hc) Hb)
        as (out' & -> & Hb').
      apply clean_entity; [done|]. apply (IH t); [lia|done].
    + rewrite entityOf_plain in Hb by done. simpl in Hb.
      inversion Hb as [|c0 s0 out0 Hb0|s0 out0 Hb0 E0|s0 out0 Hb0 E0]; subst.
      * apply clean_char; [done|]. apply (IH t); [lia|done].
      * symmetry in H. apply escapeHtml_star_inv in H as (t' & -> & ->).
        apply clean_tag; [apply tag_strong_open|].
        apply (IH t'); [simpl in Hn; lia|done].
      * symmetry in H. apply escapeHtml_star_inv in H as (t' & -> & ->).
        apply clean_tag; [apply tag_strong_close|].
        apply (IH t'); [simpl in Hn; lia|done].
Qed.

Lemma cleanOver_bold_escapeHtml (t : jsstring) :
  cleanOver boldTags (bold (escapeHtml t)).
Proof.
  apply (BoldOf_escaped_clean (length t) t); [done|]. apply bold_BoldOf.
Qed.

Lemma clean_bold_escapeHtml (t : jsstring) : clean (bold (escapeHtml t)).
Proof.
  eapply clean_mono; [apply boldTags_markup|apply cleanOver_bold_escapeHtml].
Qed.

Lemma clean_wrapped (open content close : jsstring) :
  In open markupTags -> clean content -> In close markupTags ->
  clean (open ++ content ++ close).
Proof.
  intros Ho Hc Hcl. apply clean_tag; [done|].
  apply clean_app; [done|]. now apply clean_tag_alone.
Qed.

Lemma clean_cellHtml_th cell : clean (cellHtml "th" cell).
Proof.
  change (cellHtml "th" cell)
    with (js "<th>" ++ bold (escapeHtml cell) ++ js "</th>").
  apply clean_wrapped; [tag_in|apply clean_bold_escapeHtml|tag_in].
Qed.

Lemma clean_cellHtml_td cell : clean (cellHtml "td" cell).
Proof.
  change (cellHtml "td" cell)
    with (js "<td>" ++ bold (escapeHtml cell) ++ js "</td>").
  apply clean_wrapped; [tag_in|apply clean_bold_escapeHtml|tag_in].
Qed.

Lemma clean_headerCells row : clean (join [] (headerCellList row)).
Proof.
  rewrite join_nil. apply clean_concat. unfold headerCellList.
  apply Forall_map, Forall_forall. intros cell _. apply clean_cellHtml_th.
Qed.

Lemma clean_rowHtml row : clean (rowHtml row).
Proof.
  unfold rowHtml.
  assert (Hc : clean (join [] (map (cellHtml "td") (parseRow row)))).
  { rewrite join_nil. apply clean_concat.
    apply Forall_map, Forall_forall. intros cell _. apply clean_cellHtml_td. }
  destruct (truthy _); [|constructor].
  apply clean_wrapped; [tag_in|done|tag_in].
Qed.

Lemma clean_bodyRows rows : clean (join [] (bodyRowList rows)).
Proof.
  rewrite join_nil. apply clean_concat. unfold bodyRowList.
  apply Forall_forall. intros r Hr.
  apply list_elem_of_In, filter_In in Hr as [Hr _].
  apply in_map_iff in Hr as (row & <- & _). apply clean_rowHtml.
Qed.

Lemma clean_noDataRow : clean noDataRow.
Proof.
  change noDataRow
    with (js "<tr>" ++ (js "<td colspan=" ++ q ++ js "100%" ++ q ++ js ">")
          ++ js "No data" ++ js "</td>" ++ js "</tr>").
  apply clean_tag; [tag_in|]. apply clean_tag; [tag_in|].
  apply clean_app; [now apply clean_plain|].
  apply clean_tag; [tag_in|]. apply clean_tag_alone. tag_in.
Qed.

Lemma stripToken_Some tokens : forall (s rest : jsstring),
  stripToken tokens s = Some rest ->
  exists t, In t tokens /\ s = t ++ rest.
Proof.
  induction tokens as [|t tokens IH]; intros s rest; simpl; [discriminate|].
  destruct (startsWith t s) eqn:Hs.
  - intros [= <-]. exists t. split; [auto|]. now apply startsWith_inv.
  - intros Hr. destruct (IH _ _ Hr) as (t' & Ht' & ->). exists t'. auto.
Qed.

Lemma cleanb_sound : forall fuel (s : jsstring),
  cleanb fuel s = true -> clean s.
Proof.
  induction fuel as [|fuel IH]; intros s; [discriminate|].
  destruct s as [|c s]; [constructor|].
  cbn [cleanb]. destruct (isHtmlSpecial c) eqn:Hc; cbn [negb].
  - destruct (stripToken (entities ++ markupTags) (c :: s)) as [rest|] eqn:Hr;
      [|discriminate].
    intros Hrest. apply stripToken_Some in Hr as (t & Ht & ->).
    apply in_app_or in Ht as [Ht|Ht].
    + unfold entities in Ht. apply in_map_iff in Ht as (d & <- & Hd).
      apply clean_entity; [|auto].
      simpl in Hd. destruct Hd as [<-|[<-|[<-|[<-|[<-|[]]]]]]; reflexivity.
    + apply clean_tag; auto.
  - intros Hs. constructor; auto.
Qed.

Lemma clean_tableTemplate headerCells bodyRows :
  clean headerCells -> clean bodyRows ->
  clean (tableTemplate headerCells bodyRows).
Proof.
  intros Hh Hb.
  assert (Hbody : clean (if truthy bodyRows then bodyRows else noDataRow))
    by (destruct (truthy bodyRows); [done|apply clean_noDataRow]).
  unfold tableTemplate.
  revert Hbody. generalize (if truthy bodyRows then bodyRows else noDataRow).
  intros body Hbody.
  set (p1 := [Ch.nl] ++ js "    <div class=" ++ q ++ js "table-wrapper" ++ q
             ++ js ">" ++ [Ch.nl] ++ js "      <table class=" ++ q
             ++ js "markdown-table" ++ q ++ js ">" ++ [Ch.nl]
             ++ js "        <thead><tr>").
  set (p2 := js "</tr></thead>" ++ [Ch.nl] ++ js "        <tbody>").
  set (p3 := js "</tbody>" ++ [Ch.nl] ++ js "      </table>" ++ [Ch.nl]
             ++ js "    </div>" ++ [Ch.nl] ++ js "  ").
  match goal with
  | |- clean ?t =>
      change t with (p1 ++ headerCells ++ p2 ++ body ++ p3)
  end.
  assert (H1 : clean p1) by (apply (cleanb_sound 200); reflexivity).
  assert (H2 : clean p2) by (apply (cleanb_sound 200); reflexivity).
  assert (H3 : clean p3) by (apply (cleanb_sound 200); reflexivity).
  clearbody p1 p2 p3.
  auto using clean_app.
Qed.

Lemma clean_convertRows rows html :
  convertRows rows = Some html -> clean html.
Proof.
  unfold convertRows. destruct (length rows <? 2); [discriminate|].
  destruct (negb _); [discriminate|]. intros [= <-].
  apply clean_tableTemplate; [apply clean_headerCells|apply clean_bodyRows].
Qed.

Lemma clean_formatLine line : Forall clean (formatLine line).
Proof.
  unfold formatLine.
  repeat match goal with
         | |- Forall _ (if ?b then _ else _) => destruct b
         end;
    try solve [constructor];
    (constructor; [|constructor]);
    first [ apply clean_wrapped;
            [tag_in
            |first [apply clean_bold_escapeHtml | apply clean_escapeHtml]
            |tag_in]
          | apply clean_tag_alone; tag_in ].
Qed.

Lemma tableAt_clean lines i html j :
  tableAt lines i = Some (html, j) -> clean html.
Proof.
  unfold tableAt. destruct (includes Ch.pipe (nth i lines [])); [|discriminate].
  destruct (scan lines i) as [[tableLines j'] found].
  destruct (tableWithSeparator tableLines found) as [h|] eqn:H1.
  - intros [= <- <-]. unfold tableWithSeparator in H1.
    destruct (found && _); [|discriminate].
    now apply clean_convertRows in H1.
  - destruct (tableWithoutSeparator tableLines found) as [h|] eqn:H2;
      [|discriminate].
    intros [= <- <-]. unfold tableWithoutSeparator in H2.
    destruct (negb found && _); [|discriminate].
    destruct (allSimilar _ _ && _); [|discriminate].
    now apply clean_convertRows in H2.
Qed.

Lemma processLoop_clean fuel : forall lines i parts,
  Forall partClean parts ->
  Forall partClean (processLoop fuel lines i parts).
Proof.
  induction fuel as [|fuel IH]; intros lines i parts Hp; simpl; [done|].
  destruct (i <? length lines); [|done].
  destruct (tableAt lines i) as [[html j]|] eqn:Ht.
  - apply IH, Forall_app. split; [done|].
    constructor; [|constructor]. simpl. eapply tableAt_clean, Ht.
  - apply IH, Forall_app. split; [done|]. constructor; [|constructor]. done.
Qed.

Lemma formatPart_clean parts idx :
  Forall partClean parts -> Forall clean (formatPart parts idx).
Proof.
  intros Hp. unfold formatPart.
  destruct (nth_error parts idx) as [[content|line]|] eqn:Hn.
  - assert (Hc : clean content).
    { apply nth_error_In in Hn. rewrite Forall_forall in Hp.
      apply list_elem_of_In in Hn. apply (Hp _ Hn). }
    assert (Hbr : clean br) by (apply clean_tag_alone; tag_in).
    repeat match goal with
           | |- context [if ?b then [br] else []] => destruct b
           end; simpl;
      repeat first [apply Forall_nil_2 | apply Forall_cons_2; [assumption|]].
  - apply clean_formatLine.
  - constructor.
Qed.

Lemma formatParts_clean parts :
  Forall partClean parts -> Forall clean (formatParts parts).
Proof.
  intros Hp. unfold formatParts.
  apply Forall_concat, Forall_map, Forall_forall.
  intros idx _. now apply formatPart_clean.
Qed.

Lemma formatMessage_clean (text : jsstring) : clean (formatMessage text).
Proof.
  unfold formatMessage. destruct (negb (truthy text)); [constructor|].
  rewrite join_nil. apply clean_concat, formatParts_clean.
  apply processLoop_clean. constructor.
Qed.

(** A clean string holds no script tag. *)
Lemma clash_startsWith (p u s : jsstring) :
  clash p u = true -> startsWith p (u ++ s) = false.
Proof.
  revert u. induction p as [|a p IH]; intros [|b u]; simpl; try discriminate.
  destruct (a =? b)%N; simpl; [|done]. apply IH.
Qed.

Lemma forallb_seq_S (f : nat -> bool) n : forall lo,
  forallb f (seq (S lo) n) = forallb (fun k => f (S k)) (seq lo n).
Proof.
  induction n as [|n IH]; intros lo; simpl; [done|]. now rewrite IH.
Qed.

Lemma indexOfFrom_skip (p t : jsstring) : forall (s : jsstring) i,
  startsNowhere p t = true ->
  indexOfFrom p (t ++ s) i = indexOfFrom p s (i + Z.of_nat (length t))%Z.
Proof.
  unfold startsNowhere.
  induction t as [|c t IH]; intros s i; simpl length.
  - intros _. simpl. f_equal. lia.
  - cbn [seq forallb drop]. intros [Hc Ht]%andb_prop.
    change ((c :: t) ++ s) with (c :: (t ++ s)). cbn [indexOfFrom].
    change (c :: (t ++ s)) with ((c :: t) ++ s).
    rewrite (clash_startsWith _ _ _ Hc).
    rewrite IH; [f_equal; lia|].
    rewrite <- Ht, forallb_seq_S. reflexivity.
Qed.

Lemma markupTags_no_script :
  forallb (startsNowhere (js "<script>")) (entities ++ markupTags) = true.
Proof. vm_compute. reflexivity. Qed.

Lemma clean_no_script (s : jsstring) :
  clean s -> forall i, indexOfFrom (js "<script>") s i = (-1)%Z.
Proof.
  pose proof markupTags_no_script as Hall.
  rewrite forallb_forall in Hall.
  induction 1 as [|c s Hc Hs IH|c s Hc Hs IH|t s Ht Hs IH]; intros i.
  - reflexivity.
  - change (c :: s) with ([c] ++ s). rewrite indexOfFrom_skip; [apply IH|].
    let v := eval vm_compute in (js "<script>") in
    change (js "<script>") with v.
    unfold startsNowhere. cbn -[N.eqb].
    destruct (N.eqb_spec 60 c) as [<-|]; [discriminate|reflexivity].
  - rewrite indexOfFrom_skip; [apply IH|]. apply Hall.
    apply in_or_app. left. unfold entities.
    revert Hc. unfold isHtmlSpecial.
    case_char c; intros Hc; simpl; auto 10. discriminate.
  - rewrite indexOfFrom_skip; [apply IH|]. apply Hall.
    apply in_or_app. now right.
Qed.

(** ** Trimming and splitting *)

Lemma trimStart_snoc_ws c (s : jsstring) :
  isWhiteSpace c = true ->
  trimStart (s ++ [c])
  = match trimStart s with [] => [] | t => t ++ [c] end.
Proof.
  intros Hc. induction s as [|d s IH]; simpl.
  - now rewrite Hc.
  - destruct (isWhiteSpace d); [exact IH|reflexivity].
Qed.

Lemma trimEnd_snoc_ws c (s : jsstring) :
  isWhiteSpace c = true -> trimEnd (s ++ [c]) = trimEnd s.
Proof.
  intros Hc. unfold trimEnd. rewrite rev_app_distr. simpl. now rewrite Hc.
Qed.

Lemma trimEnd_snoc_other c (s : jsstring) :
  isWhiteSpace c = false -> trimEnd (s ++ [c]) = s ++ [c].
Proof.
  intros Hc. unfold trimEnd. rewrite rev_app_distr. simpl. rewrite Hc.
  change (c :: rev s) with ([c] ++ rev s).
  now rewrite rev_app_distr, rev_involutive.
Qed.

Lemma trim_cons_ws c (s : jsstring) :
  isWhiteSpace c = true -> trim (c :: s) = trim s.
Proof. intros Hc. unfold trim. simpl. now rewrite Hc. Qed.

Lemma trim_snoc_ws c (s : jsstring) :
  isWhiteSpace c = true -> trim (s ++ [c]) = trim s.
Proof.
  intros Hc. unfold trim. rewrite trimStart_snoc_ws by done.
  destruct (trimStart s) as [|d t]; [done|].
  now rewrite trimEnd_snoc_ws.
Qed.

Lemma split_nonempty sep (s : jsstring) : split sep s <> [].
Proof.
  destruct s as [|c s]; simpl; [done|].
  destruct (c =? sep)%N; [done|]. now destruct (split sep s).
Qed.

Lemma split_cons_sep sep (s : jsstring) :
  split sep (sep :: s) = [] :: split sep s.
Proof. simpl. now rewrite N.eqb_refl. Qed.

Lemma split_cons_other sep c (s : jsstring) :
  c <> sep ->
  split sep (c :: s) = (c :: hd [] (split sep s)) :: tail (split sep s).
Proof.
  intros Hc. simpl. apply N.eqb_neq in Hc. rewrite Hc.
  pose proof (split_nonempty sep s). now destruct (split sep s).
Qed.

Lemma split_snoc_sep sep (s : jsstring) :
  split sep (s ++ [sep]) = split sep s ++ [[]].
Proof.
  induction s as [|c s IH].
  - simpl. now rewrite N.eqb_refl.
  - simpl. destruct (c =? sep)%N.
    + now rewrite IH.
    + rewrite IH. pose proof (split_nonempty sep s).
      now destruct (split sep s).
Qed.

Lemma split_snoc_other sep c (s : jsstring) :
  c <> sep ->
  split sep (s ++ [c])
  = removelast (split sep s) ++ [List.last (split sep s) [] ++ [c]].
Proof.
  intros Hc. apply N.eqb_neq in Hc. induction s as [|d s IH].
  - simpl. now rewrite Hc.
  - pose proof (split_nonempty sep s) as Hne.
    simpl. destruct (d =? sep)%N.
    + rewrite IH. destruct (split sep s) as [|p ps]; [done|]. reflexivity.
    + rewrite IH. destruct (split sep s) as [|p [|p' ps]]; [done|done|].
      reflexivity.
Qed.

Section RowsOf.
Variables (dropBlank : bool) (sep : N).
Hypothesis sep_ws : isWhiteSpace sep = true -> dropBlank = true.

Lemma rowsOf_cons_ws c (s : jsstring) :
  isWhiteSpace c = true ->
  rowsOf dropBlank sep (c :: s) = rowsOf dropBlank sep s.
Proof.
  intros Hc. unfold rowsOf. destruct (N.eq_dec c sep) as [->|Hne].
  - rewrite split_cons_sep. simpl. now rewrite (sep_ws Hc).
  - rewrite split_cons_other by done.
    pose proof (split_nonempty sep s) as Hs.
    destruct (split sep s) as [|p ps]; [done|]. simpl.
    rewrite !(trim_cons_ws c p Hc).
    destruct (negb dropBlank || _); simpl; [|done].
    now rewrite trim_cons_ws.
Qed.

Lemma rowsOf_snoc_ws c (s : jsstring) :
  isWhiteSpace c = true ->
  rowsOf dropBlank sep (s ++ [c]) = rowsOf dropBlank sep s.
Proof.
  intros Hc. unfold rowsOf. destruct (N.eq_dec c sep) as [->|Hne].
  - rewrite split_snoc_sep, List.filter_app. simpl.
    rewrite (sep_ws Hc). simpl. now rewrite app_nil_r.
  - rewrite split_snoc_other by done.
    pose proof (split_nonempty sep s) as Hs.
    rewrite (app_removelast_last [] Hs) at 3.
    rewrite !List.filter_app, !map_app. f_equal. simpl.
    rewrite !(trim_snoc_ws c _ Hc).
    destruct (negb dropBlank || _); simpl; [|done].
    now rewrite trim_snoc_ws.
Qed.

Lemma rowsOf_trimStart (s : jsstring) :
  rowsOf dropBlank sep (trimStart s) = rowsOf dropBlank sep s.
Proof.
  induction s as [|c s IH]; simpl; [done|].
  destruct (isWhiteSpace c) eqn:Hc; [|done].
  now rewrite IH, rowsOf_cons_ws.
Qed.

Lemma rowsOf_trimEnd (s : jsstring) :
  rowsOf dropBlank sep (trimEnd s) = rowsOf dropBlank sep s.
Proof.
  induction s as [|c s IH] using rev_ind; [done|].
  destruct (isWhiteSpace c) eqn:Hc.
  - now rewrite trimEnd_snoc_ws, IH, rowsOf_snoc_ws.
  - now rewrite trimEnd_snoc_other.
Qed.

Lemma rowsOf_trim (s : jsstring) :
  rowsOf dropBlank sep (trim s) = rowsOf dropBlank sep s.
Proof. unfold trim. now rewrite rowsOf_trimEnd, rowsOf_trimStart. Qed.

End RowsOf.

Lemma includes_existsb c (s : jsstring) :
  includes c s = true <-> In c s.
Proof.
  unfold includes. rewrite existsb_exists. split.
  - intros (x & Hx & ->%N.eqb_eq). done.
  - intros Hc. exists c. split; [done|apply N.eqb_refl].
Qed.

Lemma includes_trimStart c (s : jsstring) :
  isWhiteSpace c = false -> includes c (trimStart s) = includes c s.
Proof.
  intros Hc. induction s as [|d s IH]; simpl; [done|].
  destruct (isWhiteSpace d) eqn:Hd; [|done].
  rewrite IH. destruct (N.eqb_spec c d) as [->|]; [congruence|done].
Qed.

Lemma includes_rev c (s : jsstring) : includes c (rev s) = includes c s.
Proof.
  apply eq_true_iff_eq. rewrite !includes_existsb. symmetry. apply in_rev.
Qed.

Lemma includes_trim c (s : jsstring) :
  isWhiteSpace c = false -> includes c (trim s) = includes c s.
Proof.
  intros Hc. unfold trim, trimEnd.
  now rewrite includes_rev, includes_trimStart, includes_rev,
    includes_trimStart.
Qed.

Lemma includes_nonblank c (s : jsstring) :
  isWhiteSpace c = false -> includes c s = true -> truthy (trim s) = true.
Proof.
  intros Hc Hs. rewrite <- (includes_trim c s Hc) in Hs.
  now destruct (trim s).
Qed.

(** ** parseRow *)

Lemma parseRow_parseRowOf (row : jsstring) :
  parseRow row = parseRowOf (rowsOf false Ch.pipe row) (trim row).
Proof.
  unfold parseRow, parseRowOf, rowsOf. simpl negb. cbn [orb].
  assert (Hf : List.filter (fun _ : jsstring => true) (split Ch.pipe row)
               = split Ch.pipe row).
  { induction (split Ch.pipe row) as [|p ps IH]; simpl; [done|].
    now rewrite IH. }
  now rewrite Hf.
Qed.

Lemma rowsOf_pipe_trim (row : jsstring) :
  rowsOf false Ch.pipe (trim row) = rowsOf false Ch.pipe row.
Proof. apply rowsOf_trim. discriminate. Qed.

(** Rows that are equal once trimmed have the same cells. *)
Lemma parseRow_trim_eq (r1 r2 : jsstring) :
  trim r1 = trim r2 -> parseRow r1 = parseRow r2.
Proof.
  intros E. rewrite !parseRow_parseRowOf.
  rewrite <- (rowsOf_pipe_trim r1), <- (rowsOf_pipe_trim r2).
  now rewrite E.
Qed.

(** ** Lines and rows *)

Lemma split_nosep sep (l : jsstring) :
  includes sep l = false -> split sep l = [l].
Proof.
  induction l as [|c l IH]; simpl; [done|].
  intros [Hc Hl]%orb_false_elim. rewrite N.eqb_sym, Hc, IH; done.
Qed.

Lemma split_app_sep sep (l s : jsstring) :
  includes sep l = false -> split sep (l ++ sep :: s) = l :: split sep s.
Proof.
  induction l as [|c l IH]; simpl.
  - intros _. now rewrite N.eqb_refl.
  - intros [Hc Hl]%orb_false_elim. now rewrite N.eqb_sym, Hc, IH.
Qed.

Lemma split_join sep (L : list jsstring) :
  L <> [] -> Forall (fun l => includes sep l = false) L ->
  split sep (join [sep] L) = L.
Proof.
  intros Hne HL. induction HL as [|l L Hl HL IH]; [done|]. clear Hne.
  destruct L as [|l' L].
  - simpl. now apply split_nosep.
  - change (join [sep] (l :: l' :: L)) with (l ++ sep :: join [sep] (l' :: L)).
    rewrite split_app_sep by done. now rewrite IH.
Qed.

Lemma split_free sep (s : jsstring) :
  Forall (fun l => includes sep l = false) (split sep s).
Proof.
  induction s as [|c s IH]; simpl; [by repeat constructor|].
  destruct (N.eqb_spec c sep) as [->|Hne].
  - now constructor.
  - pose proof (split_nonempty sep s).
    destruct (split sep s) as [|p ps]; [done|].
    apply Forall_cons in IH as [Hp Hps]. constructor; [|done].
    simpl. rewrite Hp, orb_false_r. now apply N.eqb_neq.
Qed.

Lemma nth_free sep (lines : list jsstring) j :
  Forall (fun l => includes sep l = false) lines ->
  includes sep (nth j lines []) = false.
Proof.
  intros Hl. destruct (nth_in_or_default j lines []) as [Hin| ->]; [|done].
  rewrite Forall_forall in Hl. apply Hl. now apply list_elem_of_In.
Qed.

(** The rows of a block of lines: its lines that are not blank, up to
    white space at the ends of a row. *)
Lemma tableRows_join (L : list jsstring) :
  Forall (fun l => includes Ch.nl l = false) L ->
  map trim (tableRows (join [Ch.nl] L)) = map trim (List.filter (fun l => truthy (trim l)) L).
Proof.
  intros HL.
  change (map trim (tableRows (join [Ch.nl] L)))
    with (rowsOf true Ch.nl (trim (join [Ch.nl] L))).
  rewrite rowsOf_trim by done. unfold rowsOf. simpl negb. cbn [orb].
  destruct L as [|l L]; [reflexivity|].
  now rewrite split_join.
Qed.

(** ** The converter on rows *)

Lemma sepLike_trim_eq (r1 r2 : jsstring) :
  trim r1 = trim r2 -> sepLike r1 = sepLike r2.
Proof.
  intros E. unfold sepLike.
  rewrite <- (includes_trim Ch.pipe r1), <- (includes_trim Ch.pipe r2) by done.
  now rewrite E.
Qed.

Lemma separatorIndex_test (rows : list jsstring) j :
  (let row := trim (nth j rows []) in includes Ch.pipe row && sepRe row)
  = sepLike (nth j rows []).
Proof.
  unfold sepLike. cbv zeta. now rewrite includes_trim.
Qed.

Lemma forFind_ext n : forall lo p1 p2,
  (forall k, p1 k = p2 k) -> forFind n lo p1 = forFind n lo p2.
Proof.
  induction n as [|n IH]; intros lo p1 p2 E; simpl; [done|].
  rewrite E. destruct (p2 lo); [done|]. now apply IH.
Qed.

Lemma separatorIndex_sepLike (rows : list jsstring) :
  separatorIndex rows
  = match forFind (Nat.min (length rows) 5 - 1) 1
            (fun j => sepLike (nth j rows [])) with
    | Some j => Z.of_nat j
    | None => (-1)%Z
    end.
Proof.
  unfold separatorIndex. cbv zeta.
  now rewrite (forFind_ext _ _ _ _ (separatorIndex_test rows)).
Qed.

Lemma separatorIndex_found (rows : list jsstring) k :
  separatorIndex rows = Z.of_nat k ->
  1 <= k <= 4 /\ k < length rows /\ sepLike (nth k rows []) = true
  /\ forall k', 1 <= k' < k -> sepLike (nth k' rows []) = false.
Proof.
  rewrite separatorIndex_sepLike.
  destruct (forFind _ _ _) as [j|] eqn:Hf; [|lia].
  intros Hj. apply Nat2Z.inj in Hj as ->.
  apply forFind_Some in Hf as (Hr & Hk & Hb).
  split_and!; [lia|lia|lia|done|done].
Qed.

Lemma separatorIndex_none (rows : list jsstring) :
  (forall k, 1 <= k <= 4 -> sepLike (nth k rows []) = false) ->
  separatorIndex rows = (-1)%Z.
Proof.
  intros Hno. rewrite separatorIndex_sepLike.
  destruct (forFind _ _ _) as [j|] eqn:Hf; [|done].
  apply forFind_Some in Hf as (Hr & Hk & _).
  rewrite Hno in Hk by lia. discriminate.
Qed.

Lemma separatorIndex_range (rows : list jsstring) :
  separatorIndex rows = (-1)%Z
  \/ exists k, separatorIndex rows = Z.of_nat k /\ 1 <= k <= 4.
Proof.
  rewrite separatorIndex_sepLike.
  destruct (forFind _ _ _) as [j|] eqn:Hf; [|by left].
  right. exists j. split; [done|].
  apply forFind_Some in Hf as (Hr & _). lia.
Qed.

Lemma separatorIndex_second (rows : list jsstring) :
  2 <= length rows -> sepLike (nth 1 rows []) = true ->
  separatorIndex rows = 1%Z.
Proof.
  intros Hlen Hsep. rewrite separatorIndex_sepLike.
  destruct (Nat.min (length rows) 5 - 1) as [|n] eqn:Hn; [lia|].
  simpl. now rewrite Hsep.
Qed.

Lemma nth_trim_eq (rows1 rows2 : list jsstring) k :
  map trim rows1 = map trim rows2 ->
  trim (nth k rows1 []) = trim (nth k rows2 []).
Proof.
  intros E. rewrite <- !(map_nth trim). now rewrite E.
Qed.

Lemma separatorIndex_trim_eq (rows1 rows2 : list jsstring) :
  map trim rows1 = map trim rows2 ->
  separatorIndex rows1 = separatorIndex rows2.
Proof.
  intros E. rewrite !separatorIndex_sepLike.
  assert (Hlen : length rows1 = length rows2)
    by (apply (f_equal length) in E; now rewrite !length_map in E).
  rewrite Hlen.
  rewrite (forFind_ext _ _ (fun j => sepLike (nth j rows1 []))
             (fun j => sepLike (nth j rows2 []))); [done|].
  intros k. apply sepLike_trim_eq. now apply nth_trim_eq.
Qed.

Lemma rowHtml_trim_eq (r1 r2 : jsstring) :
  trim r1 = trim r2 -> rowHtml r1 = rowHtml r2.
Proof. intros E. unfold rowHtml. now rewrite (parseRow_trim_eq r1 r2). Qed.

Lemma bodyRowList_trim_eq : forall (a b : list jsstring),
  map trim a = map trim b -> bodyRowList a = bodyRowList b.
Proof.
  unfold bodyRowList.
  induction a as [|x a IH]; intros [|y b]; simpl; try done.
  intros [= Exy Eab].
  rewrite <- (includes_trim Ch.pipe x), <- (includes_trim Ch.pipe y) by done.
  rewrite Exy.
  destruct (truthy (trim y) && includes Ch.pipe (trim y)); simpl.
  - rewrite (rowHtml_trim_eq x y Exy).
    destruct (truthy (rowHtml y)); [f_equal|]; now apply IH.
  - now apply IH.
Qed.

Lemma dataRowsOf_trim_eq (rows1 rows2 : list jsstring) :
  map trim rows1 = map trim rows2 ->
  map trim (dataRowsOf rows1) = map trim (dataRowsOf rows2).
Proof.
  intros E. unfold dataRowsOf, slice.
  rewrite (separatorIndex_trim_eq _ _ E).
  destruct (0 <? separatorIndex rows2)%Z; rewrite <- !skipn_map;
    now rewrite E.
Qed.

(** The converter does not see white space at the ends of a row. *)
Lemma convertRows_trim_eq (rows1 rows2 : list jsstring) :
  map trim rows1 = map trim rows2 -> convertRows rows1 = convertRows rows2.
Proof.
  intros E. unfold convertRows.
  assert (Hlen : length rows1 = length rows2)
    by (apply (f_equal length) in E; now rewrite !length_map in E).
  rewrite Hlen. destruct (length rows2 <? 2); [done|].
  unfold headerCellList.
  rewrite (parseRow_trim_eq (nth 0 rows1 []) (nth 0 rows2 []))
    by now apply nth_trim_eq.
  now rewrite (bodyRowList_trim_eq _ _ (dataRowsOf_trim_eq _ _ E)).
Qed.

Lemma convertMarkdownTable_lines (L : list jsstring) :
  Forall (fun l => includes Ch.nl l = false) L ->
  convertMarkdownTable (join [Ch.nl] L)
  = convertRows (List.filter (fun l => truthy (trim l)) L).
Proof.
  intros HL. unfold convertMarkdownTable.
  apply convertRows_trim_eq. now apply tableRows_join.
Qed.

(** ** The look-ahead loop *)

Lemma scanLoop_spec fuel : forall lines i j tl f tl' j' f',
  scanLoop fuel lines i j tl f = (tl', j', f') ->
  j <= j' /\ j' <= Nat.max j (i + 50)
  /\ exists added,
       tl' = tl ++ added /\ length added <= j' - j
       /\ Forall (lineOf lines) added
       /\ (f' = false -> f = false /\ Forall plainPipeLine added).
Proof.
  induction fuel as [|fuel IH]; intros lines i j tl f tl' j' f'.
  { intros [= <- <- <-]. split_and!; [lia..|].
    exists []. rewrite app_nil_r. split_and!; [done|simpl; lia|done|done]. }
  assert (Hexit : (tl, j, f) = (tl', j', f') ->
                  j <= j' /\ j' <= Nat.max j (i + 50)
                  /\ exists added,
                       tl' = tl ++ added /\ length added <= j' - j
                       /\ Forall (lineOf lines) added
                       /\ (f' = false -> f = false /\ Forall plainPipeLine added)).
  { intros [= <- <- <-]. split_and!; [lia..|].
    exists []. rewrite app_nil_r. split_and!; [done|simpl; lia|done|done]. }
  assert (Hpush : forall fnew,
             j < i + 50 ->
             (fnew = false ->
              f = false /\ plainPipeLine (nth j lines [])) ->
             scanLoop fuel lines i (j + 1) (tl ++ [nth j lines []]) fnew
             = (tl', j', f') ->
             j <= j' /\ j' <= Nat.max j (i + 50)
             /\ exists added,
                  tl' = tl ++ added /\ length added <= j' - j
                  /\ Forall (lineOf lines) added
                  /\ (f' = false -> f = false /\ Forall plainPipeLine added)).
  { intros fnew Hj Hf Hs.
    destruct (IH _ _ _ _ _ _ _ _ Hs) as (H1 & H2 & added & -> & H3 & H4 & H5).
    split_and!; [lia..|].
    exists (nth j lines [] :: added). rewrite <- app_assoc.
    split_and!; [done|simpl; lia| |].
    - constructor; [by exists j|done].
    - intros Hf'. destruct (H5 Hf') as [-> Hadded].
      destruct (Hf eq_refl) as [-> Hline]. split; [done|].
      now constructor. }
  cbn [scanLoop].
  destruct ((j <? length lines) && (j <? i + 50)) eqn:Hcond; [|exact Hexit].
  apply andb_prop in Hcond as [_ Hj%Nat.ltb_lt].
  destruct (negb f && includes Ch.pipe (nth j lines [])
            && sepRe (trim (nth j lines []))) eqn:Hsep.
  { apply Hpush; [done|discriminate]. }
  destruct f.
  - destruct (includes Ch.pipe (nth j lines [])
              && truthy (trim (nth j lines []))).
    { apply Hpush; [done|discriminate]. }
    destruct (blank (nth j lines [])); [|exact Hexit].
    destruct ((skipBlank lines (j + 1) <? length lines) && _).
    + intros [= <- <- <-]. split_and!; [lia..|].
      exists [nth j lines []].
      split_and!; [done|simpl; lia| |discriminate].
      constructor; [by exists j|done].
    + apply Hpush; [done|discriminate].
  - destruct (includes Ch.pipe (nth j lines [])
              && truthy (trim (nth j lines []))) eqn:Hpipe.
    { apply Hpush; [done|]. intros _. split; [done|].
      apply andb_prop in Hpipe as [Hpipe _].
      split; [done|]. unfold sepLike. simpl in Hsep.
      now rewrite Hpipe in *. }
    destruct (blank (nth j lines []) && (j <? i + 3)); [|exact Hexit].
    intros Hs.
    destruct (IH _ _ _ _ _ _ _ _ Hs) as (H1 & H2 & added & -> & H3 & H4 & H5).
    split_and!; [lia..|]. exists added. split_and!; [done|lia|done|done].
Qed.

(** Fifty units of fuel are enough for the loop: it stops by itself. *)
Lemma scanLoop_fuel : forall fuel1 fuel2 lines i j tl f,
  i + 50 - j <= fuel1 -> i + 50 - j <= fuel2 ->
  scanLoop fuel1 lines i j tl f = scanLoop fuel2 lines i j tl f.
Proof.
  induction fuel1 as [|fuel1 IH]; intros fuel2 lines i j tl f H1 H2.
  - destruct fuel2 as [|fuel2]; [done|]. cbn [scanLoop].
    assert ((j <? i + 50) = false) as -> by (apply Nat.ltb_ge; lia).
    now rewrite andb_false_r.
  - destruct fuel2 as [|fuel2].
    + cbn [scanLoop].
      assert ((j <? i + 50) = false) as -> by (apply Nat.ltb_ge; lia).
      now rewrite andb_false_r.
    + cbn [scanLoop].
      destruct ((j <? length lines) && (j <? i + 50)) eqn:Hcond; [|done].
      apply andb_prop in Hcond as [_ Hj%Nat.ltb_lt].
      rewrite !(IH fuel2 lines i (j + 1)) by lia. reflexivity.
Qed.

Lemma scan_spec lines i tl j f :
  scan lines i = (tl, j, f) ->
  i < j /\ j <= i + 50 /\ length tl <= 50
  /\ exists added,
       tl = nth i lines [] :: added
       /\ Forall (lineOf lines) added
       /\ (f = false -> Forall plainPipeLine added).
Proof.
  unfold scan. intros Hs.
  destruct (scanLoop_spec _ _ _ _ _ _ _ _ _ Hs)
    as (H1 & H2 & added & -> & H3 & H4 & H5).
  split_and!; [lia|lia|rewrite length_app; simpl; lia|].
  exists added. split_and!; [done|done|]. intros Hf. now apply H5.
Qed.

Lemma tableAt_advances lines i html j :
  tableAt lines i = Some (html, j) -> i < j.
Proof.
  unfold tableAt. destruct (includes Ch.pipe (nth i lines [])); [|discriminate].
  destruct (scan lines i) as [[tl j'] f] eqn:Hs.
  apply scan_spec in Hs as (Hj & _).
  destruct (tableWithSeparator tl f); [now intros [= _ <-]|].
  destruct (tableWithoutSeparator tl f); [now intros [= _ <-]|discriminate].
Qed.

(** The number of lines still to read is enough fuel for the walk. *)
Lemma processLoop_fuel : forall fuel1 fuel2 lines i parts,
  length lines - i <= fuel1 -> length lines - i <= fuel2 ->
  processLoop fuel1 lines i parts = processLoop fuel2 lines i parts.
Proof.
  induction fuel1 as [|fuel1 IH]; intros fuel2 lines i parts H1 H2.
  - destruct fuel2 as [|fuel2]; [done|]. simpl.
    now assert ((i <? length lines) = false) as -> by (apply Nat.ltb_ge; lia).
  - destruct fuel2 as [|fuel2]; simpl.
    + now assert ((i <? length lines) = false) as ->
        by (apply Nat.ltb_ge; lia).
    + destruct (i <? length lines) eqn:Hi; [|done].
      apply Nat.ltb_lt in Hi.
      destruct (tableAt lines i) as [[html j]|] eqn:Ht.
      * apply tableAt_advances in Ht. apply IH; lia.
      * apply IH; lia.
Qed.

(** ** Cells and rows of the fragment *)

Lemma split_length (r : jsstring) :
  length (split Ch.pipe r) = S (pipeCount r).
Proof.
  unfold pipeCount. induction r as [|c r IH]; [done|].
  cbn [split List.filter]. rewrite (N.eqb_sym Ch.pipe c).
  destruct (c =? Ch.pipe)%N; cbn [length].
  - now rewrite IH.
  - pose proof (split_nonempty Ch.pipe r).
    destruct (split Ch.pipe r); [done|]. exact IH.
Qed.

Lemma removelast_length_ge {A} (l : list A) :
  length l - 1 <= length (removelast l).
Proof.
  induction l as [|x [|y l] IH]; simpl in *; lia.
Qed.

Lemma parseRow_length (r : jsstring) :
  pipeCount r - 1 <= length (parseRow r).
Proof.
  unfold parseRow. cbv zeta.
  pose proof (split_length r) as Hs.
  set (parts := map trim (split Ch.pipe r)).
  assert (Hp : length parts = S (pipeCount r))
    by (unfold parts; now rewrite length_map).
  clearbody parts.
  set (b1 := (0 <? length parts) && _ && _). clearbody b1.
  assert (H1 : length parts - 1 <= length (shiftIf b1 parts)).
  { destruct b1; simpl; [|lia]. destruct parts; simpl; lia. }
  set (parts1 := shiftIf b1 parts) in *. clearbody parts1.
  set (b2 := (0 <? length parts1) && _ && _). clearbody b2.
  destruct b2; simpl; [|lia].
  pose proof (removelast_length_ge parts1). lia.
Qed.

Lemma cells_truthy tag (cells : list jsstring) :
  truthy (join [] (map (cellHtml tag) cells)) = (0 <? length cells).
Proof. rewrite join_nil. now destruct cells. Qed.

Lemma rowHtml_truthy (row : jsstring) :
  truthy (rowHtml row) = (0 <? length (parseRow row)).
Proof.
  unfold rowHtml. rewrite cells_truthy.
  now destruct (0 <? length (parseRow row)).
Qed.

(** The rows of the body are the lines that have a pipe and a cell. *)
Lemma bodyRowList_hasCells (L : list jsstring) :
  bodyRowList L = map rowHtml (List.filter hasCells L).
Proof.
  unfold bodyRowList, hasCells. induction L as [|row L IH]; [done|].
  simpl. destruct (includes Ch.pipe row) eqn:Hp.
  - rewrite (includes_nonblank Ch.pipe row) by done. simpl.
    rewrite rowHtml_truthy.
    destruct (0 <? length (parseRow row)); simpl; now rewrite IH.
  - rewrite andb_false_r. simpl. exact IH.
Qed.

Lemma bodyRowList_nonblank (L : list jsstring) :
  bodyRowList (List.filter (fun l => truthy (trim l)) L) = bodyRowList L.
Proof.
  rewrite !bodyRowList_hasCells. f_equal.
  induction L as [|row L IH]; [done|]. simpl.
  destruct (truthy (trim row)) eqn:Ht; simpl.
  - now rewrite IH.
  - rewrite IH. unfold hasCells.
    destruct (includes Ch.pipe row) eqn:Hp; [|done].
    now rewrite (includes_nonblank Ch.pipe row) in Ht.
Qed.

Lemma convertRows_no_separator (rows : list jsstring) :
  2 <= length rows ->
  (forall k, 1 <= k <= 4 -> sepLike (nth k rows []) = false) ->
  convertRows rows
  = if 0 <? length (parseRow (nth 0 rows [])) then
      Some (tableTemplate (join [] (headerCellList (nth 0 rows [])))
              (join [] (bodyRowList (drop 1 rows))))
    else None.
Proof.
  intros Hlen Hno. unfold convertRows, dataRowsOf, slice.
  rewrite (separatorIndex_none rows Hno).
  assert ((length rows <? 2) = false) as -> by (apply Nat.ltb_ge; lia).
  unfold headerCellList at 1. rewrite cells_truthy. simpl.
  now destruct (0 <? length (parseRow (nth 0 rows []))).
Qed.

Lemma convertRows_separator_second (rows : list jsstring) :
  2 <= length rows -> sepLike (nth 1 rows []) = true ->
  convertRows rows
  = if 0 <? length (parseRow (nth 0 rows [])) then
      Some (tableTemplate (join [] (headerCellList (nth 0 rows [])))
              (join [] (bodyRowList (drop 2 rows))))
    else None.
Proof.
  intros Hlen Hsep. unfold convertRows, dataRowsOf, slice.
  rewrite (separatorIndex_second rows Hlen Hsep).
  assert ((length rows <? 2) = false) as -> by (apply Nat.ltb_ge; lia).
  unfold headerCellList at 1. rewrite cells_truthy. simpl.
  now destruct (0 <? length (parseRow (nth 0 rows []))).
Qed.

Lemma lineOf_free (text l : jsstring) :
  lineOf (split Ch.nl text) l -> includes Ch.nl l = false.
Proof. intros [k ->]. apply nth_free, split_free. Qed.

Lemma filter_all {A} (p : A -> bool) (l : list A) :
  Forall (fun x => p x = true) l -> List.filter p l = l.
Proof.
  induction 1 as [|x l Hx Hl IH]; simpl; [done|]. now rewrite Hx, IH.
Qed.


(** ** Counting tags in a fragment *)

Lemma countOcc_cons pat c (s : jsstring) :
  countOcc pat (c :: s)
  = (if startsWith pat (c :: s) then 1 else 0) + countOcc pat s.
Proof. reflexivity. Qed.

Lemma countOcc_skip (pat t : jsstring) : forall s : jsstring,
  startsNowhere pat t = true -> countOcc pat (t ++ s) = countOcc pat s.
Proof.
  unfold startsNowhere.
  induction t as [|c t IH]; intros s; [done|].
  cbn [length seq forallb drop]. intros [Hc Ht]%andb_prop.
  change ((c :: t) ++ s) with (c :: (t ++ s)). rewrite countOcc_cons.
  change (c :: (t ++ s)) with ((c :: t) ++ s).
  rewrite (clash_startsWith _ _ _ Hc). simpl.
  apply IH. rewrite <- Ht, forallb_seq_S. reflexivity.
Qed.

Lemma countOcc_here (pat s : jsstring) :
  pat <> [] -> startsNowhere pat (tail pat) = true ->
  countOcc pat (pat ++ s) = S (countOcc pat s).
Proof.
  intros Hne Hin. destruct pat as [|a pat]; [done|].
  change ((a :: pat) ++ s) with (a :: (pat ++ s)). rewrite countOcc_cons.
  change (a :: (pat ++ s)) with ((a :: pat) ++ s).
  rewrite startsWith_app. simpl tail in Hin.
  now rewrite (countOcc_skip _ _ _ Hin).
Qed.

(** A pattern that starts with a metacharacter and that starts inside no
    entity and no tag of [tags] does not occur in clean prose over [tags],
    nor does it start there and end behind it. *)
Lemma countOcc_clean (pat : jsstring) tags (c : jsstring) :
  startsSpecial pat = true ->
  forallb (startsNowhere pat) (entities ++ tags) = true ->
  cleanOver tags c ->
  forall s : jsstring, countOcc pat (c ++ s) = countOcc pat s.
Proof.
  intros Hpat Hall. rewrite forallb_forall in Hall.
  induction 1 as [|c0 c Hc Hs IH|c0 c Hc Hs IH|t c Ht Hs IH]; intros s.
  - reflexivity.
  - change ((c0 :: c) ++ s) with ([c0] ++ (c ++ s)).
    rewrite countOcc_skip; [apply IH|].
    destruct pat as [|a pat]; [discriminate|]. simpl in Hpat.
    unfold startsNowhere. cbn [length seq forallb drop clash].
    destruct (N.eqb_spec a c0) as [->|]; [congruence|reflexivity].
  - rewrite <- app_assoc, countOcc_skip; [apply IH|]. apply Hall.
    apply in_or_app. left. unfold entities.
    revert Hc. unfold isHtmlSpecial.
    case_char c0; intros Hc; simpl; auto 10. discriminate.
  - rewrite <- app_assoc, countOcc_skip; [apply IH|]. apply Hall.
    apply in_or_app. now right.
Qed.

Lemma cellTags_row t : In t cellTags -> In t rowTags.
Proof. intros Ht. unfold rowTags. apply in_or_app. now left. Qed.

Lemma boldTags_cell t : In t boldTags -> In t cellTags.
Proof. intros Ht. unfold cellTags. apply in_or_app. now left. Qed.

Lemma cleanOver_cells (row : jsstring) :
  cleanOver cellTags (join [] (map (cellHtml "td") (parseRow row))).
Proof.
  rewrite join_nil. apply clean_concat, Forall_map, Forall_forall.
  intros cell _.
  change (cellHtml "td" cell)
    with (js "<td>" ++ bold (escapeHtml cell) ++ js "</td>").
  apply clean_tag; [unfold cellTags; simpl; auto|].
  apply clean_app.
  - eapply clean_mono; [apply boldTags_cell|apply cleanOver_bold_escapeHtml].
  - apply clean_tag_alone. unfold cellTags; simpl; auto.
Qed.

Lemma cleanOver_rowHtml (row : jsstring) : cleanOver rowTags (rowHtml row).
Proof.
  unfold rowHtml. destruct (truthy _); [|constructor].
  apply clean_tag; [unfold rowTags, cellTags; simpl; auto 10|].
  apply clean_app.
  - eapply clean_mono; [apply cellTags_row|apply cleanOver_cells].
  - apply clean_tag_alone. unfold rowTags, cellTags; simpl; auto 10.
Qed.

Lemma cleanOver_bodyRows (rows : list jsstring) :
  cleanOver rowTags (join [] (bodyRowList rows)).
Proof.
  rewrite join_nil, bodyRowList_hasCells.
  apply clean_concat, Forall_map, Forall_forall.
  intros row _. apply cleanOver_rowHtml.
Qed.

Lemma cleanOver_noDataRow : cleanOver rowTags noDataRow.
Proof.
  change noDataRow
    with (js "<tr>" ++ (js "<td colspan=" ++ q ++ js "100%" ++ q ++ js ">")
          ++ js "No data" ++ js "</td>" ++ js "</tr>").
  apply clean_tag; [unfold rowTags, cellTags; simpl; auto 10|].
  apply clean_tag; [unfold rowTags, cellTags; simpl; auto 10|].
  apply clean_app; [now apply clean_plain|].
  apply clean_tag; [unfold rowTags, cellTags; simpl; auto 10|].
  apply clean_tag_alone. unfold rowTags, cellTags; simpl; auto 10.
Qed.

(** One [<th>] for each header cell. *)
Lemma countOcc_headerCells (cells : list jsstring) (rest : jsstring) :
  countOcc (js "<th>") (join [] (map (cellHtml "th") cells) ++ rest)
  = length cells + countOcc (js "<th>") rest.
Proof.
  rewrite join_nil. induction cells as [|cell cells IH]; [done|].
  cbn [map concat length].
  change (cellHtml "th" cell)
    with (js "<th>" ++ bold (escapeHtml cell) ++ js "</th>").
  rewrite <- !app_assoc.
  rewrite countOcc_here; [|done|reflexivity].
  rewrite (countOcc_clean (js "<th>") boldTags);
    [|reflexivity|reflexivity|apply cleanOver_bold_escapeHtml].
  rewrite countOcc_skip by reflexivity.
  now rewrite IH.
Qed.

(** One [<tr>] for each line that has cells. *)
Lemma countOcc_bodyRows (rows : list jsstring) (rest : jsstring) :
  countOcc (js "<tr>") (join [] (bodyRowList rows) ++ rest)
  = length (List.filter hasCells rows) + countOcc (js "<tr>") rest.
Proof.
  rewrite join_nil, bodyRowList_hasCells.
  induction rows as [|row rows IH]; [done|].
  cbn [List.filter]. destruct (hasCells row) eqn:Hrow; [|exact IH].
  cbn [map concat length].
  unfold hasCells in Hrow. apply andb_prop in Hrow as [_ Hcells].
  unfold rowHtml at 1. rewrite cells_truthy, Hcells.
  rewrite <- !app_assoc.
  rewrite countOcc_here; [|done|reflexivity].
  rewrite (countOcc_clean (js "<tr>") cellTags);
    [|reflexivity|reflexivity|apply cleanOver_cells].
  rewrite countOcc_skip by reflexivity.
  now rewrite IH.
Qed.

Lemma cleanOver_headerCells (cells : list jsstring) :
  cleanOver headTags (join [] (map (cellHtml "th") cells)).
Proof.
  rewrite join_nil. apply clean_concat, Forall_map, Forall_forall.
  intros cell _.
  change (cellHtml "th" cell)
    with (js "<th>" ++ bold (escapeHtml cell) ++ js "</th>").
  apply clean_tag; [unfold headTags; simpl; auto|].
  apply clean_app.
  - eapply clean_mono; [|apply cleanOver_bold_escapeHtml].
    intros t Ht. unfold headTags. apply in_or_app. now left.
  - apply clean_tag_alone. unfold headTags; simpl; auto.
Qed.

Lemma bodyRows_truthy (rows : list jsstring) :
  truthy (join [] (bodyRowList rows))
  = (0 <? length (List.filter hasCells rows)).
Proof.
  rewrite join_nil, bodyRowList_hasCells.
  induction rows as [|row rows IH]; [done|].
  cbn [List.filter]. destruct (hasCells row) eqn:Hrow; [|exact IH].
  cbn [map concat length].
  unfold hasCells in Hrow. apply andb_prop in Hrow as [_ Hcells].
  unfold rowHtml. now rewrite cells_truthy, Hcells.
Qed.

(** The tags of a whole fragment: a [<th>] for each header cell and a
    [<tr>] for the header and for each data row, the placeholder row
    standing in when there is no data row. *)
Lemma countOcc_tableTemplate (cells rows : list jsstring) :
  let html :=
    tableTemplate (join [] (map (cellHtml "th") cells))
      (join [] (bodyRowList rows)) in
  countOcc (js "<th>") html = length cells
  /\ countOcc (js "<tr>") html
     = 1 + Nat.max 1 (length (List.filter hasCells rows)).
Proof.
  set (p1 := [Ch.nl] ++ js "    <div class=" ++ q ++ js "table-wrapper" ++ q
             ++ js ">" ++ [Ch.nl] ++ js "      <table class=" ++ q
             ++ js "markdown-table" ++ q ++ js ">" ++ [Ch.nl]
             ++ js "        <thead>").
  set (p2 := js "</tr></thead>" ++ [Ch.nl] ++ js "        <tbody>").
  set (p3 := js "</tbody>" ++ [Ch.nl] ++ js "      </table>" ++ [Ch.nl]
             ++ js "    </div>" ++ [Ch.nl] ++ js "  ").
  pose proof (cleanOver_headerCells cells) as HH.
  pose proof (bodyRows_truthy rows) as HB.
  pose proof (countOcc_bodyRows rows p3) as Hrows.
  pose proof (cleanOver_bodyRows rows) as Hbody.
  pose proof (countOcc_headerCells cells) as Hcells.
  revert HH HB Hrows Hbody Hcells.
  generalize (join [] (map (cellHtml "th") cells)).
  generalize (join [] (bodyRowList rows)).
  intros B H HH HB Hrows Hbody Hcells.
  assert (Hshape : tableTemplate H B
                   = p1 ++ js "<tr>" ++ H ++ p2
                     ++ (if truthy B then B else noDataRow) ++ p3)
    by reflexivity.
  cbv zeta. rewrite Hshape. clear Hshape.
  assert (H3t : countOcc (js "<th>") p3 = 0) by reflexivity.
  assert (H3r : countOcc (js "<tr>") p3 = 0) by reflexivity.
  split.
  - rewrite (countOcc_skip _ p1) by reflexivity.
    rewrite (countOcc_skip _ (js "<tr>")) by reflexivity.
    rewrite Hcells.
    rewrite (countOcc_skip _ p2) by reflexivity.
    rewrite (countOcc_clean (js "<th>") rowTags); [lia|done|done|].
    destruct (truthy B); [done|apply cleanOver_noDataRow].
  - rewrite (countOcc_skip _ p1) by reflexivity.
    rewrite countOcc_here; [|done|reflexivity].
    rewrite (countOcc_clean (js "<tr>") headTags H); [|done|done|done].
    rewrite (countOcc_skip _ p2) by reflexivity.
    rewrite HB. destruct (length (List.filter hasCells rows)) as [|n] eqn:Hn.
    + simpl. clear. reflexivity.
    + change (0 <? S n) with true. cbv iota. rewrite Hrows, H3r. lia.
Qed.

(** C10 -- the look-ahead collects at most 50 lines and stops at most 50
    lines behind the line it started at; the converter finds a separator
    among the rows 1 to 4 only; and when none of these rows is a separator,
    whatever the later rows are, no separator is found and every row after
    the header is a data row. *)
Theorem table_detection_bounded :
  (forall lines i tl j f,
      scan lines i = (tl, j, f) -> length tl <= 50 /\ i < j <= i + 50)
  /\ (forall rows k,
        separatorIndex rows = Z.of_nat k ->
        1 <= k <= 4 /\ k < length rows /\ sepLike (nth k rows []) = true)
  /\ (forall rows,
        separatorIndex rows = (-1)%Z
        \/ exists k, separatorIndex rows = Z.of_nat k /\ 1 <= k <= 4)
  /\ (forall rows,
        (forall k, 1 <= k <= 4 -> sepLike (nth k rows []) = false) ->
        separatorIndex rows = (-1)%Z /\ dataRowsOf rows = drop 1 rows).
Proof.
  split_and!.
  - intros lines i tl j f Hs. apply scan_spec in Hs. lia.
  - intros rows k Hk. apply separatorIndex_found in Hk. tauto.
  - exact separatorIndex_range.
  - intros rows Hno. pose proof (separatorIndex_none rows Hno) as Hs.
    split; [done|]. unfold dataRowsOf. now rewrite Hs.
Qed.

Lemma table_detection_bounded_witness :
  separatorIndex
    [js "h|h"; js "a|1"; js "b|2"; js "c|3"; js "d|4"; js "-|-"; js "e|5"]
  = (-1)%Z
  /\ dataRowsOf
       [js "h|h"; js "a|1"; js "b|2"; js "c|3"; js "d|4"; js "-|-"; js "e|5"]
     = [js "a|1"; js "b|2"; js "c|3"; js "d|4"; js "-|-"; js "e|5"].
Proof.
  apply (proj2 (proj2 (proj2 table_detection_bounded))
           [js "h|h"; js "a|1"; js "b|2"; js "c|3"; js "d|4"; js "-|-";
            js "e|5"]).
  intros k Hk.
  destruct k as [|[|[|[|[|k]]]]]; [lia|reflexivity..|lia].
Defined.

(** C4, as the code has it -- a block collected from a pipe line without a
    separator, of at least two lines whose pipe counts are all within one of
    the first line's, is rendered as a table when the first line has at
    least two pipes: its first line gives the header cells, the other lines
    the data rows, and the walk resumes behind the block. *)
Theorem table_without_separator (text : jsstring) (i j : nat)
    (tableLines : list jsstring) :
  let lines := split Ch.nl text in
  includes Ch.pipe (nth i lines []) = true ->
  scan lines i = (tableLines, j, false) ->
  2 <= length tableLines ->
  allSimilar (map pipeCount tableLines) (pipeCount (nth 0 tableLines []))
  = true ->
  2 <= pipeCount (nth 0 tableLines []) ->
  tableAt lines i
  = Some (tableTemplate (join [] (headerCellList (nth i lines [])))
            (join [] (bodyRowList (drop 1 tableLines))), j).
Proof.
  intros lines Hpipe Hscan Hlen Hsim Hfirst.
  destruct (scan_spec _ _ _ _ _ Hscan)
    as (_ & _ & _ & added & -> & Hadded & Hplain).
  specialize (Hplain eq_refl).
  simpl nth in Hsim, Hfirst.
  assert (Hfree : Forall (fun l => includes Ch.nl l = false)
                    (nth i lines [] :: added)).
  { constructor; [apply nth_free, split_free|].
    eapply Forall_impl; [exact Hadded|]. apply lineOf_free. }
  assert (Hnb : Forall (fun l => truthy (trim l) = true)
                  (nth i lines [] :: added)).
  { constructor; [now apply (includes_nonblank Ch.pipe)|].
    eapply Forall_impl; [exact Hplain|]. intros l [Hl _].
    now apply (includes_nonblank Ch.pipe). }
  assert (Hconv : convertMarkdownTable (join [Ch.nl] (nth i lines [] :: added))
                  = Some (tableTemplate
                            (join [] (headerCellList (nth i lines [])))
                            (join [] (bodyRowList added)))).
  { rewrite convertMarkdownTable_lines, filter_all by done.
    rewrite convertRows_no_separator; [|done|].
    - simpl nth. pose proof (parseRow_length (nth i lines [])).
      assert ((0 <? length (parseRow (nth i lines []))) = true) as ->
        by (apply Nat.ltb_lt; lia).
      reflexivity.
    - intros k Hk. destruct k as [|k]; [lia|]. simpl.
      destruct (nth_in_or_default k added []) as [Hin| ->]; [|done].
      rewrite Forall_forall in Hplain.
      apply list_elem_of_In in Hin. now destruct (Hplain _ Hin). }
  unfold tableAt. fold lines. rewrite Hpipe, Hscan.
  unfold tableWithSeparator, tableWithoutSeparator. simpl negb. cbn [andb].
  assert ((2 <=? length (nth i lines [] :: added)) = true) as ->
    by (apply Nat.leb_le; lia).
  simpl nth. rewrite Hsim.
  assert ((2 <=? pipeCount (nth i lines [])) = true) as ->
    by (apply Nat.leb_le; lia).
  cbn [andb]. now rewrite Hconv.
Qed.

Lemma table_without_separator_witness :
  tableAt (split Ch.nl (js "a|b|" ++ [Ch.nl] ++ js "c|d|")) 0
  = Some (tableTemplate (js "<th>a</th><th>b</th>")
            (js "<tr><td>c</td><td>d</td></tr>"), 2).
Proof.
  apply (table_without_separator (js "a|b|" ++ [Ch.nl] ++ js "c|d|") 0 2
           [js "a|b|"; js "c|d|"]);
    [reflexivity | reflexivity | simpl; lia | reflexivity
    | vm_compute; lia].
Defined.

(** C4, as stated, fails: two lines of one pipe each have similar pipe
    counts, yet the block is not rendered as a table; each line becomes a
    plain paragraph. *)
Lemma headerless_table_needs_two_pipes :
  let text := js "a|b" ++ [Ch.nl] ++ js "c|d" in
  let lines := split Ch.nl text in
  scan lines 0 = ([js "a|b"; js "c|d"], 2, false)
  /\ allSimilar (map pipeCount [js "a|b"; js "c|d"]) (pipeCount (js "a|b"))
     = true
  /\ tableAt lines 0 = None
  /\ formatMessage text
     = divOpen "regular-line" ++ js "a|b" ++ divClose
       ++ divOpen "regular-line" ++ js "c|d" ++ divClose.
Proof. vm_compute. repeat split. Qed.

(** C3, as the code has it -- for a block collected from a pipe line in
    which the separator is the second collected line and which has at least
    three lines: the first line is the header, and the fragment holds as
    many [<th>] as the header line has pipe-delimited cells; the data rows
    are taken from the lines behind the separator, one [<tr>] in the body
    for each such line that has a pipe and at least one cell (blank lines
    and lines without a cell give no row), so that the fragment holds one
    [<tr>] for the header and one for each data row, or for the placeholder
    row when there is none; and this table is emitted whenever the header
    has a cell. *)
Theorem table_with_separator (text : jsstring) (i j : nat)
    (tableLines : list jsstring) :
  let lines := split Ch.nl text in
  let header := nth i lines [] in
  let dataLines := drop 2 tableLines in
  let bodyRows := join [] (bodyRowList dataLines) in
  let html := tableTemplate (join [] (headerCellList header)) bodyRows in
  includes Ch.pipe header = true ->
  scan lines i = (tableLines, j, true) ->
  3 <= length tableLines ->
  sepLike (nth 1 tableLines []) = true ->
  nth 0 tableLines [] = header
  /\ tableAt lines i
     = (if 0 <? length (parseRow header) then Some (html, j) else None)
  /\ bodyRowList dataLines = map rowHtml (List.filter hasCells dataLines)
  /\ countOcc (js "<th>") html = length (parseRow header)
  /\ countOcc (js "<tr>") bodyRows = length (List.filter hasCells dataLines)
  /\ countOcc (js "<tr>") html
     = 1 + Nat.max 1 (length (List.filter hasCells dataLines)).
Proof.
  intros lines header dataLines bodyRows html Hpipe Hscan Hlen Hsep.
  destruct (scan_spec _ _ _ _ _ Hscan)
    as (_ & _ & _ & added & Htl & Hadded & _).
  fold header in Htl. subst tableLines.
  destruct added as [|sep rest]; [discriminate|].
  simpl nth in Hsep. subst html bodyRows dataLines.
  change (drop 2 (header :: sep :: rest)) with rest.
  destruct (countOcc_tableTemplate (parseRow header) rest) as [Hth Htr].
  split_and!.
  - reflexivity.
  - assert (Hfree : Forall (fun l => includes Ch.nl l = false)
                      (header :: sep :: rest)).
    { constructor; [apply nth_free, split_free|].
      eapply Forall_impl; [exact Hadded|]. apply lineOf_free. }
    assert (Hsp : includes Ch.pipe sep = true)
      by (unfold sepLike in Hsep; now apply andb_prop in Hsep as [? _]).
    assert (Hconv :
             convertMarkdownTable (join [Ch.nl] (header :: sep :: rest))
             = if 0 <? length (parseRow header) then
                 Some (tableTemplate (join [] (headerCellList header))
                         (join [] (bodyRowList rest)))
               else None).
    { rewrite convertMarkdownTable_lines by done.
      cbn [List.filter].
      rewrite (includes_nonblank Ch.pipe header),
        (includes_nonblank Ch.pipe sep) by done.
      rewrite convertRows_separator_second; [|simpl; lia|done].
      change (drop 2 (header :: sep
                        :: List.filter (fun l => truthy (trim l)) rest))
        with (List.filter (fun l : jsstring => truthy (trim l)) rest).
      rewrite bodyRowList_nonblank. reflexivity. }
    unfold tableAt. fold lines. fold header. rewrite Hpipe, Hscan.
    unfold tableWithSeparator, tableWithoutSeparator. cbn [andb negb].
    assert ((3 <=? length (header :: sep :: rest)) = true) as ->
      by (apply Nat.leb_le; lia).
    rewrite Hconv. now destruct (0 <? length (parseRow header)).
  - apply bodyRowList_hasCells.
  - exact Hth.
  - rewrite <- (app_nil_r (join [] (bodyRowList rest))).
    rewrite countOcc_bodyRows. simpl. lia.
  - exact Htr.
Qed.

Lemma table_with_separator_witness :
  tableAt
    (split Ch.nl
       (js "| A | B |" ++ [Ch.nl] ++ js "|---|---|" ++ [Ch.nl]
        ++ js "| 1 | 2 |")) 0
  = Some (tableTemplate (js "<th>A</th><th>B</th>")
            (js "<tr><td>1</td><td>2</td></tr>"), 3).
Proof.
  apply (table_with_separator
           (js "| A | B |" ++ [Ch.nl] ++ js "|---|---|" ++ [Ch.nl]
            ++ js "| 1 | 2 |") 0 3
           [js "| A | B |"; js "|---|---|"; js "| 1 | 2 |"]);
    [reflexivity | reflexivity | simpl; lia | reflexivity].
Defined.

(** C3, as stated, fails.  A blank line inside the run is a collected line
    that is no separator, and it gives no row: three such lines after the
    header, two data rows.  And when the separator is the sixth collected
    line the converter, which looks for it among the rows 1 to 4 only, drops
    nothing: the table has six data rows, the separator among them, for five
    lines after the header that are not separators. *)
Lemma table_rows_differ_from_lines :
  (let text :=
     js "a|b" ++ [Ch.nl] ++ js "-|-" ++ [Ch.nl] ++ js "c|d" ++ [Ch.nl]
     ++ [Ch.nl] ++ js "e|f" in
   let lines := split Ch.nl text in
   let bodyRows := join [] (bodyRowList (drop 2 lines)) in
   scan lines 0 = (lines, 5, true)
   /\ tableAt lines 0
      = Some (tableTemplate (join [] (headerCellList (js "a|b"))) bodyRows, 5)
   /\ bodyRows = js "<tr><td>c</td><td>d</td></tr><tr><td>e</td><td>f</td></tr>"
   /\ countOcc (js "<tr>") bodyRows = 2
   /\ length (List.filter (fun l => negb (sepLike l)) (drop 1 lines)) = 3)
  /\ (let text :=
        js "h|h" ++ [Ch.nl] ++ js "a|1" ++ [Ch.nl] ++ js "b|2" ++ [Ch.nl]
        ++ js "c|3" ++ [Ch.nl] ++ js "d|4" ++ [Ch.nl] ++ js "-|-" ++ [Ch.nl]
        ++ js "e|5" in
      let lines := split Ch.nl text in
      let bodyRows := join [] (bodyRowList (drop 1 lines)) in
      scan lines 0 = (lines, 7, true)
      /\ tableAt lines 0
         = Some (tableTemplate (join [] (headerCellList (js "h|h"))) bodyRows,
                 7)
      /\ countOcc (js "<tr>") bodyRows = 6
      /\ length (List.filter (fun l => negb (sepLike l)) (drop 1 lines)) = 5
      /\ In (js "<tr><td>-</td><td>-</td></tr>") (bodyRowList (drop 1 lines))).
Proof. vm_compute. repeat split. auto 10. Qed.

(** ** Pieces of the text *)

Lemma isInfix_refl (s : jsstring) : isInfix s s.
Proof. exists [], []. now rewrite app_nil_r. Qed.

Lemma isInfix_nil (s : jsstring) : isInfix [] s.
Proof. now exists [], s. Qed.

Lemma isInfix_trans (a b c : jsstring) :
  isInfix a b -> isInfix b c -> isInfix a c.
Proof.
  intros (x & y & ->) (x' & y' & ->).
  exists (x' ++ x), (y ++ y'). now rewrite <- !app_assoc.
Qed.

Lemma isInfix_suffix (a s : jsstring) : isInfix s (a ++ s).
Proof. exists a, []. now rewrite app_nil_r. Qed.

Lemma isInfix_prefix (s b : jsstring) : isInfix s (s ++ b).
Proof. now exists [], b. Qed.

Lemma isInfix_cons c (a s : jsstring) : isInfix a s -> isInfix a (c :: s).
Proof. intros (x & y & ->). now exists (c :: x), y. Qed.

Lemma trimStart_suffix (s : jsstring) : exists a, s = a ++ trimStart s.
Proof.
  induction s as [|c s [a IH]]; [now exists []|]. simpl.
  destruct (isWhiteSpace c); [|now exists []].
  exists (c :: a). simpl. now f_equal.
Qed.

Lemma trimEnd_prefix (s : jsstring) : exists b, s = trimEnd s ++ b.
Proof.
  unfold trimEnd. destruct (trimStart_suffix (rev s)) as [a Ha].
  exists (rev a). rewrite <- rev_app_distr, <- Ha. now rewrite rev_involutive.
Qed.

Lemma isInfix_trim (s : jsstring) : isInfix (trim s) s.
Proof.
  unfold trim. destruct (trimStart_suffix s) as [a Ha].
  destruct (trimEnd_prefix (trimStart s)) as [b Hb].
  exists a, b. now rewrite <- Hb.
Qed.

Lemma isInfix_drop n (s : jsstring) : isInfix (drop n s) s.
Proof. rewrite <- (take_drop n s) at 2. apply isInfix_suffix. Qed.

Lemma isInfix_take n (s : jsstring) : isInfix (take n s) s.
Proof. rewrite <- (take_drop n s) at 2. apply isInfix_prefix. Qed.

Lemma isInfix_substringFrom (s : jsstring) a : isInfix (substringFrom s a) s.
Proof.
  unfold substringFrom, substring. cbv zeta.
  eapply isInfix_trans; [apply isInfix_take|apply isInfix_drop].
Qed.

Lemma isInfix_dropHashes (s : jsstring) : isInfix (dropHashes s) s.
Proof.
  induction s as [|c s IH]; [apply isInfix_refl|]. simpl.
  destruct (c =? Ch.hash)%N; [now apply isInfix_cons|apply isInfix_refl].
Qed.

Lemma isInfix_trimStart (s : jsstring) : isInfix (trimStart s) s.
Proof. destruct (trimStart_suffix s) as [a Ha]. rewrite Ha at 2.
       apply isInfix_suffix. Qed.

Lemma isInfix_stripHeaderMarks (s : jsstring) :
  isInfix (stripHeaderMarks s) s.
Proof.
  unfold stripHeaderMarks. destruct (startsWith _ s); [|apply isInfix_refl].
  eapply isInfix_trans; [apply isInfix_trimStart|apply isInfix_dropHashes].
Qed.

Lemma isInfix_stripRing (s : jsstring) : isInfix (stripRing s) s.
Proof.
  destruct s as [|c s]; [apply isInfix_refl|]. simpl.
  destruct (c =? Ch.ring)%N; [|apply isInfix_refl].
  apply isInfix_cons, isInfix_trimStart.
Qed.

Lemma split_hd_prefix sep (s : jsstring) :
  exists y, s = hd [] (split sep s) ++ y.
Proof.
  induction s as [|c s [y IH]]; [now exists []|]. simpl.
  destruct (c =? sep)%N; [now exists (c :: s)|].
  pose proof (split_nonempty sep s) as Hne.
  destruct (split sep s) as [|p0 ps]; [done|].
  exists y. simpl in *. now f_equal.
Qed.

Lemma isInfix_split sep (s p : jsstring) :
  In p (split sep s) -> isInfix p s.
Proof.
  revert p. induction s as [|c s IH]; intros p; simpl.
  - intros [<-|[]]. apply isInfix_refl.
  - destruct (c =? sep)%N.
    + intros [<-|Hp]; [apply isInfix_nil|]. apply isInfix_cons. auto.
    + pose proof (split_nonempty sep s) as Hne.
      destruct (split_hd_prefix sep s) as [y Hy].
      destruct (split sep s) as [|p0 ps]; [done|].
      intros [<-|Hp].
      * simpl in Hy. exists [], y. simpl. now f_equal.
      * apply isInfix_cons, IH. now right.
Qed.

Lemma isInfix_line (text : jsstring) j :
  isInfix (nth j (split Ch.nl text) []) text.
Proof.
  destruct (nth_in_or_default j (split Ch.nl text) []) as [Hin| ->].
  - now apply (isInfix_split Ch.nl).
  - apply isInfix_nil.
Qed.

Lemma In_tail {A} (x : A) l : In x (tail l) -> In x l.
Proof. destruct l; simpl; auto. Qed.

Lemma In_removelast {A} (x : A) l : In x (removelast l) -> In x l.
Proof.
  induction l as [|y [|z l] IH]; simpl in *; [done|done|].
  intros [<-|Hx]; auto.
Qed.

(** The cells of a row are pieces of the row. *)
Lemma isInfix_cell (row cell : jsstring) :
  In cell (parseRow row) -> isInfix cell row.
Proof.
  unfold parseRow. cbv zeta.
  set (b1 := _ && _ && startsWith _ _). clearbody b1.
  set (parts1 := shiftIf b1 _).
  set (b2 := _ && _ && endsWith _ _). clearbody b2.
  intros Hc.
  assert (Hin : In cell (map trim (split Ch.pipe row))).
  { destruct b2; simpl in Hc; [apply In_removelast in Hc|];
      unfold parts1 in Hc; destruct b1; simpl in Hc; auto using In_tail. }
  apply in_map_iff in Hin as (p & <- & Hp).
  eapply isInfix_trans; [apply isInfix_trim|]. now apply (isInfix_split Ch.pipe).
Qed.

(** ** Renderings *)

Lemma renders_app text (a b : jsstring) :
  renders text a -> renders text b -> renders text (a ++ b).
Proof.
  induction 1 as [|t s Ht Hs IH|c s Hc Hs IH|c s Hc Hs IH]; intros Hb.
  - done.
  - rewrite <- app_assoc. apply renders_markup; auto.
  - rewrite <- app_assoc. apply renders_escaped; auto.
  - rewrite <- app_assoc. apply renders_bold; auto.
Qed.

Lemma renders_concat text (l : list jsstring) :
  Forall (renders text) l -> renders text (concat l).
Proof.
  induction 1; simpl; [constructor|]. now apply renders_app.
Qed.

Lemma renders_markup_alone text (t : jsstring) :
  In t formatterMarkup -> renders text t.
Proof.
  intros Ht. rewrite <- (app_nil_r t). apply renders_markup; [done|constructor].
Qed.

Lemma renders_wrapped_bold text (open content : jsstring) :
  In open formatterMarkup -> isInfix content text ->
  renders text (open ++ bold (escapeHtml content) ++ divClose).
Proof.
  intros Ho Hc. apply renders_markup; [done|].
  apply renders_bold; [done|]. apply renders_markup_alone. markup_in.
Qed.

Lemma renders_wrapped_escaped text (open content : jsstring) :
  In open formatterMarkup -> isInfix content text ->
  renders text (open ++ escapeHtml content ++ divClose).
Proof.
  intros Ho Hc. apply renders_markup; [done|].
  apply renders_escaped; [done|]. apply renders_markup_alone. markup_in.
Qed.

Lemma renders_formatLine text (line : jsstring) :
  isInfix line text -> Forall (renders text) (formatLine line).
Proof.
  intros Hline.
  assert (Ht : isInfix (trim line) text)
    by (eapply isInfix_trans; [apply isInfix_trim|done]).
  assert (Hsub : forall c, isInfix c (trim line) -> isInfix (trim c) text).
  { intros c Hc. eapply isInfix_trans; [apply isInfix_trim|].
    eapply isInfix_trans; [exact Hc|exact Ht]. }
  unfold formatLine. cbv zeta.
  repeat match goal with
         | |- Forall _ (if ?b then _ else _) => destruct b
         end;
    try solve [constructor];
    (constructor; [|constructor]);
    first [ apply renders_wrapped_bold; [markup_in|]
          | apply renders_wrapped_escaped; [markup_in|]
          | apply renders_markup_alone; markup_in ];
    first [ exact Ht
          | apply Hsub;
            first [ apply isInfix_stripHeaderMarks
                  | apply isInfix_substringFrom
                  | apply isInfix_stripRing ] ].
Qed.

Lemma renders_th text (cell : jsstring) :
  isInfix cell text -> renders text (cellHtml "th" cell).
Proof.
  intros Hc.
  change (cellHtml "th" cell)
    with (js "<th>" ++ bold (escapeHtml cell) ++ js "</th>").
  apply renders_markup; [markup_in|]. apply renders_bold; [done|].
  apply renders_markup_alone. markup_in.
Qed.

Lemma renders_td text (cell : jsstring) :
  isInfix cell text -> renders text (cellHtml "td" cell).
Proof.
  intros Hc.
  change (cellHtml "td" cell)
    with (js "<td>" ++ bold (escapeHtml cell) ++ js "</td>").
  apply renders_markup; [markup_in|]. apply renders_bold; [done|].
  apply renders_markup_alone. markup_in.
Qed.

(** A row whose cells are pieces of the text. *)
Lemma renders_headerCells text (row : jsstring) :
  Forall (fun c => isInfix c text) (parseRow row) ->
  renders text (join [] (headerCellList row)).
Proof.
  intros Hcells. rewrite join_nil. unfold headerCellList.
  apply renders_concat, Forall_map.
  eapply Forall_impl; [exact Hcells|]. intros cell. apply renders_th.
Qed.

Lemma renders_rowHtml text (row : jsstring) :
  Forall (fun c => isInfix c text) (parseRow row) ->
  renders text (rowHtml row).
Proof.
  intros Hcells. unfold rowHtml. destruct (truthy _); [|constructor].
  apply renders_markup; [markup_in|]. apply renders_app.
  - rewrite join_nil. apply renders_concat, Forall_map.
    eapply Forall_impl; [exact Hcells|]. intros cell. apply renders_td.
  - apply renders_markup_alone. markup_in.
Qed.

Lemma renders_bodyRows text (rows : list jsstring) :
  Forall (fun row => Forall (fun c => isInfix c text) (parseRow row)) rows ->
  renders text (join [] (bodyRowList rows)).
Proof.
  intros Hrows. rewrite join_nil, bodyRowList_hasCells.
  apply renders_concat, Forall_map, Forall_forall.
  intros row Hrow. apply list_elem_of_In, filter_In in Hrow as [Hrow _].
  rewrite Forall_forall in Hrows.
  apply renders_rowHtml, Hrows. now apply list_elem_of_In.
Qed.

Lemma tableTemplate_pieces (headerCells bodyRows : jsstring) :
  tableTemplate headerCells bodyRows
  = tplHead ++ headerCells ++ tplMid
    ++ (if truthy bodyRows then bodyRows else noDataRow) ++ tplFoot.
Proof. reflexivity. Qed.

Lemma renders_tableTemplate text (headerCells bodyRows : jsstring) :
  renders text headerCells -> renders text bodyRows ->
  renders text (tableTemplate headerCells bodyRows).
Proof.
  intros Hh Hb. rewrite tableTemplate_pieces.
  apply renders_markup; [markup_in|]. apply renders_app; [done|].
  apply renders_markup; [markup_in|]. apply renders_app.
  - destruct (truthy bodyRows); [done|].
    apply renders_markup_alone. markup_in.
  - apply renders_markup_alone. markup_in.
Qed.

(** The converter on rows whose cells are pieces of the text. *)
Lemma renders_convertRows text (rows : list jsstring) html :
  Forall (fun row => Forall (fun c => isInfix c text) (parseRow row)) rows ->
  convertRows rows = Some html -> renders text html.
Proof.
  intros Hrows. unfold convertRows.
  destruct (length rows <? 2) eqn:Hlen; [discriminate|].
  destruct (negb _); [discriminate|]. intros [= <-].
  apply renders_tableTemplate.
  - apply renders_headerCells.
    apply Nat.ltb_ge in Hlen.
    destruct rows as [|row rows]; [simpl in Hlen; lia|]. simpl.
    now apply Forall_cons in Hrows as [? _].
  - apply renders_bodyRows. unfold dataRowsOf, slice.
    destruct (0 <? separatorIndex rows)%Z; now apply Forall_drop.
Qed.

Lemma parseRow_cells_of_line text (l : jsstring) :
  isInfix l text -> Forall (fun c => isInfix c text) (parseRow l).
Proof.
  intros Hl. apply Forall_forall. intros c Hc.
  apply list_elem_of_In in Hc.
  apply (isInfix_trans c l text); [now apply isInfix_cell|done].
Qed.

(** The rows of a block of lines of the text have the cells of these
    lines. *)
Lemma tableRows_cells text (L : list jsstring) :
  Forall (fun l => includes Ch.nl l = false) L ->
  Forall (fun l => isInfix l text) L ->
  Forall (fun row => Forall (fun c => isInfix c text) (parseRow row))
    (tableRows (join [Ch.nl] L)).
Proof.
  intros Hfree HL.
  pose proof (tableRows_join L Hfree) as Hrows.
  assert (HL' : Forall (fun l => isInfix l text)
                  (List.filter (fun l => truthy (trim l)) L)).
  { apply Forall_forall. intros l Hl.
    apply list_elem_of_In, filter_In in Hl as [Hl _].
    rewrite Forall_forall in HL. now apply HL, list_elem_of_In. }
  revert Hrows HL'.
  generalize (List.filter (fun l => truthy (trim l)) L).
  generalize (tableRows (join [Ch.nl] L)).
  induction l as [|row rows IH]; intros [|l L'] E HL'; simpl in E;
    try discriminate; [constructor|].
  injection E as Erow Erows.
  apply Forall_cons in HL' as [Hl HL'].
  constructor; [|now apply (IH L')].
  rewrite (parseRow_trim_eq row l Erow).
  now apply parseRow_cells_of_line.
Qed.

Lemma renders_tableAt (text : jsstring) i html j :
  tableAt (split Ch.nl text) i = Some (html, j) -> renders text html.
Proof.
  unfold tableAt.
  destruct (includes Ch.pipe (nth i (split Ch.nl text) [])); [|discriminate].
  destruct (scan (split Ch.nl text) i) as [[tl j'] f] eqn:Hscan.
  destruct (scan_spec _ _ _ _ _ Hscan)
    as (_ & _ & _ & added & -> & Hadded & _).
  assert (Hfree : Forall (fun l => includes Ch.nl l = false)
                    (nth i (split Ch.nl text) [] :: added)).
  { constructor; [apply nth_free, split_free|].
    eapply Forall_impl; [exact Hadded|]. apply lineOf_free. }
  assert (Hpieces : Forall (fun l => isInfix l text)
                      (nth i (split Ch.nl text) [] :: added)).
  { constructor; [apply isInfix_line|].
    eapply Forall_impl; [exact Hadded|]. intros l [k ->]. apply isInfix_line. }
  pose proof (tableRows_cells text _ Hfree Hpieces) as Hrows.
  assert (Hconv : forall h,
             convertMarkdownTable
               (join [Ch.nl] (nth i (split Ch.nl text) [] :: added)) = Some h ->
             renders text h)
    by (intros h; apply renders_convertRows, Hrows).
  destruct (tableWithSeparator _ f) as [h|] eqn:H1.
  - intros [= <- <-]. unfold tableWithSeparator in H1.
    destruct (f && _); [|discriminate]. now apply Hconv.
  - destruct (tableWithoutSeparator _ f) as [h|] eqn:H2; [|discriminate].
    intros [= <- <-]. unfold tableWithoutSeparator in H2.
    destruct (negb f && _); [|discriminate].
    destruct (allSimilar _ _ && _); [|discriminate]. now apply Hconv.
Qed.

Lemma processLoop_renders (text : jsstring) fuel : forall i parts,
  Forall (partRenders text) parts ->
  Forall (partRenders text) (processLoop fuel (split Ch.nl text) i parts).
Proof.
  induction fuel as [|fuel IH]; intros i parts Hp; simpl; [done|].
  destruct (i <? length (split Ch.nl text)); [|done].
  destruct (tableAt (split Ch.nl text) i) as [[html j]|] eqn:Ht.
  - apply IH, Forall_app. split; [done|].
    constructor; [|constructor]. simpl. eapply renders_tableAt, Ht.
  - apply IH, Forall_app. split; [done|].
    constructor; [|constructor]. simpl. apply isInfix_line.
Qed.

Lemma formatPart_renders text parts idx :
  Forall (partRenders text) parts ->
  Forall (renders text) (formatPart parts idx).
Proof.
  intros Hp. unfold formatPart.
  destruct (nth_error parts idx) as [[content|line]|] eqn:Hn.
  - assert (Hc : renders text content).
    { apply nth_error_In in Hn. rewrite Forall_forall in Hp.
      apply list_elem_of_In in Hn. apply (Hp _ Hn). }
    assert (Hbr : renders text br) by (apply renders_markup_alone; markup_in).
    repeat match goal with
           | |- context [if ?b then [br] else []] => destruct b
           end; simpl;
      repeat first [apply Forall_nil_2 | apply Forall_cons_2; [assumption|]].
  - apply renders_formatLine.
    apply nth_error_In in Hn. rewrite Forall_forall in Hp.
    apply list_elem_of_In in Hn. apply (Hp _ Hn).
  - constructor.
Qed.

(** The whole output is markup of the formatter and escaped pieces of the
    text. *)
Lemma formatMessage_renders (text : jsstring) :
  renders text (formatMessage text).
Proof.
  unfold formatMessage. destruct (negb (truthy text)); [constructor|].
  rewrite join_nil. apply renders_concat. unfold formatParts.
  apply Forall_concat, Forall_map, Forall_forall. intros idx _.
  apply formatPart_renders, processLoop_renders. constructor.
Qed.

Lemma formatterMarkup_clean :
  forallb (cleanb 400) formatterMarkup = true.
Proof. vm_compute. reflexivity. Qed.

Lemma renders_clean text (s : jsstring) : renders text s -> clean s.
Proof.
  pose proof formatterMarkup_clean as Hall. rewrite forallb_forall in Hall.
  induction 1 as [|t s Ht Hs IH|c s Hc Hs IH|c s Hc Hs IH].
  - constructor.
  - apply clean_app; [|done]. apply (cleanb_sound 400). now apply Hall.
  - apply clean_app; [apply clean_escapeHtml|done].
  - apply clean_app; [apply clean_bold_escapeHtml|done].
Qed.


(** ** The identifier a mount renders *)

Section MountIds.
Context {dom : DomApi}.

(** The walk over the scripts adds no chart container. *)
Lemma forEachScript_charts originalId uid scripts :
  forall children found id st,
    In (ChartDiv id st)
      (fst (fst (forEachScript originalId uid scripts children found))) ->
    In (ChartDiv id st) children.
Proof.
  induction scripts as [|sc scripts IH]; intros children found id st;
    cbn [forEachScript]; [done|].
  destruct (negb (truthy (src sc)) && truthy (textContent sc)); [|apply IH].
  destruct (runScript originalId uid (textContent sc)) as [| |content|msg].
  - done.
  - apply IH.
  - intros Hin%IH. apply in_app_iff in Hin as [Hin|[Hin|[]]]; [done|].
    discriminate.
  - intros Hin%IH. unfold setInnerHTML in Hin.
    destruct (truthy (errRender msg)); [|destruct Hin].
    destruct Hin as [Hin|[]]. discriminate.
Qed.

(** Every chart container a render leaves in the mount point is the
    fresh one: it carries the id of the first element with an id of the
    markup, a dash and the index of the message. *)
Lemma mount_chart_id (plotlyAt : nat -> bool) (attached : bool)
    (html : jsstring) (messageIndex : N) (prev children : list node)
    (o : outcome) id st :
  truthy html = true ->
  mount plotlyAt attached html messageIndex (Some prev) = (Some children, o) ->
  In (ChartDiv id st) children ->
  exists bodyContent scripts chartDiv,
    bodyAndScripts html = (Some bodyContent, scripts)
    /\ firstWithId bodyContent = Some chartDiv
    /\ id = uniqueId (el_id chartDiv) messageIndex.
Proof.
  intros Hhtml. unfold mount, renderVisualization, renderAfterWait.
  rewrite Hhtml. cbn [negb]. cbv iota zeta.
  assert (Herr : forall msg, ~ In (ChartDiv id st) (setInnerHTML msg)).
  { intros msg. unfold setInnerHTML. destruct (truthy msg); [|intros []].
    intros [Hin|[]]. discriminate. }
  destruct (negb (plotlyAt (waitForPlotly plotlyAt))).
  { destruct attached; [|discriminate]. intros [= <- <-] Hin.
    now destruct (Herr _ Hin). }
  destruct attached; [|discriminate].
  destruct (bodyAndScripts html) as [[bodyContent|] scripts] eqn:Hb.
  2:{ intros [= <- <-] Hin. now destruct (Herr _ Hin). }
  destruct (firstWithId bodyContent) as [chartDiv|] eqn:Hc.
  2:{ intros [= <- <-] Hin. now destruct (Herr _ Hin). }
  pose proof (forEachScript_charts (el_id chartDiv)
                (uniqueId (el_id chartDiv) messageIndex) scripts
                (setInnerHTML [] ++ [newChartDiv chartDiv messageIndex])
                false id st) as Hcharts.
  destruct (forEachScript _ _ scripts _ false) as [[children' found] o'].
  cbn [fst] in Hcharts.
  assert (Hfresh : In (ChartDiv id st) children' ->
                   id = uniqueId (el_id chartDiv) messageIndex).
  { intros [Hin|[]]%Hcharts. unfold newChartDiv in Hin. now injection Hin. }
  intros Hm Hin. exists bodyContent, scripts, chartDiv.
  split; [done|]. split; [done|].
  destruct o'.
  - destruct (negb found); injection Hm as <- <-;
      [now destruct (Herr _ Hin)|auto].
  - injection Hm as <- <-. auto.
Qed.

(** C2 -- the identifiers computed for the same source id at two distinct
    message indices differ, in particular at the indices 0 and 1; and they
    are the identifiers that are rendered: every chart container that a
    mount leaves in the mount point carries the identifier computed from
    the first element with an id of its markup and from its message index,
    so two visualizations mounted for messages at distinct indices, with
    the same source element id, never share a rendered element id. *)
Theorem uniqueId_distinct :
  (forall (s : jsstring) (i j : N), i <> j -> uniqueId s i <> uniqueId s j)
  /\ (forall plotlyAt attached (html : jsstring) messageIndex prev children o
             id st,
        truthy html = true ->
        mount plotlyAt attached html messageIndex (Some prev)
        = (Some children, o) ->
        In (ChartDiv id st) children ->
        exists bodyContent scripts chartDiv,
          bodyAndScripts html = (Some bodyContent, scripts)
          /\ firstWithId bodyContent = Some chartDiv
          /\ id = uniqueId (el_id chartDiv) messageIndex)
  /\ (forall plotlyAt1 attached1 (html1 : jsstring) i prev1 children1 o1
             id1 st1 body1 scripts1 chartDiv1
             plotlyAt2 attached2 (html2 : jsstring) j prev2 children2 o2
             id2 st2 body2 scripts2 chartDiv2,
        truthy html1 = true -> truthy html2 = true ->
        mount plotlyAt1 attached1 html1 i (Some prev1) = (Some children1, o1) ->
        mount plotlyAt2 attached2 html2 j (Some prev2) = (Some children2, o2) ->
        bodyAndScripts html1 = (Some body1, scripts1) ->
        firstWithId body1 = Some chartDiv1 ->
        bodyAndScripts html2 = (Some body2, scripts2) ->
        firstWithId body2 = Some chartDiv2 ->
        el_id chartDiv1 = el_id chartDiv2 ->
        i <> j ->
        In (ChartDiv id1 st1) children1 ->
        In (ChartDiv id2 st2) children2 ->
        id1 <> id2).
Proof.
  assert (Hd : forall (s : jsstring) (i j : N),
             i <> j -> uniqueId s i <> uniqueId s j).
  { unfold uniqueId. intros s i j Hij E.
    apply app_inv_head in E. apply app_inv_head in E.
    now apply numberToString_inj in E. }
  split; [exact Hd|]. split.
  - intros plotlyAt attached html messageIndex prev children o id st.
    apply mount_chart_id.
  - intros plotlyAt1 attached1 html1 i prev1 children1 o1 id1 st1
      body1 scripts1 chartDiv1
      plotlyAt2 attached2 html2 j prev2 children2 o2 id2 st2
      body2 scripts2 chartDiv2
      Hh1 Hh2 Hm1 Hm2 Hb1 Hc1 Hb2 Hc2 Hid Hij Hin1 Hin2.
    destruct (mount_chart_id _ _ _ _ _ _ _ _ _ Hh1 Hm1 Hin1)
      as (b1 & s1 & c1 & Hb1' & Hc1' & ->).
    destruct (mount_chart_id _ _ _ _ _ _ _ _ _ Hh2 Hm2 Hin2)
      as (b2 & s2 & c2 & Hb2' & Hc2' & ->).
    rewrite Hb1 in Hb1'. injection Hb1' as <- <-.
    rewrite Hc1 in Hc1'. injection Hc1' as <-.
    rewrite Hb2 in Hb2'. injection Hb2' as <- <-.
    rewrite Hc2 in Hc2'. injection Hc2' as <-.
    rewrite Hid. now apply Hd.
Qed.

End MountIds.

Lemma uniqueId_distinct_witness :
  uniqueId (js "chart") 0 = js "chart-0"
  /\ uniqueId (js "chart") 1 = js "chart-1"
  /\ uniqueId (js "chart") 0 <> uniqueId (js "chart") 1
  /\ mount (dom := sampleDom [plotScript]) (fun _ => true) true
       (js "<html><div id='chart'></div></html>") 0 (Some [])
     = (Some [ChartDiv (js "chart-0") (Sized (js "440px") (js "100%"))],
        Returned)
  /\ mount (dom := sampleDom [plotScript]) (fun _ => true) true
       (js "<html><div id='chart'></div></html>") 1 (Some [])
     = (Some [ChartDiv (js "chart-1") (Sized (js "440px") (js "100%"))],
        Returned)
  /\ js "chart-0" <> js "chart-1".
Proof.
  split; [reflexivity|]. split; [reflexivity|]. split.
  { apply (proj1 (uniqueId_distinct (dom := sampleDom [plotScript]))
             (js "chart") 0%N 1%N).
    discriminate. }
  split; [reflexivity|]. split; [reflexivity|].
  apply (proj2 (proj2 (uniqueId_distinct (dom := sampleDom [plotScript])))
           (fun _ => true) true (js "<html><div id='chart'></div></html>")
           0%N [] [ChartDiv (js "chart-0") (Sized (js "440px") (js "100%"))]
           Returned (js "chart-0") (Sized (js "440px") (js "100%"))
           {| firstWithId := Some chartElement; scriptsIn := [plotScript] |}
           [plotScript] chartElement
           (fun _ => true) true (js "<html><div id='chart'></div></html>")
           1%N [] [ChartDiv (js "chart-1") (Sized (js "440px") (js "100%"))]
           Returned (js "chart-1") (Sized (js "440px") (js "100%"))
           {| firstWithId := Some chartElement; scriptsIn := [plotScript] |}
           [plotScript] chartElement);
    try reflexivity; try discriminate; left; reflexivity.
Defined.

(** * Further properties of the code *)

(** ** escapeHtml *)

Lemma entityOf_chars c d :
  In d (entityOf c) ->
  d <> Ch.lt /\ d <> Ch.gt /\ d <> Ch.dquote /\ d <> Ch.squote.
Proof.
  unfold entityOf. case_char c; simpl; intros Hd;
    repeat (destruct Hd as [<-|Hd]; [repeat split; try discriminate; done|]);
    try done.
Qed.

(** X1 -- None of the four characters [<], [>], the double quote and the
    single quote is left in what [escapeHtml] returns. *)
Theorem escapeHtml_output_safe (s : jsstring) d :
  In d (escapeHtml s) ->
  d <> Ch.lt /\ d <> Ch.gt /\ d <> Ch.dquote /\ d <> Ch.squote.
Proof.
  induction s as [|c s IH]; [simpl; tauto|].
  rewrite escapeHtml_cons, in_app_iff. intros [Hd|Hd]; [|now apply IH].
  now apply (entityOf_chars c).
Qed.

Lemma escapeHtml_output_safe_witness :
  Ch.amp <> Ch.lt /\ Ch.amp <> Ch.gt /\ Ch.amp <> Ch.dquote
  /\ Ch.amp <> Ch.squote.
Proof.
  apply (escapeHtml_output_safe (js "<a href='x'>") Ch.amp).
  vm_compute. auto.
Defined.

Lemma entityOf_inj c d (x y : jsstring) :
  entityOf c ++ x = entityOf d ++ y -> c = d /\ x = y.
Proof.
  unfold entityOf.
  case_char c; case_char d; simpl; intros E; inversion E; subst;
    try done; try (split; [done|assumption]).
Qed.

(** X2 -- [escapeHtml] loses nothing: two texts with the same escaped form are
    the same text. *)
Theorem escapeHtml_injective (s t : jsstring) :
  escapeHtml s = escapeHtml t -> s = t.
Proof.
  revert t. induction s as [|c s IH]; intros [|d t].
  - done.
  - rewrite escapeHtml_cons. intros E. apply (f_equal length) in E.
    rewrite length_app in E. pose proof (entityOf_length d). simpl in E. lia.
  - rewrite escapeHtml_cons. intros E. apply (f_equal length) in E.
    rewrite length_app in E. pose proof (entityOf_length c). simpl in E. lia.
  - rewrite !escapeHtml_cons. intros E.
    apply entityOf_inj in E as [-> E]. f_equal. now apply IH.
Qed.

Lemma escapeHtml_injective_witness :
  js "a<b" = js "a<b".
Proof.
  apply (escapeHtml_injective (js "a<b") (js "a<b")). reflexivity.
Defined.

(** X3 -- A text is returned as it is exactly when it holds none of the five
    metacharacters. *)
Theorem escapeHtml_fixed_iff (s : jsstring) :
  escapeHtml s = s <-> existsb isHtmlSpecial s = false.
Proof.
  split.
  - intros E. destruct (existsb isHtmlSpecial s) eqn:Hs; [|done].
    apply escapeHtml_grows in Hs. rewrite E in Hs. lia.
  - induction s as [|c s IH]; [done|].
    simpl existsb. intros Hs. apply orb_false_elim in Hs as [Hc Hs].
    rewrite escapeHtml_cons, entityOf_plain by done. simpl. now rewrite IH.
Qed.

Lemma entityOf_length_le c : length (entityOf c) <= 6.
Proof. unfold entityOf. case_char c; simpl; lia. Qed.

(** X4 -- Escaping goes piece by piece, and a text grows at most sixfold: the
    escaped form of a concatenation is the concatenation of the escaped forms,
    and its length lies between the length of the text and six times that. *)
Theorem escapeHtml_pieces (a b : jsstring) :
  escapeHtml (a ++ b) = escapeHtml a ++ escapeHtml b
  /\ length a <= length (escapeHtml a) <= 6 * length a.
Proof.
  split; [apply escapeHtml_app|]. split; [apply escapeHtml_length|].
  induction a as [|c a IH]; [simpl; lia|].
  rewrite escapeHtml_cons, length_app. pose proof (entityOf_length_le c).
  simpl length. lia.
Qed.

Lemma escapeHtml_fixed_iff_witness : escapeHtml (js "plain text") = js "plain text".
Proof. apply (proj2 (escapeHtml_fixed_iff (js "plain text"))). reflexivity. Defined.

(** ** Trimming *)

Lemma trimStart_head (s : jsstring) c t :
  trimStart s = c :: t -> isWhiteSpace c = false.
Proof.
  induction s as [|d s IH]; [discriminate|]. simpl.
  destruct (isWhiteSpace d) eqn:Hd; [exact IH|]. now intros [= <- _].
Qed.

Lemma trimStart_snoc_other c (s : jsstring) :
  isWhiteSpace c = false -> trimStart (s ++ [c]) = trimStart s ++ [c].
Proof.
  intros Hc. induction s as [|d s IH]; simpl.
  - now rewrite Hc.
  - destruct (isWhiteSpace d); [exact IH|reflexivity].
Qed.

Lemma trimEnd_cons_other c (s : jsstring) :
  isWhiteSpace c = false -> trimEnd (c :: s) = c :: trimEnd s.
Proof.
  intros Hc. unfold trimEnd. simpl rev.
  rewrite trimStart_snoc_other by done.
  now rewrite rev_app_distr.
Qed.

Lemma trim_head (s : jsstring) c t : trim s = c :: t -> isWhiteSpace c = false.
Proof.
  unfold trim. intros E.
  destruct (trimEnd_prefix (trimStart s)) as [b Hb].
  rewrite E in Hb. simpl in Hb. now apply trimStart_head in Hb.
Qed.

Lemma trim_last (s : jsstring) c t : trim s = t ++ [c] -> isWhiteSpace c = false.
Proof.
  unfold trim, trimEnd. intros E. apply (f_equal (@rev N)) in E.
  rewrite rev_involutive, rev_app_distr in E. simpl in E.
  now apply trimStart_head in E.
Qed.

Lemma trim_fixed (s : jsstring) :
  (forall c t, s = c :: t -> isWhiteSpace c = false) ->
  (forall c t, s = t ++ [c] -> isWhiteSpace c = false) ->
  trim s = s.
Proof.
  intros Hh Hl. destruct s as [|c s]; [reflexivity|].
  unfold trim. simpl trimStart. rewrite (Hh c s) by done.
  unfold trimEnd.
  destruct (rev (c :: s)) as [|d r] eqn:Hr.
  - apply (f_equal (@rev N)) in Hr. now rewrite rev_involutive in Hr.
  - assert (Hs : c :: s = rev r ++ [d]).
    { apply (f_equal (@rev N)) in Hr. now rewrite rev_involutive in Hr. }
    simpl trimStart. rewrite (Hl d (rev r)) by done. simpl. now rewrite Hs.
Qed.

Lemma trim_idem (s : jsstring) : trim (trim s) = trim s.
Proof.
  apply trim_fixed.
  - intros c t. apply trim_head.
  - intros c t. apply trim_last.
Qed.

Lemma isInfix_length (a s : jsstring) : isInfix a s -> length a <= length s.
Proof. intros (x & y & ->). rewrite !length_app. lia. Qed.

Lemma trim_length (s : jsstring) : length (trim s) <= length s.
Proof. apply isInfix_length, isInfix_trim. Qed.

(** ** parseMessage *)

Lemma htmlPatterns_length r (m : jsstring) :
  In r htmlPatterns -> Lang r m -> 12 <= length m.
Proof.
  intros Hr HL. apply Lang_length in HL.
  destruct Hr as [<-|[<-|[<-|[]]]];
    match type of HL with
    | ?n <= _ => let v := eval vm_compute in n in change n with v in HL
    end; lia.
Qed.

(** X5 -- Whatever the text, the three fields of the result agree: html is set
    exactly when [hasVisualization] is; when it is set it is a piece of the
    text of at least 12 characters, and when it is not, the text is returned
    as it came. *)
Theorem parseMessage_fields (t : jsstring) :
  match html (parseMessage t) with
  | Some m =>
      hasVisualization (parseMessage t) = true
      /\ isInfix m t /\ 12 <= length m
  | None =>
      hasVisualization (parseMessage t) = false
      /\ text (parseMessage t) = t
  end.
Proof.
  destruct (htmlMatch t) as [[i m]|] eqn:Hm.
  - destruct (parseMessage_match _ _ _ Hm) as [Hs ->]. simpl.
    split; [done|]. split; [rewrite Hs; by eexists _, _|].
    destruct (htmlMatch_Some _ _ _ Hm) as (r & Hr & He).
    destruct (regexMatch_Some _ _ _ _ He) as (_ & HL & _).
    now apply (htmlPatterns_length r).
  - unfold parseMessage. destruct t as [|c t]; [done|].
    simpl negb. cbv iota. now rewrite Hm.
Qed.

(** X6 -- The prose never grows: what is shown as text, plus the extracted
    markup when there is one, is at most one character longer than the text
    that came in. *)
Theorem parseMessage_length (t : jsstring) :
  length (text (parseMessage t))
  + match html (parseMessage t) with Some m => length m | None => 0 end
  <= length t + 1.
Proof.
  destruct (htmlMatch t) as [[i m]|] eqn:Hm.
  - destruct (parseMessage_match _ _ _ Hm) as [Hs ->]. simpl.
    pose proof (trim_length (take i t)) as H1.
    pose proof (trim_length (drop (i + length m) t)) as H2.
    apply (f_equal length) in Hs. rewrite !length_app in Hs.
    destruct (trim (take i t)) as [|a A];
      destruct (trim (drop (i + length m) t)) as [|b B];
      simpl in *; rewrite ?length_app; simpl; lia.
  - unfold parseMessage. destruct t as [|c t]; [simpl; lia|].
    simpl negb. cbv iota. rewrite Hm. simpl. lia.
Qed.

(** X7 -- When a visualization is found, the prose that is left has no white
    space at either end. *)
Theorem parseMessage_prose_trimmed (t : jsstring) :
  hasVisualization (parseMessage t) = true ->
  trim (text (parseMessage t)) = text (parseMessage t).
Proof.
  destruct (htmlMatch t) as [[i m]|] eqn:Hm.
  - destruct (parseMessage_match _ _ _ Hm) as [_ ->]. simpl. intros _.
    pose proof (trim_idem (take i t)) as HA.
    pose proof (trim_idem (drop (i + length m) t)) as HB.
    pose proof (trim_head (take i t)) as HAh.
    pose proof (trim_last (drop (i + length m) t)) as HBl.
    destruct (trim (take i t)) as [|a A];
      destruct (trim (drop (i + length m) t)) as [|b B]; simpl; try done.
    apply trim_fixed.
    + intros c u [= <- _]. now apply (HAh a A).
    + intros c u E.
      destruct (exists_last (l := b :: B) ltac:(done)) as (B' & d & HB').
      rewrite HB' in E.
      assert (E' : (a :: A ++ Ch.nl :: B') ++ [d] = u ++ [c])
        by (rewrite <- E; simpl; now rewrite <- app_assoc).
      apply app_inj_tail in E' as [_ <-]. now apply (HBl d B').
  - unfold parseMessage. destruct t as [|c t]; [discriminate|].
    simpl negb. cbv iota. rewrite Hm. discriminate.
Qed.

Lemma parseMessage_prose_trimmed_witness :
  trim (text (parseMessage (js " a <html></html> b ")))
  = text (parseMessage (js " a <html></html> b ")).
Proof.
  apply (parseMessage_prose_trimmed (js " a <html></html> b ")).
  vm_compute. reflexivity.
Defined.

(** ** The lazy quantifier *)

(** X8 -- When the first or the second pattern gives the match, the span ends
    with the first closing tag that can end it: the pattern describes no
    shorter prefix of the span. Of two documents in one text, the first is
    extracted, and it alone. *)
Theorem document_span_shortest (text : jsstring) i m r :
  In r [reDoctype; reHtml] ->
  regexMatch r text = Some (i, m) ->
  forall n, n < length m -> ~ Lang r (take n m).
Proof.
  intros Hr He n Hn HL. apply execFrom_Some in He.
  destruct He as (k & n0 & _ & Hk & Hm & -> & _).
  pose proof (matchHere_sound _ _ _ Hm) as [Hle _].
  rewrite length_take in Hn.
  rewrite take_take, Nat.min_l in HL by lia.
  revert HL.
  assert (Hshort : forall (s : jsstring) n,
             matchHere r s = Some n ->
             forall n', n' < n -> ~ Lang r (take n' s)).
  { destruct Hr as [<-|[<-|[]]].
    - apply (chars_shortest (lit_ci "<!DOCTYPE html>")); [reflexivity|].
      apply lazy_shortest. reflexivity.
    - apply (chars_shortest (lit_ci "<html")); [reflexivity|].
      apply lazy_shortest. reflexivity. }
  apply (Hshort _ _ Hm). lia.
Qed.

Lemma document_span_shortest_witness :
  regexMatch reHtml (js "<html>a</html> and <html>b</html>")
  = Some (0, js "<html>a</html>")
  /\ ~ Lang reHtml (take 13 (js "<html>a</html>")).
Proof.
  split; [reflexivity|].
  apply (document_span_shortest (js "<html>a</html> and <html>b</html>") 0
           (js "<html>a</html>") reHtml).
  - right. left. reflexivity.
  - reflexivity.
  - simpl. lia.
Defined.

(** ** parseRow *)

Lemma pipeCount_trimStart (s : jsstring) : pipeCount (trimStart s) = pipeCount s.
Proof.
  unfold pipeCount. induction s as [|c s IH]; [done|].
  cbn [trimStart List.filter].
  destruct (isWhiteSpace c) eqn:Hc; [|done].
  rewrite IH. destruct (N.eqb_spec Ch.pipe c) as [E|]; [|done].
  rewrite <- E in Hc. discriminate.
Qed.

Lemma pipeCount_rev (s : jsstring) : pipeCount (rev s) = pipeCount s.
Proof.
  unfold pipeCount. induction s as [|c s IH]; [done|].
  cbn [rev List.filter].
  rewrite List.filter_app, length_app, IH. cbn [List.filter].
  destruct (Ch.pipe =? c)%N; simpl; lia.
Qed.

Lemma pipeCount_trim (s : jsstring) : pipeCount (trim s) = pipeCount s.
Proof.
  unfold trim, trimEnd.
  now rewrite pipeCount_rev, pipeCount_trimStart, pipeCount_rev,
    pipeCount_trimStart.
Qed.

Lemma pipeCount_app (a b : jsstring) :
  pipeCount (a ++ b) = pipeCount a + pipeCount b.
Proof. unfold pipeCount. now rewrite List.filter_app, length_app. Qed.

Lemma startsWith_pipe (t : jsstring) :
  startsWith [Ch.pipe] t = true -> exists t', t = Ch.pipe :: t'.
Proof.
  destruct t as [|c t]; [discriminate|]. cbn [startsWith].
  rewrite andb_true_r. intros ->%N.eqb_eq. by eexists.
Qed.

Lemma endsWith_pipe (t : jsstring) :
  endsWith [Ch.pipe] t = true -> exists t', t = t' ++ [Ch.pipe].
Proof.
  unfold endsWith. simpl rev. intros (r & Hr)%startsWith_pipe.
  exists (rev r). apply (f_equal (@rev N)) in Hr.
  rewrite rev_involutive in Hr. now rewrite Hr.
Qed.

Lemma nth_last_snoc {A} (Q : list A) x d :
  nth (length (Q ++ [x]) - 1) (Q ++ [x]) d = x.
Proof.
  rewrite length_app. simpl.
  replace (length Q + 1 - 1) with (length Q) by lia.
  rewrite app_nth2 by lia. now rewrite Nat.sub_diag.
Qed.

(** The two border tests of [parseRow] decide alone, once the first piece
    is empty when the row starts with a pipe and the last one when it ends
    with one. *)
Lemma parseRowOf_length (parts : list jsstring) (t : jsstring) :
  (startsWith [Ch.pipe] t = true -> exists P, parts = [] :: P /\ P <> []) ->
  (endsWith [Ch.pipe] t = true -> exists Q, parts = Q ++ [[]] /\ Q <> []) ->
  length (parseRowOf parts t)
  = length parts
    - (if startsWith [Ch.pipe] t then 1 else 0)
    - (if endsWith [Ch.pipe] t then 1 else 0).
Proof.
  intros Hs He. unfold parseRowOf. cbv zeta.
  set (b1 := _ && _ && startsWith _ _).
  assert (Hb1 : b1 = startsWith [Ch.pipe] t).
  { unfold b1. destruct (startsWith [Ch.pipe] t); [|apply andb_false_r].
    destruct Hs as (P & -> & _); done. }
  rewrite Hb1. clear b1 Hb1.
  set (parts1 := shiftIf _ parts).
  assert (H1 : length parts1
               = length parts - (if startsWith [Ch.pipe] t then 1 else 0)).
  { unfold parts1. destruct (startsWith [Ch.pipe] t); simpl; [|lia].
    destruct parts; simpl; lia. }
  assert (He1 : endsWith [Ch.pipe] t = true ->
                exists Q, parts1 = Q ++ [[]]).
  { intros (Q & -> & HQ)%He. unfold parts1.
    destruct (startsWith [Ch.pipe] t); simpl; [|by eexists].
    destruct Q as [|q Q]; [done|]. simpl. by eexists. }
  clearbody parts1.
  set (b2 := _ && _ && endsWith _ _).
  assert (Hb2 : b2 = endsWith [Ch.pipe] t).
  { unfold b2. destruct (endsWith [Ch.pipe] t); [|apply andb_false_r].
    destruct (He1 eq_refl) as (Q & ->). rewrite nth_last_snoc.
    rewrite length_app. simpl. rewrite !andb_true_r.
    apply Nat.ltb_lt. lia. }
  rewrite Hb2. clear b2 Hb2.
  destruct (endsWith [Ch.pipe] t); cbn [popIf].
  - destruct (He1 eq_refl) as (Q & ->).
    rewrite removelast_last. rewrite length_app in H1. cbn [length] in H1.
    destruct (startsWith [Ch.pipe] t); lia.
  - destruct (startsWith [Ch.pipe] t); lia.
Qed.

Lemma filter_true {A} (l : list A) : List.filter (fun _ => true) l = l.
Proof. induction l as [|x l IH]; simpl; [done|]. now rewrite IH. Qed.

Lemma parseRow_length_eq (row : jsstring) :
  length (parseRow row)
  = S (pipeCount row)
    - (if startsWith [Ch.pipe] (trim row) then 1 else 0)
    - (if endsWith [Ch.pipe] (trim row) then 1 else 0).
Proof.
  rewrite parseRow_parseRowOf, <- rowsOf_pipe_trim.
  rewrite parseRowOf_length.
  - unfold rowsOf. simpl negb. cbn [orb].
    rewrite length_map, filter_true.
    now rewrite split_length, pipeCount_trim.
  - intros (t' & ->)%startsWith_pipe. unfold rowsOf. simpl negb. cbn [orb].
    rewrite filter_true. rewrite split_cons_sep. simpl map.
    eexists. split; [reflexivity|].
    pose proof (split_nonempty Ch.pipe t').
    now destruct (split Ch.pipe t').
  - intros (t' & ->)%endsWith_pipe. unfold rowsOf. simpl negb. cbn [orb].
    rewrite filter_true. rewrite split_snoc_sep, map_app. simpl map.
    eexists. split; [reflexivity|].
    pose proof (split_nonempty Ch.pipe t').
    now destruct (split Ch.pipe t').
Qed.

Lemma parseRow_pieces (row cell : jsstring) :
  In cell (parseRow row) -> In cell (map trim (split Ch.pipe row)).
Proof.
  unfold parseRow. cbv zeta.
  set (b1 := _ && _ && startsWith _ _). clearbody b1.
  set (parts1 := shiftIf b1 _).
  set (b2 := _ && _ && endsWith _ _). clearbody b2.
  intros Hc.
  destruct b2; simpl in Hc; [apply In_removelast in Hc|];
    unfold parts1 in Hc; destruct b1; simpl in Hc; auto using In_tail.
Qed.

(** X9 -- The number of cells of a row is the number of its pipes plus one,
    less one for a pipe at the start and one for a pipe at the end of the
    trimmed row; every cell is trimmed and holds no pipe. *)
Theorem parseRow_cells (row : jsstring) :
  length (parseRow row)
  = S (pipeCount row)
    - (if startsWith [Ch.pipe] (trim row) then 1 else 0)
    - (if endsWith [Ch.pipe] (trim row) then 1 else 0)
  /\ Forall (fun cell => trim cell = cell /\ includes Ch.pipe cell = false)
       (parseRow row).
Proof.
  split; [apply parseRow_length_eq|].
  apply Forall_forall. intros cell Hc. apply list_elem_of_In in Hc.
  apply parseRow_pieces, in_map_iff in Hc as (p & <- & Hp).
  split; [apply trim_idem|].
  rewrite includes_trim by done.
  pose proof (split_free Ch.pipe row) as Hf. rewrite Forall_forall in Hf.
  apply Hf. now apply list_elem_of_In.
Qed.

(** X10 -- Pipes around a row are optional: a row that neither starts nor ends
    with a pipe has the same cells when it is put between two pipes. *)
Theorem parseRow_border_pipes (r : jsstring) :
  startsWith [Ch.pipe] (trim r) = false ->
  endsWith [Ch.pipe] (trim r) = false ->
  parseRow ([Ch.pipe] ++ r ++ [Ch.pipe]) = parseRow r.
Proof.
  intros Hs He.
  assert (Hr : parseRow r = map trim (split Ch.pipe r)).
  { unfold parseRow. cbv zeta. rewrite Hs, andb_false_r. simpl shiftIf.
    now rewrite He, andb_false_r. }
  rewrite Hr. clear Hr Hs He.
  assert (Ht : trim ([Ch.pipe] ++ r ++ [Ch.pipe]) = [Ch.pipe] ++ r ++ [Ch.pipe]).
  { apply trim_fixed.
    - now intros c t [= <- _].
    - intros c t E. rewrite app_assoc in E.
      now apply app_inj_tail in E as [_ <-]. }
  unfold parseRow. cbv zeta. rewrite Ht.
  simpl app. rewrite split_cons_sep, split_snoc_sep. simpl map.
  rewrite map_app. simpl map.
  set (P := map trim (split Ch.pipe r)).
  change (Ch.pipe :: r ++ [Ch.pipe]) with ([Ch.pipe] ++ r ++ [Ch.pipe]).
  assert (He : endsWith [Ch.pipe] ([Ch.pipe] ++ r ++ [Ch.pipe]) = true).
  { unfold endsWith. rewrite !rev_app_distr. reflexivity. }
  rewrite He. simpl.
  rewrite nth_last_snoc. rewrite length_app. simpl.
  replace (0 <? length P + 1) with true by (symmetry; apply Nat.ltb_lt; lia).
  simpl. apply removelast_last.
Qed.

Lemma parseRow_border_pipes_witness :
  parseRow ([Ch.pipe] ++ js " a | b " ++ [Ch.pipe]) = parseRow (js " a | b ").
Proof.
  apply (parseRow_border_pipes (js " a | b ")); reflexivity.
Defined.

(** ** convertMarkdownTable *)

Lemma headerCells_truthy (row : jsstring) :
  truthy (join [] (headerCellList row)) = (0 <? length (parseRow row)).
Proof. unfold headerCellList. apply cells_truthy. Qed.

Lemma parseRow_nil_iff (row : jsstring) :
  parseRow row = [] <-> trim row = [Ch.pipe].
Proof.
  split.
  - intros E. apply (f_equal length) in E.
    rewrite parseRow_length_eq in E. cbn [length] in E.
    pose proof (pipeCount_trim row) as Hp.
    destruct (endsWith [Ch.pipe] (trim row)) eqn:He.
    2:{ destruct (startsWith [Ch.pipe] (trim row)) eqn:Hs; [|lia].
        destruct (startsWith_pipe _ Hs) as [t' Ht']. rewrite Ht' in Hp.
        change (pipeCount (Ch.pipe :: t')) with (S (pipeCount t')) in Hp.
        lia. }
    destruct (endsWith_pipe _ He) as [t'' Ht'']. rewrite Ht'' in Hp.
    rewrite pipeCount_app in Hp. change (pipeCount [Ch.pipe]) with 1 in Hp.
    destruct (startsWith [Ch.pipe] (trim row)) eqn:Hs; [|lia].
    destruct (startsWith_pipe _ Hs) as [t' Ht'].
    destruct t'' as [|c t'']; [exact Ht''|].
    rewrite Ht' in Ht''. simpl in Ht''. injection Ht'' as <- ->.
    change (pipeCount (Ch.pipe :: t'')) with (S (pipeCount t'')) in Hp.
    lia.
  - intros E. now rewrite (parseRow_trim_eq row [Ch.pipe]).
Qed.

(** X11 -- The converter gives [null] in two cases only: the block has fewer
    than two rows that are not blank, or its first row is a lone pipe, which
    has no cell. *)
Theorem convertMarkdownTable_null_iff (tableText : jsstring) :
  convertMarkdownTable tableText = None
  <-> length (tableRows tableText) < 2
      \/ trim (nth 0 (tableRows tableText) []) = [Ch.pipe].
Proof.
  unfold convertMarkdownTable, convertRows. cbv zeta.
  rewrite <- parseRow_nil_iff, headerCells_truthy.
  destruct (Nat.ltb_spec (length (tableRows tableText)) 2) as [Hl|Hl].
  - split; [auto|done].
  - destruct (parseRow (nth 0 (tableRows tableText) [])) as [|c cs];
      simpl; split; try done; auto.
    intros [?|?]; [lia|done].
Qed.

(** X12 -- Blank lines and the white space around a row do not count: two
    blocks of lines whose lines that are not blank agree once trimmed give the
    same table. *)
Theorem convertMarkdownTable_whitespace (L1 L2 : list jsstring) :
  Forall (fun l => includes Ch.nl l = false) L1 ->
  Forall (fun l => includes Ch.nl l = false) L2 ->
  map trim (List.filter (fun l => truthy (trim l)) L1)
  = map trim (List.filter (fun l => truthy (trim l)) L2) ->
  convertMarkdownTable (join [Ch.nl] L1) = convertMarkdownTable (join [Ch.nl] L2).
Proof.
  intros H1 H2 E. rewrite !convertMarkdownTable_lines by done.
  now apply convertRows_trim_eq.
Qed.

Lemma convertMarkdownTable_whitespace_witness :
  convertMarkdownTable (join [Ch.nl] [js "  a | b"; js ""; js "c | d  "])
  = convertMarkdownTable (join [Ch.nl] [js "a | b"; js "c | d"]).
Proof.
  apply (convertMarkdownTable_whitespace
           [js "  a | b"; js ""; js "c | d  "] [js "a | b"; js "c | d"]);
    [by repeat constructor..|reflexivity].
Defined.

Lemma convertMarkdownTable_null_iff_witness :
  convertMarkdownTable (js "|" ++ [Ch.nl] ++ js "a|b") = None.
Proof.
  apply (proj2 (convertMarkdownTable_null_iff (js "|" ++ [Ch.nl] ++ js "a|b"))).
  right. reflexivity.
Defined.

(** ** Bold conversion *)

Lemma bold_cons c (s : jsstring) :
  bold (c :: s)
  = if startsWith [Ch.star; Ch.star] (c :: s) then
      match findClose (drop 2 (c :: s)) with
      | Some (inner, rest) =>
          js "<strong>" ++ inner ++ js "</strong>" ++ bold rest
      | None => c :: bold s
      end
    else c :: bold s.
Proof.
  unfold bold. cbn [length]. rewrite boldLoop_cons.
  destruct (startsWith [Ch.star; Ch.star] (c :: s)); [|done].
  destruct (findClose (drop 2 (c :: s))) as [[inner rest]|] eqn:Hf; [|done].
  apply findClose_spec in Hf. apply (f_equal length) in Hf.
  rewrite length_drop, !length_app in Hf. cbn [length] in Hf.
  do 3 f_equal. apply boldLoop_fuel; lia.
Qed.

Lemma countOcc_zero_cons pat c (s : jsstring) :
  countOcc pat (c :: s) = 0 ->
  startsWith pat (c :: s) = false /\ countOcc pat s = 0.
Proof.
  rewrite countOcc_cons. destruct (startsWith pat (c :: s)); [lia|].
  simpl. auto.
Qed.

Lemma countOcc_infix pat (a b : jsstring) :
  0 < countOcc pat (a ++ pat ++ b).
Proof.
  induction a as [|c a IH].
  - simpl app. destruct (pat ++ b) as [|d s] eqn:E.
    + destruct pat; [simpl; lia|done].
    + rewrite countOcc_cons, <- E, startsWith_app. lia.
  - simpl app. rewrite countOcc_cons. lia.
Qed.

Lemma findClose_None (s : jsstring) :
  countOcc [Ch.star; Ch.star] s = 0 -> findClose s = None.
Proof.
  intros Hno. destruct (findClose s) as [[inner rest]|] eqn:Hf; [|done].
  apply findClose_spec in Hf.
  pose proof (countOcc_infix [Ch.star; Ch.star] inner rest) as Hp.
  rewrite <- Hf in Hp. lia.
Qed.

Lemma bold_no_stars (s : jsstring) :
  countOcc [Ch.star; Ch.star] s = 0 -> bold s = s.
Proof.
  induction s as [|c s IH]; intros Hno; [reflexivity|].
  apply countOcc_zero_cons in Hno as [Hs Hno].
  rewrite bold_cons, Hs. f_equal. now apply IH.
Qed.

(** X13 -- A text in which no two stars follow each other is left as it is,
    and so is such a text behind one pair of stars: a pair that is never
    closed stays. *)
Theorem bold_unpaired (s : jsstring) :
  countOcc [Ch.star; Ch.star] s = 0 ->
  bold s = s /\ bold ([Ch.star; Ch.star] ++ s) = [Ch.star; Ch.star] ++ s.
Proof.
  intros Hno. split; [now apply bold_no_stars|].
  cbn [app]. rewrite bold_cons.
  change (startsWith [Ch.star; Ch.star] (Ch.star :: Ch.star :: s)) with true.
  cbv iota. change (drop 2 (Ch.star :: Ch.star :: s)) with s.
  rewrite findClose_None by done. f_equal.
  rewrite bold_cons.
  destruct (startsWith [Ch.star; Ch.star] (Ch.star :: s)) eqn:Hs.
  - destruct s as [|d s]; [discriminate|].
    change (drop 2 (Ch.star :: d :: s)) with s.
    pose proof (countOcc_zero_cons _ _ _ Hno) as [_ Hno'].
    rewrite findClose_None by done.
    f_equal. now apply bold_no_stars.
  - f_equal. now apply bold_no_stars.
Qed.

Lemma bold_unpaired_witness :
  bold (js "2 * 3 * 4") = js "2 * 3 * 4"
  /\ bold ([Ch.star; Ch.star] ++ js "2 * 3 * 4")
     = [Ch.star; Ch.star] ++ js "2 * 3 * 4".
Proof. apply (bold_unpaired (js "2 * 3 * 4")). reflexivity. Defined.

(** A character that may stand between the two pairs of stars of a bold
    span without ending it: no star and no line terminator. *)
Lemma findClose_plain (inner rest : jsstring) :
  forallb (fun c => negb (c =? Ch.star)%N && negb (isLineTerminator c)) inner
  = true ->
  findClose (inner ++ [Ch.star; Ch.star] ++ rest) = Some (inner, rest).
Proof.
  induction inner as [|c inner IH]; [reflexivity|].
  cbn [forallb]. intros [[Hc Hl]%andb_prop Hin]%andb_prop.
  apply negb_true_iff in Hc, Hl.
  change ((c :: inner) ++ [Ch.star; Ch.star] ++ rest)
    with (c :: (inner ++ [Ch.star; Ch.star] ++ rest)).
  cbn [findClose startsWith].
  rewrite (N.eqb_sym Ch.star c), Hc. cbn [andb]. rewrite Hl.
  now rewrite IH.
Qed.

Lemma bold_plain_prefix (pre s : jsstring) :
  forallb (fun c => negb (c =? Ch.star)%N) pre = true ->
  bold (pre ++ s) = pre ++ bold s.
Proof.
  induction pre as [|c pre IH]; [reflexivity|].
  cbn [forallb]. intros [Hc Hpre]%andb_prop. apply negb_true_iff in Hc.
  change ((c :: pre) ++ s) with (c :: (pre ++ s)).
  rewrite bold_cons. cbn [startsWith].
  rewrite (N.eqb_sym Ch.star c), Hc. cbn [andb].
  simpl. f_equal. now apply IH.
Qed.

(** X14 -- A span between two pairs of stars becomes strong emphasis: when no
    star stands before the opening pair, and neither a star nor a line
    terminator between the pairs, the text before is kept, the span is put
    between the two tags, and the conversion goes on behind the closing pair. *)
Theorem bold_span (pre inner rest : jsstring) :
  forallb (fun c => negb (c =? Ch.star)%N) pre = true ->
  forallb (fun c => negb (c =? Ch.star)%N && negb (isLineTerminator c)) inner
  = true ->
  bold (pre ++ [Ch.star; Ch.star] ++ inner ++ [Ch.star; Ch.star] ++ rest)
  = pre ++ js "<strong>" ++ inner ++ js "</strong>" ++ bold rest.
Proof.
  intros Hpre Hin. rewrite bold_plain_prefix by done. f_equal.
  cbn [app]. rewrite bold_cons.
  change (startsWith [Ch.star; Ch.star] (Ch.star :: Ch.star :: ?x)) with true.
  cbv iota.
  change (drop 2 (Ch.star :: Ch.star :: ?x)) with x.
  change (inner ++ Ch.star :: Ch.star :: rest)
    with (inner ++ [Ch.star; Ch.star] ++ rest).
  now rewrite findClose_plain.
Qed.

Lemma bold_span_witness :
  bold (js "Total: " ++ [Ch.star; Ch.star] ++ js "42" ++ [Ch.star; Ch.star]
        ++ js " items")
  = js "Total: " ++ js "<strong>" ++ js "42" ++ js "</strong>"
    ++ bold (js " items").
Proof.
  apply (bold_span (js "Total: ") (js "42") (js " items")); reflexivity.
Defined.

(** ** The formatting of a line *)

Lemma trim_nil_iff (s : jsstring) :
  trim s = [] <-> forallb isWhiteSpace s = true.
Proof.
  split.
  - intros E. induction s as [|c s IH]; [done|].
    cbn [forallb]. destruct (isWhiteSpace c) eqn:Hc.
    + rewrite trim_cons_ws in E by done. now rewrite IH.
    + unfold trim in E. cbn [trimStart] in E. rewrite Hc in E.
      rewrite trimEnd_cons_other in E by done. discriminate.
  - induction s as [|c s IH]; [done|].
    cbn [forallb]. intros [Hc Hs]%andb_prop.
    rewrite trim_cons_ws by done. now apply IH.
Qed.

Lemma trim_cons_other c (s : jsstring) :
  isWhiteSpace c = false -> trim (c :: s) = c :: trimEnd s.
Proof.
  intros Hc. unfold trim. cbn [trimStart]. rewrite Hc.
  now apply trimEnd_cons_other.
Qed.

Lemma blank_trim (l : jsstring) : blank l = true <-> trim l = [].
Proof. unfold blank. now destruct (trim l). Qed.

(** A fragment that starts like a [div] is not the line break. *)
Lemma div_not_br (open rest : jsstring) :
  startsWith (js "<div") open = true -> [open ++ rest] <> [br].
Proof.
  intros Ho E. injection E as E. apply startsWith_inv in Ho.
  rewrite Ho in E. discriminate.
Qed.

(** X15 -- A line gives the line break alone exactly when it is blank and does
    not start with three spaces; a blank line that does is an indented item
    without content. *)
Theorem formatLine_break (line : jsstring) :
  (formatLine line = [br]
   <-> blank line = true /\ startsWith (js "   ") line = false)
  /\ (blank line = true -> startsWith (js "   ") line = true ->
      formatLine line = [divOpen "indented-item" ++ divClose]).
Proof.
  split.
  2:{ intros Hb Hs. apply blank_trim in Hb. unfold formatLine. cbv zeta.
      now rewrite Hb, Hs. }
  unfold formatLine. cbv zeta. split.
  - repeat match goal with
           | |- context [if ?b then _ else _] => destruct b eqn:?
           end;
      try discriminate;
      try (now intros E; apply div_not_br in E).
    intros _. split.
    + unfold blank. now rewrite Heqb3.
    + destruct (trim line) eqn:Ht; [|discriminate].
      destruct (startsWith (js "   ") line); [|done].
      cbn [startsWith orb andb negb] in Heqb2. discriminate.
  - intros [Hb Hs]. apply blank_trim in Hb. rewrite Hb, Hs. reflexivity.
Qed.

Lemma dropHashes_nil_iff (s : jsstring) :
  dropHashes s = [] <-> forallb (N.eqb Ch.hash) s = true.
Proof.
  induction s as [|c s IH]; [done|]. cbn [dropHashes forallb].
  rewrite (N.eqb_sym Ch.hash c). destruct (c =? Ch.hash)%N; [exact IH|].
  split; discriminate.
Qed.

Lemma dropHashes_suffix (s : jsstring) : exists h, s = h ++ dropHashes s.
Proof.
  induction s as [|c s [h IH]]; [now exists []|]. cbn [dropHashes].
  destruct (c =? Ch.hash)%N; [|now exists []].
  exists (c :: h). simpl. now f_equal.
Qed.

Lemma forallb_ws_last (d : jsstring) :
  d <> [] -> forallb isWhiteSpace d = true ->
  exists d' c, d = d' ++ [c] /\ isWhiteSpace c = true.
Proof.
  intros Hne Hd. destruct (exists_last Hne) as (d' & c & ->).
  exists d', c. split; [done|].
  rewrite forallb_app in Hd. apply andb_prop in Hd as [_ Hc].
  cbn [forallb] in Hc. now rewrite andb_true_r in Hc.
Qed.

(** X16 -- A line gives nothing at all, not even a line break, exactly when it
    is made of hash signs only, apart from white space around them: a header
    without a title is dropped. *)
Theorem formatLine_nothing (line : jsstring) :
  formatLine line = []
  <-> trim line <> [] /\ forallb (N.eqb Ch.hash) (trim line) = true.
Proof.
  unfold formatLine. cbv zeta. split.
  - destruct (startsWith [Ch.hash] (trim line)) eqn:Hh.
    2:{ repeat match goal with
               | |- context [if ?b then _ else _] => destruct b
               end; discriminate. }
    destruct (truthy (trim (stripHeaderMarks (trim line)))) eqn:Hc;
      [discriminate|].
    intros _. split; [by destruct (trim line)|].
    apply dropHashes_nil_iff.
    unfold stripHeaderMarks in Hc. rewrite Hh in Hc.
    assert (Hws : forallb isWhiteSpace (dropHashes (trim line)) = true).
    { assert (E : trim (trimStart (dropHashes (trim line))) = [])
        by (now destruct (trim (trimStart (dropHashes (trim line))))).
      apply trim_nil_iff in E.
      destruct (trimStart (dropHashes (trim line))) as [|c r] eqn:Hts.
      - clear E Hc. induction (dropHashes (trim line)) as [|c d IH]; [done|].
        cbn [trimStart] in Hts. cbn [forallb].
        destruct (isWhiteSpace c); [now apply IH|discriminate].
      - apply trimStart_head in Hts. cbn [forallb] in E.
        rewrite Hts in E. discriminate. }
    destruct (dropHashes (trim line)) as [|c d] eqn:Hd; [done|].
    destruct (forallb_ws_last (c :: d) ltac:(done) Hws) as (d' & c' & E & Hc').
    destruct (dropHashes_suffix (trim line)) as [h Hsuf].
    rewrite Hd, E, app_assoc in Hsuf.
    apply trim_last in Hsuf. congruence.
  - intros [Hne Hall].
    assert (Hh : startsWith [Ch.hash] (trim line) = true).
    { destruct (trim line) as [|c t]; [done|]. cbn [forallb] in Hall.
      apply andb_prop in Hall as [Hc _]. cbn [startsWith].
      now rewrite Hc. }
    rewrite Hh. unfold stripHeaderMarks. rewrite Hh.
    apply dropHashes_nil_iff in Hall. now rewrite Hall.
Qed.

(** X17 -- The number of hash signs does not count: a header of any level is
    written like a header of the first level. *)
Theorem formatLine_header_level (s : jsstring) :
  formatLine (Ch.hash :: Ch.hash :: s) = formatLine (Ch.hash :: s).
Proof.
  unfold formatLine. cbv zeta.
  rewrite !trim_cons_other by done.
  rewrite (trimEnd_cons_other Ch.hash) by done.
  reflexivity.
Qed.

Lemma startsWith_trimEnd c (s : jsstring) :
  startsWith [c] s = false -> startsWith [c] (trimEnd s) = false.
Proof.
  intros Hs. destruct (trimEnd_prefix s) as [b Hb].
  destruct (trimEnd s) as [|d t]; [done|].
  rewrite Hb in Hs. exact Hs.
Qed.

(** X18 -- The two bullet markers are written alike: a line that starts with
    the bullet character and the same line with one star in its place give the
    same fragment. *)
Theorem formatLine_bullets (s : jsstring) :
  startsWith [Ch.star] s = false ->
  formatLine (Ch.bullet :: s) = formatLine (Ch.star :: s).
Proof.
  intros Hs. unfold formatLine. cbv zeta.
  rewrite !trim_cons_other by done.
  apply (startsWith_trimEnd Ch.star) in Hs.
  change (startsWith [Ch.hash] (Ch.bullet :: trimEnd s)) with false.
  change (startsWith [Ch.hash] (Ch.star :: trimEnd s)) with false.
  change (startsWith [Ch.bullet] (Ch.bullet :: trimEnd s)) with true.
  change (startsWith [Ch.bullet] (Ch.star :: trimEnd s)) with false.
  change (startsWith [Ch.star] (Ch.star :: trimEnd s)) with true.
  change (startsWith [Ch.star; Ch.star] (Ch.star :: trimEnd s))
    with (startsWith [Ch.star] (trimEnd s)).
  rewrite Hs. cbv iota. cbn [andb negb]. cbv iota.
  rewrite !(substringFrom_drop _ 1) by (simpl; lia).
  reflexivity.
Qed.

Lemma formatLine_bullets_witness :
  formatLine (Ch.bullet :: js " first") = formatLine (Ch.star :: js " first").
Proof. apply (formatLine_bullets (js " first")). reflexivity. Defined.

(** ** A message without tables *)

Lemma includes_split c sep (s : jsstring) :
  includes c s = false ->
  Forall (fun l => includes c l = false) (split sep s).
Proof.
  induction s as [|d s IH]; [by repeat constructor|].
  cbn [includes existsb]. intros [Hd Hs]%orb_false_elim.
  specialize (IH Hs). cbn [split].
  destruct (d =? sep)%N; [now constructor|].
  pose proof (split_nonempty sep s).
  destruct (split sep s) as [|p ps]; [done|].
  apply Forall_cons in IH as [Hp Hps]. constructor; [|done].
  unfold includes in *. cbn [existsb]. now rewrite Hd, Hp.
Qed.

Lemma processLoop_lines lines : forall fuel i parts,
  Forall (fun l => includes Ch.pipe l = false) lines ->
  length lines - i <= fuel ->
  processLoop fuel lines i parts = parts ++ map PLine (drop i lines).
Proof.
  induction fuel as [|fuel IH]; intros i parts Hl Hf.
  - simpl. rewrite drop_ge by lia. now rewrite app_nil_r.
  - cbn [processLoop]. destruct (Nat.ltb_spec i (length lines)) as [Hi|Hi].
    + unfold tableAt. rewrite (nth_free Ch.pipe) by done.
      rewrite IH by (done || lia). rewrite <- app_assoc. f_equal.
      rewrite (drop_S lines (nth i lines []) i).
      * now rewrite Nat.add_1_r.
      * destruct (lookup_lt_is_Some_2 lines i Hi) as [x Hx].
        rewrite Hx. f_equal. symmetry. now apply nth_lookup_Some.
    + rewrite drop_ge by lia. now rewrite app_nil_r.
Qed.

Lemma map_seq_nth {A B} (f : nat -> B) (g : A -> B) d (l : list A) :
  forall k,
    (forall i, i < length l -> f (k + i) = g (nth i l d)) ->
    map f (seq k (length l)) = map g l.
Proof.
  induction l as [|x l IH]; intros k Hf; [done|].
  cbn [length seq map]. f_equal.
  - specialize (Hf 0 ltac:(simpl; lia)). now rewrite Nat.add_0_r in Hf.
  - apply IH. intros i Hi. specialize (Hf (S i) ltac:(simpl; lia)).
    cbn [nth] in Hf. rewrite <- Hf. f_equal. lia.
Qed.

Lemma formatParts_lines (lines : list jsstring) :
  formatParts (map PLine lines) = concat (map formatLine lines).
Proof.
  unfold formatParts. f_equal. rewrite length_map.
  apply (map_seq_nth _ _ []). intros i Hi. unfold formatPart.
  cbn [Nat.add]. rewrite nth_error_map.
  rewrite (nth_error_nth' lines [] Hi). reflexivity.
Qed.

Lemma concat_concat_map {A} (L : list (list (list A))) :
  concat (concat L) = concat (map (@concat A) L).
Proof.
  induction L as [|l L IH]; [done|]. simpl.
  now rewrite concat_app, IH.
Qed.

(** X19 -- A message without any pipe is formatted line by line: the result is
    the fragments of its lines, in their order, with nothing between them. *)
Theorem formatMessage_lines (text : jsstring) :
  text <> [] -> includes Ch.pipe text = false ->
  formatMessage text
  = concat (map (fun line => join [] (formatLine line)) (split Ch.nl text)).
Proof.
  intros Hne Hp. unfold formatMessage.
  destruct text as [|c text]; [done|]. cbn [truthy negb]. cbv iota zeta.
  set (lines := split Ch.nl (c :: text)).
  assert (Hl : Forall (fun l => includes Ch.pipe l = false) lines)
    by now apply includes_split.
  unfold processParts. rewrite processLoop_lines by (done || lia).
  rewrite drop_0, app_nil_l, formatParts_lines, join_nil.
  rewrite concat_concat_map, map_map. f_equal.
  apply map_ext. intros l. now rewrite join_nil.
Qed.

Lemma formatMessage_lines_witness :
  formatMessage (js "# Title" ++ [Ch.nl] ++ js "text")
  = concat (map (fun line => join [] (formatLine line))
              (split Ch.nl (js "# Title" ++ [Ch.nl] ++ js "text"))).
Proof.
  apply (formatMessage_lines (js "# Title" ++ [Ch.nl] ++ js "text"));
    [discriminate|reflexivity].
Defined.

Lemma formatLine_break_witness : formatLine (js "  ") = [br].
Proof.
  apply (proj2 (proj1 (formatLine_break (js "  ")))). split; reflexivity.
Defined.

Lemma formatLine_nothing_witness : formatLine (js " ## ") = [].
Proof.
  apply (proj2 (formatLine_nothing (js " ## "))). split; [discriminate|reflexivity].
Defined.

(** ** The wait for the charting runtime *)

(** X20 -- The wait ends at the first tick at which the runtime is there: if
    it is there at some tick up to the time-out, the wait ends no later, the
    runtime is there when it ends, and it was missing at every tick before. *)
Theorem waitForPlotly_first (plotlyAt : nat -> bool) (k : nat) :
  k <= 50 -> plotlyAt k = true ->
  waitForPlotly plotlyAt <= k
  /\ plotlyAt (waitForPlotly plotlyAt) = true
  /\ forall j, j < waitForPlotly plotlyAt -> plotlyAt j = false.
Proof.
  intros Hk Hp. unfold waitForPlotly.
  destruct (plotlyAt 0) eqn:H0.
  { split; [lia|]. split; [done|]. intros j Hj. lia. }
  destruct (forFind 49 1 plotlyAt) as [k'|] eqn:Hf.
  - apply forFind_Some in Hf as (Hr & Hk' & Hbefore).
    split; [|split; [done|]].
    + destruct (le_lt_dec k' k) as [|Hlt]; [done|].
      destruct (decide (k = 0)) as [->|]; [congruence|].
      rewrite Hbefore in Hp by lia. discriminate.
    + intros j Hj. destruct (decide (j = 0)) as [->|]; [done|].
      apply Hbefore. lia.
  - rewrite forFind_None in Hf.
    assert (k = 50) as ->.
    { destruct (decide (k = 0)) as [->|]; [congruence|].
      destruct (decide (k = 50)) as [|]; [done|].
      rewrite Hf in Hp by lia. discriminate. }
    split; [lia|]. split; [done|]. intros j Hj.
    destruct (decide (j = 0)) as [->|]; [done|]. apply Hf. lia.
Qed.

Lemma waitForPlotly_first_witness :
  waitForPlotly (fun tick => 7 <=? tick) <= 9
  /\ (7 <=? waitForPlotly (fun tick => 7 <=? tick)) = true
  /\ forall j, j < waitForPlotly (fun tick => 7 <=? tick) -> (7 <=? j) = false.
Proof.
  apply (waitForPlotly_first (fun tick => 7 <=? tick) 9); [lia|reflexivity].
Defined.

(** ** Identifiers of the chart containers, again *)

Lemma string_of_uint_digits (d : Decimal.uint) :
  Forall (fun c => c <> Ch.dash) (js (NilEmpty.string_of_uint d)).
Proof.
  induction d; cbn [NilEmpty.string_of_uint];
    [constructor|constructor; [discriminate|exact IHd]..].
Qed.

Lemma numberToString_digits (n : N) :
  Forall (fun c => c <> Ch.dash) (numberToString n).
Proof.
  unfold numberToString, NilZero.string_of_uint.
  destruct (N.to_uint n) eqn:E; try (rewrite <- E at 1);
    try apply string_of_uint_digits.
  repeat constructor. discriminate.
Qed.

Lemma app_sep_inj (sep : N) : forall (a b x y : jsstring),
  Forall (fun c => c <> sep) x -> Forall (fun c => c <> sep) y ->
  a ++ [sep] ++ x = b ++ [sep] ++ y -> a = b /\ x = y.
Proof.
  induction a as [|c a IH]; intros [|d b] x y Hx Hy E.
  - simpl in E. now injection E.
  - simpl in E. injection E as <- ->.
    rewrite Forall_app in Hx. destruct Hx as [_ Hx].
    apply Forall_cons in Hx as [Hx _]. done.
  - simpl in E. injection E as -> <-.
    rewrite Forall_app in Hy. destruct Hy as [_ Hy].
    apply Forall_cons in Hy as [Hy _]. done.
  - simpl in E. injection E as -> E.
    destruct (IH b x y Hx Hy E) as [-> ->]. done.
Qed.

Lemma uniqueId_pair_inj (o1 o2 : jsstring) (i1 i2 : N) :
  uniqueId o1 i1 = uniqueId o2 i2 -> o1 = o2 /\ i1 = i2.
Proof.
  unfold uniqueId. intros E.
  apply (app_sep_inj Ch.dash) in E as [-> E];
    [|apply numberToString_digits..].
  split; [done|]. now apply numberToString_inj.
Qed.

Section RenderedIds.
Context {dom : DomApi}.

(** X21 -- The identifier of a chart container tells both the identifier
    in the markup and the index of the message: two computed identifiers
    are the same only if both agree.  These are the identifiers that are
    rendered, so the chart containers that two mounts at different message
    indices leave in their mount points never share an identifier,
    whatever the two markups are. *)
Theorem uniqueId_injective :
  (forall (o1 o2 : jsstring) (i1 i2 : N),
      uniqueId o1 i1 = uniqueId o2 i2 -> o1 = o2 /\ i1 = i2)
  /\ (forall plotlyAt1 attached1 (html1 : jsstring) i prev1 children1 o1
             id1 st1
             plotlyAt2 attached2 (html2 : jsstring) j prev2 children2 o2
             id2 st2,
        truthy html1 = true -> truthy html2 = true ->
        mount plotlyAt1 attached1 html1 i (Some prev1) = (Some children1, o1) ->
        mount plotlyAt2 attached2 html2 j (Some prev2) = (Some children2, o2) ->
        i <> j ->
        In (ChartDiv id1 st1) children1 ->
        In (ChartDiv id2 st2) children2 ->
        id1 <> id2).
Proof.
  split; [apply uniqueId_pair_inj|].
  intros plotlyAt1 attached1 html1 i prev1 children1 o1 id1 st1
    plotlyAt2 attached2 html2 j prev2 children2 o2 id2 st2
    Hh1 Hh2 Hm1 Hm2 Hij Hin1 Hin2.
  destruct (mount_chart_id _ _ _ _ _ _ _ _ _ Hh1 Hm1 Hin1)
    as (b1 & s1 & c1 & _ & _ & ->).
  destruct (mount_chart_id _ _ _ _ _ _ _ _ _ Hh2 Hm2 Hin2)
    as (b2 & s2 & c2 & _ & _ & ->).
  intros E. apply uniqueId_pair_inj in E as [_ E]. done.
Qed.

End RenderedIds.

Lemma uniqueId_injective_witness :
  mount (dom := sampleDom [plotScript]) (fun _ => true) true
    (js "<html><div id='chart'></div></html>") 3 (Some [])
  = (Some [ChartDiv (js "chart-3") (Sized (js "440px") (js "100%"))],
     Returned)
  /\ mount (dom := sampleDom [plotScript]) (fun _ => true) true
       (js "<body><p id='chart'></p></body>") 4 (Some [])
     = (Some [ChartDiv (js "chart-4") (Sized (js "440px") (js "100%"))],
        Returned)
  /\ js "chart-3" <> js "chart-4".
Proof.
  split; [reflexivity|]. split; [reflexivity|].
  apply (proj2 (uniqueId_injective (dom := sampleDom [plotScript]))
           (fun _ => true) true (js "<html><div id='chart'></div></html>")
           3%N [] [ChartDiv (js "chart-3") (Sized (js "440px") (js "100%"))]
           Returned (js "chart-3") (Sized (js "440px") (js "100%"))
           (fun _ => true) true (js "<body><p id='chart'></p></body>")
           4%N [] [ChartDiv (js "chart-4") (Sized (js "440px") (js "100%"))]
           Returned (js "chart-4") (Sized (js "440px") (js "100%")));
    try reflexivity; try discriminate; left; reflexivity.
Defined.

(** ** The mount, again *)

Lemma truthy_errorP msg : truthy (errorP msg) = true.
Proof. reflexivity. Qed.

Section MountFurther.
Context {dom : DomApi}.

Lemma forEachScript_threw originalId uid scripts : forall children found r,
  forEachScript originalId uid scripts children found = (r, Threw) ->
  exists sc,
    In sc scripts /\ inline sc = true
    /\ runScript originalId uid (textContent sc) = RegExpThrows.
Proof.
  induction scripts as [|sc scripts IH]; intros children found r;
    cbn [forEachScript]; [discriminate|].
  change (negb (truthy (src sc)) && truthy (textContent sc)) with (inline sc).
  destruct (inline sc) eqn:Hi.
  - destruct (runScript originalId uid (textContent sc)) eqn:Hr.
    + intros _. exists sc. simpl. auto.
    + intros (sc' & Hin & H)%IH. exists sc'. simpl. auto.
    + intros (sc' & Hin & H)%IH. exists sc'. simpl. auto.
    + intros (sc' & Hin & H)%IH. exists sc'. simpl. auto.
  - intros (sc' & Hin & H)%IH. exists sc'. simpl. auto.
Qed.

(** X22 -- The mount ends with an exception in one case only: the markup has a
    body with an element that carries an id, and for one of its inline scripts
    the regular expression built from that id cannot be constructed. In every
    other case the render returns. *)
Theorem mount_throws_only (plotlyAt : nat -> bool) (attached : bool)
    (html : jsstring) (messageIndex : N) (container : option (list node)) :
  snd (mount plotlyAt attached html messageIndex container) = Threw ->
  exists bodyContent scripts chartDiv sc,
    bodyAndScripts html = (Some bodyContent, scripts)
    /\ firstWithId bodyContent = Some chartDiv
    /\ In sc scripts /\ inline sc = true
    /\ runScript (el_id chartDiv) (uniqueId (el_id chartDiv) messageIndex)
         (textContent sc) = RegExpThrows.
Proof.
  unfold mount, renderVisualization, renderAfterWait.
  destruct (negb (truthy html)); [discriminate|].
  destruct container as [prev|]; [|discriminate].
  destruct (negb (plotlyAt (waitForPlotly plotlyAt)));
    [destruct attached; discriminate|].
  destruct attached; [|discriminate].
  destruct (bodyAndScripts html) as [[bodyContent|] scripts] eqn:Hb;
    [|discriminate].
  destruct (firstWithId bodyContent) as [chartDiv|] eqn:Hc; [|discriminate].
  destruct (forEachScript _ _ scripts _ false) as [[children' found] o] eqn:Hf.
  destruct o; [destruct (negb found); discriminate|].
  intros _. apply forEachScript_threw in Hf as (sc & H).
  by exists bodyContent, scripts, chartDiv, sc.
Qed.

(** The first child of the mount point is the chart container or an
    error paragraph. *)
Lemma forEachScript_head originalId uid scripts : forall children found,
  (exists first rest,
      children = first :: rest
      /\ (isChartDiv first = true \/ exists msg, first = Markup (errorP msg))) ->
  exists first rest,
    fst (fst (forEachScript originalId uid scripts children found))
    = first :: rest
    /\ (isChartDiv first = true \/ exists msg, first = Markup (errorP msg)).
Proof.
  induction scripts as [|sc scripts IH]; intros children found Hc;
    cbn [forEachScript]; [exact Hc|].
  destruct (negb (truthy (src sc)) && truthy (textContent sc)); [|auto].
  destruct (runScript originalId uid (textContent sc)) as [| |content|msg];
    [exact Hc|auto| |].
  - apply IH. destruct Hc as (first & rest & -> & H).
    by exists first, (rest ++ [ScriptNode content]).
  - apply IH. unfold errRender, setInnerHTML. rewrite truthy_errorP.
    eexists _, []. split; [reflexivity|]. right. by eexists.
Qed.

(** X23 -- A render never leaves the mount point blank: whenever it writes to
    the mount point, the first child afterwards is the chart container or a
    paragraph with an error message. *)
Theorem mount_never_blank (plotlyAt : nat -> bool) (attached : bool)
    (html : jsstring) (messageIndex : N) (prev children : list node)
    (o : outcome) :
  truthy html = true ->
  mount plotlyAt attached html messageIndex (Some prev) = (Some children, o) ->
  exists first rest,
    children = first :: rest
    /\ (isChartDiv first = true \/ exists msg, first = Markup (errorP msg)).
Proof.
  intros Hhtml. unfold mount, renderVisualization, renderAfterWait.
  rewrite Hhtml. cbn [negb]. cbv iota zeta.
  assert (Herr : forall msg,
             exists first rest,
               setInnerHTML (errorP msg) = first :: rest
               /\ (isChartDiv first = true
                   \/ exists msg, first = Markup (errorP msg))).
  { intros msg. unfold setInnerHTML. rewrite truthy_errorP.
    eexists _, []. split; [reflexivity|]. right. by eexists. }
  destruct (negb (plotlyAt (waitForPlotly plotlyAt))).
  { destruct attached; [|discriminate]. intros [= <- <-]. apply Herr. }
  destruct attached; [|discriminate].
  destruct (bodyAndScripts html) as [[bodyContent|] scripts].
  2:{ intros [= <- <-]. apply Herr. }
  destruct (firstWithId bodyContent) as [chartDiv|].
  2:{ intros [= <- <-]. apply Herr. }
  pose proof (forEachScript_head (el_id chartDiv)
                (uniqueId (el_id chartDiv) messageIndex) scripts
                (setInnerHTML [] ++ [newChartDiv chartDiv messageIndex]) false)
    as Hh.
  destruct (forEachScript _ _ scripts _ false) as [[children' found] o'].
  cbn [fst] in Hh.
  assert (Hc : exists first rest,
             children' = first :: rest
             /\ (isChartDiv first = true
                 \/ exists msg, first = Markup (errorP msg))).
  { apply Hh. eexists _, []. split; [reflexivity|]. now left. }
  destruct o'.
  - destruct (negb found); intros [= <- <-]; [apply Herr|exact Hc].
  - intros [= <- <-]. exact Hc.
Qed.

End MountFurther.

Lemma mount_throws_only_witness :
  exists bodyContent scripts chartDiv sc,
    bodyAndScripts (dom := failingDom) (js "<html></html>")
    = (Some bodyContent, scripts)
    /\ firstWithId bodyContent = Some chartDiv
    /\ In sc scripts /\ inline sc = true
    /\ runScript (DomApi := failingDom) (el_id chartDiv)
         (uniqueId (el_id chartDiv) 0) (textContent sc)
       = RegExpThrows.
Proof.
  apply (mount_throws_only (dom := failingDom) (fun _ => true) true
           (js "<html></html>") 0%N (Some [])).
  reflexivity.
Defined.

Lemma mount_never_blank_witness :
  exists first rest,
    [ChartDiv (js "chart-0") (Sized (js "440px") (js "100%"))] = first :: rest
    /\ (isChartDiv first = true \/ exists msg, first = Markup (errorP msg)).
Proof.
  apply (mount_never_blank (dom := sampleDom [plotScript]) (fun _ => true)
           true (js "<html></html>") 0%N [] _ Returned); reflexivity.
Defined.

(** ** The title of a chat *)

Lemma isInfix_Forall {A} (P : A -> Prop) (a s : list A) :
  (exists x y, s = x ++ a ++ y) -> Forall P s -> Forall P a.
Proof.
  intros (x & y & ->) H. rewrite !Forall_app in H. tauto.
Qed.

Lemma trim_Forall (P : N -> Prop) (s : jsstring) :
  Forall P s -> Forall P (trim s).
Proof. apply isInfix_Forall, isInfix_trim. Qed.

Lemma startsWith_app_l (p m b : jsstring) :
  startsWith p m = true -> startsWith p (m ++ b) = true.
Proof.
  revert m. induction p as [|a p IH]; intros [|c m]; simpl; try done.
  intros [Ha Hp]%andb_prop. rewrite Ha. simpl. now apply IH.
Qed.

Lemma countOcc_app_l pat (m b : jsstring) :
  countOcc pat m <= countOcc pat (m ++ b).
Proof.
  induction m as [|c m IH].
  - simpl app. destruct b as [|d b]; simpl.
    + lia.
    + destruct pat; simpl; lia.
  - change ((c :: m) ++ b) with (c :: (m ++ b)). rewrite !countOcc_cons.
    destruct (startsWith pat (c :: m)) eqn:Hs.
    + change (c :: (m ++ b)) with ((c :: m) ++ b).
      rewrite (startsWith_app_l _ _ b Hs). lia.
    + destruct (startsWith pat (c :: m ++ b)); lia.
Qed.

Lemma countOcc_app_r pat (a m : jsstring) :
  countOcc pat m <= countOcc pat (a ++ m).
Proof.
  induction a as [|c a IH]; [done|].
  change ((c :: a) ++ m) with (c :: (a ++ m)). rewrite countOcc_cons. lia.
Qed.

Lemma countOcc_infix_le pat (m s : jsstring) :
  isInfix m s -> countOcc pat m <= countOcc pat s.
Proof.
  intros (a & b & ->).
  etransitivity; [apply (countOcc_app_l pat m b)|apply countOcc_app_r].
Qed.

(** *** The cleaning of a title *)

Lemma replaceNewlines_length (s : jsstring) :
  length (replaceNewlines s) = length s.
Proof. apply length_map. Qed.

Lemma collapseSpaces_length (s : jsstring) : forall inRun,
  length (collapseSpaces inRun s) <= length s.
Proof.
  induction s as [|c s IH]; intros inRun; [done|]. cbn [collapseSpaces].
  pose proof (IH true). pose proof (IH false).
  destruct (isWhiteSpace c); [destruct inRun|]; cbn [length]; lia.
Qed.

Lemma collapseSpaces_Forall (P : N -> Prop) (s : jsstring) : forall inRun,
  P Ch.space -> Forall P s -> Forall P (collapseSpaces inRun s).
Proof.
  induction s as [|c s IH]; intros inRun Hsp Hs; [constructor|].
  apply Forall_cons in Hs as [Hc Hs]. cbn [collapseSpaces].
  destruct (isWhiteSpace c); [destruct inRun|];
    repeat (constructor; [assumption|]); now apply IH.
Qed.

(** Behind the cleaning, white space is a single space at a time. *)
Lemma collapseSpaces_spaces (s : jsstring) : forall inRun,
  Forall (fun c => isWhiteSpace c = true -> c = Ch.space)
    (collapseSpaces inRun s).
Proof.
  induction s as [|c s IH]; intros inRun; [constructor|].
  cbn [collapseSpaces].
  destruct (isWhiteSpace c) eqn:Hc; [destruct inRun|].
  - apply IH.
  - constructor; [done|apply IH].
  - constructor; [congruence|apply IH].
Qed.

Lemma collapseSpaces_single (s : jsstring) : forall inRun,
  countOcc [Ch.space; Ch.space] (collapseSpaces inRun s) = 0
  /\ (inRun = true ->
      startsWith [Ch.space] (collapseSpaces inRun s) = false).
Proof.
  induction s as [|c s IH]; intros inRun; [by destruct inRun|].
  cbn [collapseSpaces].
  destruct (isWhiteSpace c) eqn:Hc; [destruct inRun|].
  - apply IH.
  - destruct (IH true) as [H0 H1]. specialize (H1 eq_refl).
    split; [|done]. rewrite countOcc_cons, H0.
    change (startsWith [Ch.space; Ch.space] (Ch.space :: ?x))
      with (startsWith [Ch.space] x).
    now rewrite H1.
  - destruct (IH false) as [H0 _].
    assert (Hne : (Ch.space =? c)%N = false).
    { apply N.eqb_neq. intros <-. discriminate. }
    split.
    + rewrite countOcc_cons, H0. cbn [startsWith]. now rewrite Hne.
    + intros _. cbn [startsWith]. now rewrite Hne.
Qed.

(** *** The title taken from a message *)

Lemma removeChar_Forall (P : N -> Prop) c (s : jsstring) :
  Forall P s -> Forall P (removeChar c s).
Proof.
  unfold removeChar. induction 1 as [|x s Hx Hs IH]; [constructor|].
  simpl. destruct (negb (x =? c)%N); [constructor|]; done.
Qed.

Lemma removeChar_none c (s : jsstring) :
  Forall (fun a => a <> c) (removeChar c s).
Proof.
  unfold removeChar. induction s as [|x s IH]; [constructor|]. simpl.
  destruct (N.eqb_spec x c); simpl; [done|]. now constructor.
Qed.

Lemma removeChar_length c (s : jsstring) : length (removeChar c s) <= length s.
Proof. unfold removeChar. apply List.filter_length_le. Qed.

Lemma stripMarks_none (s : jsstring) :
  Forall (fun c => c <> Ch.star /\ c <> Ch.bullet /\ c <> Ch.ring)
    (stripMarks s).
Proof.
  unfold stripMarks.
  pose proof (removeChar_none Ch.star (removePairs Ch.star s)) as H1.
  apply (removeChar_Forall _ Ch.bullet) in H1.
  apply (removeChar_Forall _ Ch.ring) in H1.
  pose proof (removeChar_none Ch.bullet
                (removeChar Ch.star (removePairs Ch.star s))) as H2.
  apply (removeChar_Forall _ Ch.ring) in H2.
  pose proof (removeChar_none Ch.ring
                (removeChar Ch.bullet
                   (removeChar Ch.star (removePairs Ch.star s)))) as H3.
  rewrite Forall_forall in *. intros c Hc.
  split; [|split]; auto.
Qed.

Lemma substring_0_take (s : jsstring) (n : nat) :
  substring s 0 (Z.of_nat n) = take n s.
Proof.
  unfold substring, clampIdx. cbv zeta.
  rewrite Z.max_l, Z.min_l by lia. change (Z.to_nat 0) with 0.
  rewrite Nat.min_0_l, Nat.max_0_l, Nat.sub_0_r, drop_0.
  rewrite Z.max_l by lia.
  destruct (le_lt_dec n (length s)) as [Hle|Hgt].
  - rewrite Z.min_l by lia. now rewrite Nat2Z.id.
  - rewrite Z.min_r by lia. rewrite Nat2Z.id.
    rewrite !take_ge by lia. done.
Qed.

Lemma titleFrom_marks (content : jsstring) :
  Forall (fun c => c <> Ch.star /\ c <> Ch.bullet /\ c <> Ch.ring)
    (titleFrom content).
Proof.
  unfold titleFrom. cbv zeta.
  pose proof (stripMarks_none (trim content)) as Hs.
  assert (Ht : Forall (fun c => c <> Ch.star /\ c <> Ch.bullet /\ c <> Ch.ring)
                 (substring (stripMarks (trim content)) 0 40)).
  { rewrite (substring_0_take _ 40). now apply Forall_take. }
  destruct (40 <? length (stripMarks (trim content))); [|done].
  apply Forall_app. split; [done|]. by repeat constructor.
Qed.

Lemma titleFrom_length (content : jsstring) : length (titleFrom content) <= 43.
Proof.
  unfold titleFrom. cbv zeta.
  assert (Ht : length (substring (stripMarks (trim content)) 0 40) <= 40).
  { rewrite (substring_0_take _ 40), length_take. lia. }
  destruct (40 <? length (stripMarks (trim content))); [|lia].
  rewrite length_app. simpl. lia.
Qed.

(** What the last two replacements and the trimming make of a title. *)
Lemma cleaned_title (t0 : jsstring) :
  Forall (fun c => c <> Ch.star /\ c <> Ch.bullet /\ c <> Ch.ring) t0 ->
  length t0 <= 43 ->
  let t := trim (collapseSpaces false (replaceNewlines t0)) in
  length t <= 43
  /\ trim t = t
  /\ Forall (fun c => isWhiteSpace c = true -> c = Ch.space) t
  /\ countOcc [Ch.space; Ch.space] t = 0
  /\ Forall (fun c => c <> Ch.star /\ c <> Ch.bullet /\ c <> Ch.ring) t.
Proof.
  intros Hm Hl t. unfold t. split; [|split; [|split; [|split]]].
  - etransitivity; [apply trim_length|].
    etransitivity; [apply collapseSpaces_length|].
    now rewrite replaceNewlines_length.
  - apply trim_idem.
  - apply trim_Forall, collapseSpaces_spaces.
  - pose proof (countOcc_infix_le [Ch.space; Ch.space] _ _
                  (isInfix_trim (collapseSpaces false (replaceNewlines t0))))
      as Hle.
    destruct (collapseSpaces_single (replaceNewlines t0) false) as [H0 _].
    lia.
  - apply trim_Forall, collapseSpaces_Forall; [by repeat split|].
    unfold replaceNewlines. apply Forall_map.
    eapply Forall_impl; [exact Hm|]. intros c Hc. simpl.
    destruct (c =? Ch.nl)%N; [by repeat split|done].
Qed.

Lemma find_app_Some {A} (p : A -> bool) (a b : list A) x :
  List.find p a = Some x -> List.find p (a ++ b) = Some x.
Proof.
  induction a as [|y a IH]; [discriminate|]. simpl.
  destruct (p y); [done|exact IH].
Qed.

Section TitleProperties.
Context {context : Type}.

(** X24 -- The title of a chat is never empty; it has at most 43 characters,
    no white space at its ends, no white space other than single spaces
    inside, and none of the marks [*], U+2022 and U+25E6. *)
Theorem chatTitle_wellformed (messages : list (message context)) :
  chatTitle messages <> []
  /\ length (chatTitle messages) <= 43
  /\ trim (chatTitle messages) = chatTitle messages
  /\ Forall (fun c => isWhiteSpace c = true -> c = Ch.space)
       (chatTitle messages)
  /\ countOcc [Ch.space; Ch.space] (chatTitle messages) = 0
  /\ Forall (fun c => c <> Ch.star /\ c <> Ch.bullet /\ c <> Ch.ring)
       (chatTitle messages).
Proof.
  assert (Hnew : newChatTitle <> []
                 /\ length newChatTitle <= 43
                 /\ trim newChatTitle = newChatTitle
                 /\ Forall (fun c => isWhiteSpace c = true -> c = Ch.space)
                      newChatTitle
                 /\ countOcc [Ch.space; Ch.space] newChatTitle = 0
                 /\ Forall (fun c => c <> Ch.star /\ c <> Ch.bullet
                                     /\ c <> Ch.ring) newChatTitle).
  { split; [done|]. split; [simpl; lia|]. split; [reflexivity|].
    split; [|split; [reflexivity|]].
    - repeat constructor; discriminate.
    - by repeat constructor. }
  unfold chatTitle. cbv zeta.
  destruct (0 <? length messages); [|exact Hnew].
  set (t0 := match List.find _ messages with
             | Some m => _
             | None => _
             end).
  assert (Ht0 : Forall (fun c => c <> Ch.star /\ c <> Ch.bullet
                                 /\ c <> Ch.ring) t0
                /\ length t0 <= 43).
  { destruct Hnew as (_ & Hl & _ & _ & _ & Hm).
    unfold t0.
    repeat match goal with
           | |- context [match ?x with Some _ => _ | None => _ end] =>
               destruct x
           | |- context [if ?b then _ else _] => destruct b
           end;
      split; auto using titleFrom_marks, titleFrom_length. }
  clearbody t0. destruct Ht0 as [Hm Hl].
  pose proof (cleaned_title t0 Hm Hl) as Hc. cbv zeta in Hc.
  destruct (trim (collapseSpaces false (replaceNewlines t0))) as [|c t] eqn:E.
  - exact Hnew.
  - cbn [truthy negb length Nat.eqb orb]. split; [done|exact Hc].
Qed.

(** X25 -- The title is taken from the first message of the user, when that
    has some content: what is said later in the chat does not change it. *)
Theorem chatTitle_first_user (messages more : list (message context)) m :
  List.find (fun m => strEq (m_role m) (js "user")) messages = Some m ->
  truthy (m_content m) = true ->
  chatTitle (messages ++ more) = chatTitle messages.
Proof.
  intros Hf Hc. unfold chatTitle. cbv zeta.
  assert (Hlen : 0 < length messages) by (destruct messages; [done|simpl; lia]).
  rewrite length_app.
  replace (0 <? length messages + length more) with true
    by (symmetry; apply Nat.ltb_lt; lia).
  replace (0 <? length messages) with true
    by (symmetry; apply Nat.ltb_lt; lia).
  rewrite (find_app_Some _ _ more _ Hf), Hf, Hc. reflexivity.
Qed.

End TitleProperties.

Lemma chatTitle_first_user_witness :
  chatTitle ([userMessage (context := unit) (js " **Sales** by region ")]
             ++ [errorMessage (js "Failed to fetch")])
  = chatTitle [userMessage (context := unit) (js " **Sales** by region ")].
Proof.
  apply (chatTitle_first_user
           [userMessage (context := unit) (js " **Sales** by region ")]
           [errorMessage (js "Failed to fetch")]
           (userMessage (js " **Sales** by region ")));
    reflexivity.
Defined.

(** ** The list of chats *)

Lemma strEq_refl (a : jsstring) : strEq a a = true.
Proof.
  induction a as [|x a IH]; [done|]. simpl. now rewrite N.eqb_refl.
Qed.

Section ChatProperties.
Context {context account : Type} (toLowerCase : jsstring -> jsstring).

Lemma In_map_id (f : chat context -> chat context) (cs : list (chat context)) c :
  (forall c, c_id (f c) = c_id c) ->
  In c cs -> exists c', In c' (map f cs) /\ c_id c' = c_id c.
Proof.
  intros Hf Hc. exists (f c). split; [now apply in_map|apply Hf].
Qed.

Lemma appendMessage_ids i (m : message context) cs c :
  In c cs -> exists c', In c' (appendMessage i m cs) /\ c_id c' = c_id c.
Proof.
  apply In_map_id. intros c0. now destruct (isId i c0).
Qed.

Lemma updateChatTitle_ids chatId (ms : list (message context)) cs c :
  In c cs -> exists c', In c' (updateChatTitle chatId ms cs) /\ c_id c' = c_id c.
Proof.
  apply In_map_id. intros c0.
  now destruct ((c_id c0 =? chatId)%N
                && (strEq (c_title c0) newChatTitle
                    || (length (c_title c0) <? 5))).
Qed.

Lemma closeOnMobile_fields w (st : state context account) :
  chats (closeOnMobile w st) = chats st
  /\ activeChatId (closeOnMobile w st) = activeChatId st
  /\ loading (closeOnMobile w st) = loading st.
Proof. unfold closeOnMobile. now destruct (w <=? 768)%N. Qed.

Lemma handleLogout_loggedOut now date (st : state context account) :
  loggedOut (handleLogout now date st).
Proof. by repeat split. Qed.


(** X27 -- Updating the title twice is updating it once: the title of a chat
    settles with the first update for given messages. *)
Theorem updateChatTitle_idempotent chatId (messages : list (message context))
    (prev : list (chat context)) :
  updateChatTitle chatId messages (updateChatTitle chatId messages prev)
  = updateChatTitle chatId messages prev.
Proof.
  unfold updateChatTitle. cbv zeta. rewrite map_map. apply map_ext.
  intros c.
  destruct ((c_id c =? chatId)%N
            && (strEq (c_title c) newChatTitle || (length (c_title c) <? 5)))
    eqn:Hc.
  - match goal with
    | |- (if ?b then _ else _) = _ => destruct b
    end; reflexivity.
  - now rewrite Hc.
Qed.

Lemma chatLog_updateChatTitle chatId (ms : list (message context)) cs :
  map chatLog (updateChatTitle chatId ms cs) = map chatLog cs.
Proof.
  unfold updateChatTitle. cbv zeta. rewrite map_map. apply map_ext.
  intros c. now destruct (_ && _).
Qed.

Lemma titleEffect_fields (st : state context account) :
  map chatLog (chats (titleEffect st)) = map chatLog (chats st)
  /\ activeChatId (titleEffect st) = activeChatId st
  /\ loading (titleEffect st) = loading st.
Proof.
  unfold titleEffect. destruct (activeChatId st) as [activeId|] eqn:Ha; [|done].
  destruct (_ && _); [|done].
  destruct (List.find _ (chats st)) as [cur|]; [|done].
  destruct (0 <? length (c_messages cur)); [|done].
  cbn. rewrite chatLog_updateChatTitle. done.
Qed.

Lemma chatLog_appendMessage i (m : message context) cs :
  map chatLog (appendMessage i m cs)
  = map (fun l : N * list (message context) =>
           (l.1, if idIs i l.1 then l.2 ++ [m] else l.2))
      (map chatLog cs).
Proof.
  unfold appendMessage. rewrite !map_map. apply map_ext. intros c.
  unfold isId, chatLog. cbn [fst snd]. now destruct (idIs i (c_id c)).
Qed.

(** X28 -- The reply goes to the chat the message was sent from, also
    when the user has moved to another chat of the list in the meantime
    and the titles have been updated: unless the request ends with the
    status 401, the chat the message was sent from gets the message of the
    user and then the message the request ends with, the messages of every
    other chat are as they were, no chat is added or removed, the request
    is no longer pending, and the chat the user moved to stays active.
    When the request ends with the status 401, the user is logged out
    instead: nobody is logged in, no chat is active, and the list is one
    fresh chat, which holds the error message only if its id happens to be
    the id the message was sent from. *)
Theorem reply_goes_to_sender (st : state context account)
    (other : chat context) (innerWidth now date : N) (r : reply context) :
  truthy (trim (input st)) = true -> loading st = false ->
  truthyId (activeChatId st) = true ->
  In other (chats st) ->
  (logsOut r = false ->
   let st' :=
     receiveReply (activeChatId st) now date r
       (titleEffect
          (selectChat (c_id other) innerWidth
             (titleEffect (sendMessage st)))) in
   map chatLog (chats st')
   = map (fun c =>
            (c_id c,
             if isId (activeChatId st) c
             then c_messages c ++ [userMessage (input st); replyMessage r]
             else c_messages c))
       (chats st)
   /\ loading st' = false
   /\ activeChatId st' = Some (c_id other))
  /\ (logsOut r = true ->
      forall arrival : state context account,
        let st' := receiveReply (activeChatId st) now date r arrival in
        loggedOut st'
        /\ loading st' = false
        /\ map chatLog (chats st')
           = [(now, if idIs (activeChatId st) now
                    then [replyMessage r] else [])]).
Proof.
  intros Hin Hl Ha Hother. split.
  - intros Hr st'. unfold st', receiveReply. rewrite Hr. cbv zeta iota.
    set (st1 := sendMessage st).
    set (st2 := titleEffect st1).
    set (st3 := selectChat (c_id other) innerWidth st2).
    set (st4 := titleEffect st3).
    cbn [withLoading withChats chats loading activeChatId].
    destruct (titleEffect_fields st1) as (Hc2 & Ha2 & _).
    destruct (titleEffect_fields st3) as (Hc4 & Ha4 & _).
    destruct (closeOnMobile_fields innerWidth (switchChat (c_id other) st2))
      as (Hc3 & Ha3 & _).
    fold (selectChat (c_id other) innerWidth st2) in Hc3, Ha3.
    fold st3 in Hc3, Ha3. fold st2 in Hc2. fold st4 in Hc4, Ha4.
    cbn in Hc3, Ha3.
    split; [|split; [done|now rewrite Ha4, Ha3]].
    rewrite chatLog_appendMessage, Hc4, Hc3, Hc2.
    unfold st1, sendMessage. rewrite Hin, Hl, Ha. cbn [negb orb]. cbv iota zeta.
    cbn [withLoading withInput withChats chats].
    rewrite chatLog_appendMessage, !map_map. apply map_ext. intros c.
    unfold isId, chatLog. cbn [fst snd].
    destruct (idIs (activeChatId st) (c_id c)); [|done].
    now rewrite <- app_assoc.
  - intros Hr arrival st'. unfold st', receiveReply. rewrite Hr.
    cbv zeta iota. split; [by repeat split|]. split; [done|].
    cbn. unfold isId. cbn.
    now destruct (idIs (activeChatId st) now).
Qed.

(** X29 -- The visualization of an answer is mounted exactly when one of the
    three patterns matches the answer, and with the matched span as its
    markup; the prose shown beside it is clean markup of the formatter, in
    which no script tag occurs. *)
Theorem assistantMessage_shown (answer : option jsstring)
    (contexts : option (list context)) :
  shownVisualization (assistantMessage answer contexts)
  = snd <$> htmlMatch (answerOrDefault answer)
  /\ forall out,
       shownProse (assistantMessage answer contexts) = Some out ->
       clean out /\ includesStr (js "<script>") out = false.
Proof.
  split.
  - unfold shownVisualization, assistantMessage. cbv zeta.
    cbn [m_hasVisualization m_htmlContent].
    destruct (htmlMatch (answerOrDefault answer)) as [[i m]|] eqn:Hm.
    + destruct (parseMessage_match _ _ _ Hm) as [_ ->]. simpl.
      destruct (htmlMatch_Some _ _ _ Hm) as (r & Hr & He).
      destruct (regexMatch_Some _ _ _ _ He) as (_ & HL & _).
      pose proof (htmlPatterns_length r m Hr HL).
      destruct m; [simpl in *; lia|done].
    + unfold parseMessage.
      destruct (negb (truthy (answerOrDefault answer))); [done|].
      now rewrite Hm.
  - unfold shownProse. intros out.
    destruct (truthy _); [|discriminate]. intros [= <-].
    split; [apply formatMessage_clean|].
    unfold includesStr, indexOf.
    now rewrite clean_no_script by apply formatMessage_clean.
Qed.

End ChatProperties.


Lemma reply_goes_to_sender_witness :
  (map chatLog
     (chats
        (receiveReply (activeChatId sampleState) 7 8
           (Failed (js "Failed to fetch"))
           (titleEffect
              (selectChat (c_id otherChat) 1024
                 (titleEffect (sendMessage sampleState))))))
   = [(1%N, [userMessage (input sampleState);
             errorMessage (js "Failed to fetch")]);
      (2%N, [])]
   /\ loading
        (receiveReply (activeChatId sampleState) 7 8
           (Failed (js "Failed to fetch"))
           (titleEffect
              (selectChat (c_id otherChat) 1024
                 (titleEffect (sendMessage sampleState)))))
      = false
   /\ activeChatId
        (receiveReply (activeChatId sampleState) 7 8
           (Failed (js "Failed to fetch"))
           (titleEffect
              (selectChat (c_id otherChat) 1024
                 (titleEffect (sendMessage sampleState)))))
      = Some 2%N)
  /\ (loggedOut
        (receiveReply (activeChatId sampleState) 7 8 (Rejected 401)
           (sendMessage sampleState))
      /\ loading
           (receiveReply (activeChatId sampleState) 7 8 (Rejected 401)
              (sendMessage sampleState))
         = false
      /\ map chatLog
           (chats
              (receiveReply (activeChatId sampleState) 7 8 (Rejected 401)
                 (sendMessage sampleState)))
         = [(7%N, [])]).
Proof.
  split.
  - apply (proj1 (reply_goes_to_sender sampleState otherChat 1024 7 8
                    (Failed (js "Failed to fetch"))
                    ltac:(reflexivity) ltac:(reflexivity) ltac:(reflexivity)
                    ltac:(right; left; reflexivity))).
    reflexivity.
  - apply (proj2 (reply_goes_to_sender sampleState otherChat 1024 7 8
                    (Rejected 401)
                    ltac:(reflexivity) ltac:(reflexivity) ltac:(reflexivity)
                    ltac:(right; left; reflexivity))).
    reflexivity.
Defined.

Lemma assistantMessage_shown_witness :
  clean (formatMessage (js "No response received."))
  /\ includesStr (js "<script>") (formatMessage (js "No response received."))
     = false.
Proof.
  apply (proj2 (assistantMessage_shown (context := unit) None None)).
  reflexivity.
Defined.

(** ** The order of the lines *)

Lemma lineParts_app (a b : list part) :
  lineParts (a ++ b) = lineParts a ++ lineParts b.
Proof. unfold lineParts. now rewrite map_app, concat_app. Qed.

Lemma sublist_drop_le {A} (l : list A) i j :
  i <= j -> sublist (drop j l) (drop i l).
Proof.
  intros Hij. replace j with (i + (j - i)) by lia.
  rewrite <- drop_drop. apply sublist_drop.
Qed.

Lemma processLoop_order lines : forall fuel i parts,
  exists rest,
    lineParts (processLoop fuel lines i parts) = lineParts parts ++ rest
    /\ sublist rest (drop i lines).
Proof.
  induction fuel as [|fuel IH]; intros i parts.
  - exists []. rewrite app_nil_r. split; [done|apply sublist_nil_l].
  - cbn [processLoop]. destruct (Nat.ltb_spec i (length lines)) as [Hi|Hi].
    2:{ exists []. rewrite app_nil_r. split; [done|apply sublist_nil_l]. }
    destruct (tableAt lines i) as [[tableHTML j]|] eqn:Ht.
    + apply tableAt_advances in Ht.
      destruct (IH j (parts ++ [PTable tableHTML])) as (rest & -> & Hs).
      exists rest. rewrite lineParts_app. cbn. rewrite app_nil_r.
      split; [done|].
      etransitivity; [exact Hs|]. apply sublist_drop_le. lia.
    + destruct (IH (i + 1) (parts ++ [PLine (nth i lines [])]))
        as (rest & -> & Hs).
      exists (nth i lines [] :: rest). rewrite lineParts_app. cbn.
      rewrite <- app_assoc. split; [done|].
      destruct (lookup_lt_is_Some_2 lines i Hi) as [x Hx].
      rewrite (drop_S lines x i Hx).
      rewrite (nth_lookup_Some _ _ [] _ Hx).
      apply sublist_skip. now rewrite Nat.add_1_r in Hs.
Qed.

(** X30 -- The walk over the lines neither reorders nor repeats a line: the
    lines that become parts of their own are lines of the message, in the
    order of the message, each taken once. *)
Theorem processParts_order (lines : list jsstring) :
  sublist (lineParts (processParts lines)) lines.
Proof.
  unfold processParts.
  destruct (processLoop_order lines (length lines) 0 []) as (rest & -> & Hs).
  now rewrite drop_0 in Hs.
Qed.
